(** * CSDevs: capture pipeline and auto-exposure tuner

    A shallow embedding of the frame-capture worker ([csdCapture.py],
    class [captureThread]) and of the exposure tuning engine ([csdevs.py],
    class [CSDevs]), with the properties stated for them.

    Conventions.
    - Python [float] values are idealised as real numbers ([R]); Python
      [int] values are [Z].  [int(x)] on a float truncates toward zero.
    - A Python exception is a value of [exn]; code that can raise returns
      a [result].
    - Calls into the V4L2 device, [select], [mmap], the imaging library
      and the random number generator are answered by an explicit
      environment, so every function below is a deterministic function of
      its state and of that environment. *)

From Stdlib Require Import Reals Lra ZArith Lia List Bool String.
From Stdlib Require Import Zfloor Recdef.
Import ListNotations.

Set Implicit Arguments.

(** ** Exceptions and results *)

Inductive exn : Type :=
| OSError
| TypeError
| ValueError
| IndexError
| AttributeError
| UnidentifiedImageError
| FileNotFoundError
| RuntimeError.

Definition exn_eqb (a b : exn) : bool :=
  match a, b with
  | OSError, OSError | TypeError, TypeError | ValueError, ValueError
  | IndexError, IndexError | AttributeError, AttributeError
  | UnidentifiedImageError, UnidentifiedImageError
  | FileNotFoundError, FileNotFoundError | RuntimeError, RuntimeError => true
  | _, _ => false
  end.

Inductive result (A : Type) : Type :=
| Ok (a : A)
| Raise (e : exn).

Arguments Ok {A} a.
Arguments Raise {A} e.

Definition rbind {A B} (r : result A) (k : A -> result B) : result B :=
  match r with
  | Ok a => k a
  | Raise e => Raise e
  end.

(** ** Real-number comparisons as booleans *)

Definition Rltb (a b : R) : bool := if Rlt_dec a b then true else false.
Definition Rleb (a b : R) : bool := if Rle_dec a b then true else false.
Definition Reqb (a b : R) : bool := if Req_dec_T a b then true else false.

(** ** Python numeric primitives *)

Module Py.

(** [int(x)] for a float [x]: truncation toward zero. *)
Definition int (x : R) : Z := if Rle_dec 0 x then Zfloor x else Zceil x.

(** [pow(x, p)] for a float base [x >= 0].  The tuner only calls it on
    [abs(...)] with a positive constant exponent; [pow(0.0, p)] is [0.0]
    for [p > 0] and [1.0] for [p = 0]. *)
Definition pow (x p : R) : R :=
  if Req_dec_T x 0 then (if Req_dec_T p 0 then 1%R else 0%R) else Rpower x p.

End Py.

(** ** The tuning engine ([csdevs.py], class [CSDevs]) *)

Module CSDevs.

Local Open Scope R_scope.

(** *** Fractions of a range *)

(** [is_frac] *)
Definition is_frac (aValue : R) : bool := Rleb 0 aValue && Rleb aValue 1.

(** [__property_zero_base] *)
Definition property_zero_base (fValue fMin : R) (toZero : bool) : result R :=
  if toZero && Rltb fValue fMin then Raise ValueError
  else if toZero then Ok (fValue - fMin) else Ok (fValue + fMin).

(** [__property_range] *)
Definition property_range (fMin fMax : R) : R :=
  if Rltb fMax fMin then fMin - fMax else fMax - fMin.

(** [__property_value_as_fraction] *)
Definition property_value_as_fraction (fValue fMin fMax : R) : result R :=
  let fRange := property_range fMin fMax in
  if Reqb fRange 0 || Rltb fMax fValue then Raise ValueError
  else rbind (property_zero_base fValue fMin true)
             (fun zValue => Ok (zValue / fRange)).

(** [__property_fraction_as_value] *)
Definition property_fraction_as_value (fFrac fMin fMax : R) : result R :=
  if Rltb fFrac 0 || Rltb 1 fFrac then Raise ValueError
  else
    let fRange := property_range fMin fMax in
    let zValue := fFrac * fRange in
    property_zero_base zValue fMin false.

(** [__limit_property_value_to_range] *)
Definition limit_property_value_to_range (fValue fMin fMax : R) : R :=
  if Rltb fValue fMin then fMin
  else if Rltb fMax fValue then fMax
  else fValue.

(** *** The delta law *)

(** [__compute_applied_delta]: the fractional delta to add to a control.
    The guard of the fallback tests [abs(newCtrlFrac)], as the source
    does. *)
Definition compute_applied_delta (frmFrac tgtFrac ctrlFrac deltaPower : R)
  : result R :=
  if is_frac frmFrac && is_frac tgtFrac && is_frac ctrlFrac then
    let frmDeltaFrac := tgtFrac - frmFrac in
    let dSign := if Rleb 0 frmDeltaFrac then 1 else -1 in
    let dCtrlFrac := dSign * Py.pow (Rabs frmDeltaFrac) deltaPower in
    let newCtrlFrac := ctrlFrac + dCtrlFrac in
    if negb (is_frac (Rabs newCtrlFrac)) then
      if Rltb 1 newCtrlFrac then Ok ((1 - ctrlFrac) / 2)
      else if Rltb newCtrlFrac 0 then Ok (ctrlFrac / 2)
      else Ok dCtrlFrac
    else Ok dCtrlFrac
  else Raise ValueError.


(** *** Data model *)

Inductive v4l2_ctrl_type : Type :=
| V4L2_CTRL_TYPE_INTEGER
| V4L2_CTRL_TYPE_BOOLEAN
| V4L2_CTRL_TYPE_MENU
| V4L2_CTRL_TYPE_BUTTON
| V4L2_CTRL_TYPE_INTEGER64
| V4L2_CTRL_TYPE_CTRL_CLASS
| V4L2_CTRL_TYPE_STRING.

Definition is_integer_type (t : v4l2_ctrl_type) : bool :=
  match t with V4L2_CTRL_TYPE_INTEGER => true | _ => false end.

(** A control as the device describes it ([v4l2_queryctrl]). *)
Record v4l2_queryctrl : Type := mk_queryctrl {
  qc_id : Z;
  qc_type : v4l2_ctrl_type;
  qc_name : string;
  qc_minimum : Z;
  qc_maximum : Z;
  qc_step : Z;
  qc_default_value : Z
}.

(** A pending control write ([v4l2_control]). *)
Record v4l2_control : Type := mk_control {
  ctrl_id : Z;
  ctrl_value : Z
}.

(** A tuning rule, the tuple [(tuneProperty, ctrlName, rForce, rMin, rMax,
    negativeUse, encourageRange)]. *)
Record Tuner : Type := mk_tuner {
  tuneProperty : string;
  ctrlName : string;
  rForce : Z;
  rMin : Z;
  rMax : Z;
  negativeUse : bool;
  encourageRange : bool
}.

(** The rotation cursor of one property, the tuple
    [(property, iCtrl, iCount)]. *)
Record TuningState : Type := mk_tuning_state {
  ts_property : string;
  ts_iCtrl : Z;
  ts_iCount : Z
}.

(** Statistics of the last frame and the target bands; read-only during a
    tuning cycle.  [its_daytime] is the answer of [todCalc.its_daytime()]. *)
Record FrameInfo : Type := mk_frame_info {
  its_daytime : bool;
  lastFrameBrightness : R;
  lastFrameContrast : R;
  lastFrameSaturation : R;
  frameDayBrightnessTarget : R;
  frameDayContrastTarget : R;
  frameDaySaturationTarget : R;
  frameDayBrightnessMinTarget : R;
  frameDayContrastMinTarget : R;
  frameDaySaturationMinTarget : R;
  frameNightBrightnessTarget : R;
  frameNightContrastTarget : R;
  frameNightSaturationTarget : R;
  frameNightBrightnessMinTarget : R;
  frameNightContrastMinTarget : R;
  frameNightSaturationMinTarget : R
}.

(** The camera and the configuration; read-only during a tuning cycle.
    [cameraControls] is the control list of the current camera (a current
    camera is assumed); [deviceControls] answers [VIDIOC_QUERYCTRL] on the
    open device; [random_uniform] and [random_randint] are the successive
    answers of [random.uniform(0.01, 0.15)] and [random.randint(1, 15)]. *)
Record Camera : Type := mk_camera {
  cameraControls : list v4l2_queryctrl;
  deviceControls : Z -> option v4l2_queryctrl;
  tuningControlSettingsDay : list Tuner;
  tuningControlSettingsNight : list Tuner;
  random_uniform : nat -> R;
  random_randint : nat -> Z
}.

(** The mutable part of a [CSDevs] object that tuning touches. *)
Record CSDevs : Type := mk_csdevs {
  frame : FrameInfo;
  camera : Camera;
  lastTOD : string;
  loLimit : Z;
  hiLimit : Z;
  noClampLoLimit : option Z;
  noClampHiLimit : option Z;
  tunedControls : list Z;
  imageTuningControlsDay : list TuningState;
  imageTuningControlsNight : list TuningState;
  controls : list v4l2_control;
  random_pos : nat
}.

Definition kTuneDay : string := "Day".
Definition kTuneNight : string := "Night".
Definition tuneProperties : list string :=
  ["Brightness"; "Contrast"; "Saturation"]%string.

Definition set_lastTOD (v : string) (s : CSDevs) : CSDevs :=
  mk_csdevs (frame s) (camera s) v (loLimit s) (hiLimit s)
    (noClampLoLimit s) (noClampHiLimit s) (tunedControls s)
    (imageTuningControlsDay s) (imageTuningControlsNight s) (controls s)
    (random_pos s).

Definition set_loLimit (v : Z) (s : CSDevs) : CSDevs :=
  mk_csdevs (frame s) (camera s) (lastTOD s) v (hiLimit s)
    (noClampLoLimit s) (noClampHiLimit s) (tunedControls s)
    (imageTuningControlsDay s) (imageTuningControlsNight s) (controls s)
    (random_pos s).

Definition set_hiLimit (v : Z) (s : CSDevs) : CSDevs :=
  mk_csdevs (frame s) (camera s) (lastTOD s) (loLimit s) v
    (noClampLoLimit s) (noClampHiLimit s) (tunedControls s)
    (imageTuningControlsDay s) (imageTuningControlsNight s) (controls s)
    (random_pos s).

Definition set_noClampLimits (lo hi : option Z) (s : CSDevs) : CSDevs :=
  mk_csdevs (frame s) (camera s) (lastTOD s) (loLimit s) (hiLimit s)
    lo hi (tunedControls s)
    (imageTuningControlsDay s) (imageTuningControlsNight s) (controls s)
    (random_pos s).

Definition set_tunedControls (v : list Z) (s : CSDevs) : CSDevs :=
  mk_csdevs (frame s) (camera s) (lastTOD s) (loLimit s) (hiLimit s)
    (noClampLoLimit s) (noClampHiLimit s) v
    (imageTuningControlsDay s) (imageTuningControlsNight s) (controls s)
    (random_pos s).

Definition set_imageTuningControlsDay (v : list TuningState) (s : CSDevs)
  : CSDevs :=
  mk_csdevs (frame s) (camera s) (lastTOD s) (loLimit s) (hiLimit s)
    (noClampLoLimit s) (noClampHiLimit s) (tunedControls s)
    v (imageTuningControlsNight s) (controls s) (random_pos s).

Definition set_imageTuningControlsNight (v : list TuningState) (s : CSDevs)
  : CSDevs :=
  mk_csdevs (frame s) (camera s) (lastTOD s) (loLimit s) (hiLimit s)
    (noClampLoLimit s) (noClampHiLimit s) (tunedControls s)
    (imageTuningControlsDay s) v (controls s) (random_pos s).

Definition set_controls (v : list v4l2_control) (s : CSDevs) : CSDevs :=
  mk_csdevs (frame s) (camera s) (lastTOD s) (loLimit s) (hiLimit s)
    (noClampLoLimit s) (noClampHiLimit s) (tunedControls s)
    (imageTuningControlsDay s) (imageTuningControlsNight s) v
    (random_pos s).

Definition set_random_pos (v : nat) (s : CSDevs) : CSDevs :=
  mk_csdevs (frame s) (camera s) (lastTOD s) (loLimit s) (hiLimit s)
    (noClampLoLimit s) (noClampHiLimit s) (tunedControls s)
    (imageTuningControlsDay s) (imageTuningControlsNight s) (controls s) v.

(** *** Outcomes of stateful code

    Python mutates the object in place, so the state reached when an
    exception is raised is kept.  [Spin] marks a loop whose iteration
    budget ran out. *)

Inductive outcome (A : Type) : Type :=
| Done (a : A)
| Fail (e : exn)
| Spin.

Arguments Done {A} a.
Arguments Fail {A} e.
Arguments Spin {A}.

Definition M (A : Type) : Type := CSDevs -> outcome A * CSDevs.

Definition ret {A} (a : A) : M A := fun s => (Done a, s).

Definition bind {A B} (m : M A) (k : A -> M B) : M B :=
  fun s =>
    match m s with
    | (Done a, s') => k a s'
    | (Fail e, s') => (Fail e, s')
    | (Spin, s') => (Spin, s')
    end.

Definition fail {A} (e : exn) : M A := fun s => (Fail e, s).
Definition spin {A} : M A := fun s => (Spin, s).
Definition get : M CSDevs := fun s => (Done s, s).
Definition modify (f : CSDevs -> CSDevs) : M unit := fun s => (Done tt, f s).

Definition lift {A} (r : result A) : M A :=
  match r with
  | Ok a => ret a
  | Raise e => fail e
  end.

Notation "x <- m ;; k" := (bind m (fun x => k))
  (at level 61, m at next level, right associativity).
Notation "m ;;; k" := (bind m (fun _ => k))
  (at level 61, right associativity).

(** *** Time of day and target bands *)

(** [__tod_tuning_control_settings] *)
Definition tod_tuning_control_settings (s : CSDevs) (todName : string)
  : list Tuner :=
  if String.eqb todName kTuneNight
  then tuningControlSettingsNight (camera s)
  else tuningControlSettingsDay (camera s).

(** [__tod_tuning_control_info] *)
Definition tod_tuning_control_info (s : CSDevs) (todName : string)
  : list TuningState :=
  if String.eqb todName kTuneNight
  then imageTuningControlsNight s
  else imageTuningControlsDay s.

(** [__switch_TOD_controls].  The working copies [tuningControlSettings]
    and [imageTuningControls] are references to the lists of the current
    time of day; they are read below through [lastTOD]. *)
Definition switch_TOD_controls (s : CSDevs) : CSDevs :=
  let todNow := if its_daytime (frame s) then kTuneDay else kTuneNight in
  if negb (String.eqb (lastTOD s) todNow) then set_lastTOD todNow s else s.

Definition tuningControlSettings (s : CSDevs) : list Tuner :=
  tod_tuning_control_settings s (lastTOD s).

Definition imageTuningControls (s : CSDevs) : list TuningState :=
  tod_tuning_control_info s (lastTOD s).

(** [__frame_last_value_by_property] *)
Definition frame_last_value_by_property (s : CSDevs) (property : string) : R :=
  if String.eqb property "Brightness" then lastFrameBrightness (frame s)
  else if String.eqb property "Contrast" then lastFrameContrast (frame s)
  else if String.eqb property "Saturation" then lastFrameSaturation (frame s)
  else -1.

(** [__preferred_day_target_by_property] *)
Definition preferred_day_target_by_property (s : CSDevs) (property : string)
  (getTargetMax : bool) : R :=
  if String.eqb property "Brightness" then
    if getTargetMax then frameDayBrightnessTarget (frame s)
    else frameDayBrightnessMinTarget (frame s)
  else if String.eqb property "Contrast" then
    if getTargetMax then frameDayContrastTarget (frame s)
    else frameDayContrastMinTarget (frame s)
  else if String.eqb property "Saturation" then
    if getTargetMax then frameDaySaturationTarget (frame s)
    else frameDaySaturationMinTarget (frame s)
  else 0.

(** [__preferred_night_target_by_property]: a negative night target means
    that the day value is used all day. *)
Definition preferred_night_target_by_property (s : CSDevs) (property : string)
  (getTargetMax : bool) : R :=
  let pick (v : R) : option R := if Rleb 0 v then Some v else None in
  let tgtVal :=
    if String.eqb property "Brightness" then
      if getTargetMax then pick (frameNightBrightnessTarget (frame s))
      else pick (frameNightBrightnessMinTarget (frame s))
    else if String.eqb property "Contrast" then
      if getTargetMax then pick (frameNightContrastTarget (frame s))
      else pick (frameNightContrastMinTarget (frame s))
    else if String.eqb property "Saturation" then
      if getTargetMax then pick (frameNightSaturationTarget (frame s))
      else pick (frameNightSaturationMinTarget (frame s))
    else Some 0 in
  match tgtVal with
  | Some v => v
  | None => preferred_day_target_by_property s property getTargetMax
  end.

(** [__preferred_target_by_property] *)
Definition preferred_target_by_property (s : CSDevs) (property : string)
  (getTargetMax : bool) : R :=
  if its_daytime (frame s)
  then preferred_day_target_by_property s property getTargetMax
  else preferred_night_target_by_property s property getTargetMax.

(** *** Masking *)

(** [__property_masked] *)
Definition property_masked (s : CSDevs) (property : string) : bool :=
  if negb (String.eqb property "Brightness") then
    let lBright := frame_last_value_by_property s "Brightness" in
    let minBright := preferred_target_by_property s "Brightness" false in
    let maxBright := preferred_target_by_property s "Brightness" true in
    let tBright := minBright + (maxBright - minBright) / 2 in
    let dBright := Rabs (tBright - lBright) in
    if (Rltb lBright minBright || Rltb maxBright lBright)
       && Rltb (tBright / 2) dBright
    then true
    else if String.eqb property "Saturation" then
      let lCont := frame_last_value_by_property s "Contrast" in
      let minCont := preferred_target_by_property s "Contrast" false in
      let maxCont := preferred_target_by_property s "Contrast" true in
      let tCont := minCont + (maxCont - minCont) / 2 in
      let dCont := Rabs (tCont - lCont) in
      if (Rltb lCont minCont || Rltb maxCont lCont)
         && Rltb (tCont / 2) dCont
      then true
      else false
    else false
  else false.

(** *** Control lookup and pending settings *)

(** [__camera_control_by_name] on the current camera: the first control of
    that name. *)
Definition current_camera_control_by_name (s : CSDevs) (name : string)
  : option v4l2_queryctrl :=
  find (fun q => String.eqb name (qc_name q)) (cameraControls (camera s)).

(** [__current_camera_control_ID_by_name] *)
Definition current_camera_control_ID_by_name (s : CSDevs) (name : string)
  : option Z :=
  option_map qc_id (current_camera_control_by_name s name).

(** [get_current_camera_control_by_ID] *)
Definition get_current_camera_control_by_ID (s : CSDevs) (ctrlID : Z)
  : option v4l2_queryctrl :=
  deviceControls (camera s) ctrlID.

(** [__setting_control_by_ID] *)
Definition setting_control_by_ID (s : CSDevs) (ctrlID : Z)
  : option v4l2_control :=
  find (fun c => Z.eqb (ctrl_id c) ctrlID) (controls s).

(** [__setting_control_by_name] *)
Definition setting_control_by_name (s : CSDevs) (reqCtrlName : string)
  : option v4l2_control :=
  match current_camera_control_ID_by_name s reqCtrlName with
  | Some ctrlID => setting_control_by_ID s ctrlID
  | None => None
  end.

(** [self.controls.remove(aCtrl)] for the object [aCtrl] that
    [__setting_control_by_ID] found: drops the first setting of that ID. *)
Fixpoint remove_first (ctrlID : Z) (l : list v4l2_control)
  : list v4l2_control :=
  match l with
  | [] => []
  | x :: l' =>
      if Z.eqb (ctrl_id x) ctrlID then l' else x :: remove_first ctrlID l'
  end.

(** [add_control_setting_by_ID]: a value that is not an integer ([None])
    raises [TypeError] inside, which is caught and only logged. *)
Definition add_control_setting_by_ID (ctrlID : Z) (value : option Z)
  (s : CSDevs) : CSDevs :=
  match value with
  | Some v => set_controls (controls s ++ [mk_control ctrlID v]) s
  | None => s
  end.

(** [remove_control_setting_by_ID] *)
Definition remove_control_setting_by_ID (ctrlID : Z) (s : CSDevs) : CSDevs :=
  match setting_control_by_ID s ctrlID with
  | Some aCtrl => set_controls (remove_first (ctrl_id aCtrl) (controls s)) s
  | None => s
  end.

(** [replace_control_setting_by_ID] *)
Definition replace_control_setting_by_ID (ctrlID : Z) (newValue : option Z)
  (s : CSDevs) : CSDevs :=
  add_control_setting_by_ID ctrlID newValue
    (remove_control_setting_by_ID ctrlID s).

(** [__create_best_fit_control_setting_by_name], with [iLimit=None]. *)
Definition create_best_fit_control_setting_by_name (name : string)
  (s : CSDevs) : CSDevs :=
  match setting_control_by_name s name with
  | Some _ => s
  | None =>
      match current_camera_control_by_name s name with
      | Some qCtrl =>
          if is_integer_type (qc_type qCtrl)
          then add_control_setting_by_ID (qc_id qCtrl)
                 (Some (qc_default_value qCtrl)) s
          else s
      | None => s
      end
  end.

(** *** Tuning one control *)

(** [__get_control_tune_power] *)
Definition get_control_tune_power (s : CSDevs) (imgProp ctrlName : string)
  (usePreferred : bool) : R :=
  let fastPow := if String.eqb (lastTOD s) kTuneDay then 105 / 100
                 else 11 / 10 in
  let slowPow := if String.eqb (lastTOD s) kTuneDay then 115 / 100
                 else 12 / 10 in
  if String.eqb imgProp "Brightness"
     && (String.eqb ctrlName imgProp || String.eqb ctrlName "Gain")
     && usePreferred
  then fastPow
  else if String.eqb imgProp "Contrast" && String.eqb ctrlName imgProp
          && usePreferred
  then fastPow
  else if String.eqb imgProp "Saturation" && String.eqb ctrlName imgProp
          && usePreferred
  then fastPow
  else slowPow.

(** The pattern
    [try: f = __property_value_as_fraction(v, lo, hi)
     except ValueError: 0.0 if v < lo, 1.0 if v > hi, else re-raise]
    that [__tune_control_value_by_ID] uses for the frame value, the
    target and the control value. *)
Definition value_as_fraction_or_end (fValue fMin fMax : R) : result R :=
  match property_value_as_fraction fValue fMin fMax with
  | Ok f => Ok f
  | Raise ValueError =>
      if Rltb fValue fMin then Ok 0
      else if Rltb fMax fValue then Ok 1
      else Raise ValueError
  | Raise e => Raise e
  end.

(** The pattern
    [try: v = __property_fraction_as_value(f, lo, hi)
     except ValueError: lo if f < 0.0, hi if f > 1.0, else re-raise]. *)
Definition fraction_as_value_or_end (fFrac fMin fMax : R) : result R :=
  match property_fraction_as_value fFrac fMin fMax with
  | Ok v => Ok v
  | Raise ValueError =>
      if Rltb fFrac 0 then Ok fMin
      else if Rltb 1 fFrac then Ok fMax
      else Raise ValueError
  | Raise e => Raise e
  end.

(** One control step as a fraction of the range, and the cap on the
    change of the control in one cycle.  The cap of a range above 15 is
    random; [u] and [k] are the answers of [random.uniform(0.01, 0.15)]
    and of [random.randint(1, 15)]. *)
Definition min_ctrl_delta (minCtrl maxCtrl : R) : R :=
  if Reqb minCtrl maxCtrl then 0
  else 1 / (if Rltb minCtrl maxCtrl then maxCtrl - minCtrl
            else minCtrl - maxCtrl).

Definition ctrl_delta_limit (minCtrl maxCtrl : R) (u : R) (k : Z) : Z :=
  if Reqb minCtrl maxCtrl then 0%Z
  else
    let ctrlRange := if Rltb minCtrl maxCtrl then maxCtrl - minCtrl
                     else minCtrl - maxCtrl in
    if Rltb 15 ctrlRange then
      if Rleb ctrlRange 100 then Py.int (ctrlRange * u) else k
    else 1%Z.

(** "Limit the delta to avoid extreme adjustments": the new value is at
    most [dCtrlLimit] away from the current value. *)
Definition limit_delta (vCtrlNew : R) (value : Z) (dCtrlLimit : Z) : R :=
  let dCtrlNew := Rabs (vCtrlNew - IZR value) in
  if Rltb (IZR dCtrlLimit) dCtrlNew then
    if Rleb (IZR value) vCtrlNew
    then IZR (value + dCtrlLimit)
    else IZR (value - dCtrlLimit)
  else vCtrlNew.

(** "Force it by one": when the new value has the integer part of the
    current one although a change was computed. *)
Definition nudge (vCtrlNew : R) (ivCtrl : Z)
  (dCtrlFrac ctrlFrac dFrameFrac expFrac : R) : R :=
  if Z.eqb (Py.int vCtrlNew) ivCtrl then
    if negb (Reqb dCtrlFrac ctrlFrac) then
      if Rltb ctrlFrac dCtrlFrac then vCtrlNew + 1 else vCtrlNew - 1
    else if negb (Reqb dFrameFrac expFrac) then
      if Rltb expFrac dFrameFrac then vCtrlNew + 1 else vCtrlNew - 1
    else vCtrlNew
  else vCtrlNew.

(** The body of [__tune_control_value_by_ID] for an integer control with
    setting [aCtrl] and description [qCtrl]; [usePower] is the damping
    power and [u], [k] the random answers (one pair is taken per call,
    whether or not the range needs it). *)
Definition tune_integer_control (aCtrl : v4l2_control) (qCtrl : v4l2_queryctrl)
  (vFrame tFrame rFrame : R) (dNeg : bool) (forceMin forceMax : option R)
  (usePower : R) (u : R) (k : Z) : result Z :=
  rbind (value_as_fraction_or_end vFrame 1 rFrame) (fun valFrac =>
  rbind (value_as_fraction_or_end tFrame 1 rFrame) (fun tgtFrac =>
  let dFrameFrac := tgtFrac - valFrac in
  let minCtrl0 := IZR (qc_minimum qCtrl) in
  let maxCtrl0 := IZR (qc_maximum qCtrl) in
  let minCtrl := match forceMin with
                 | Some f => limit_property_value_to_range f minCtrl0 maxCtrl0
                 | None => minCtrl0
                 end in
  let maxCtrl := match forceMax with
                 | Some f => limit_property_value_to_range f minCtrl maxCtrl0
                 | None => maxCtrl0
                 end in
  let minCtrlDelta := min_ctrl_delta minCtrl maxCtrl in
  let dCtrlLimit := ctrl_delta_limit minCtrl maxCtrl u k in
  let ivCtrl := ctrl_value aCtrl in
  let vCtrl := IZR (ctrl_value aCtrl) in
  rbind (value_as_fraction_or_end vCtrl minCtrl maxCtrl) (fun ctrlFrac =>
  rbind (compute_applied_delta valFrac tgtFrac ctrlFrac usePower)
    (fun expFrac0 =>
  let discard := Rleb (Rabs dFrameFrac) (minCtrlDelta / 10) in
  let dFrameFrac := if discard then 0 else dFrameFrac in
  let expFrac := if discard then 0 else expFrac0 in
  rbind
    (if negb (Reqb dFrameFrac 0) then
       let dCtrlFrac := if dNeg then ctrlFrac - expFrac
                        else ctrlFrac + expFrac in
       rbind (fraction_as_value_or_end dCtrlFrac minCtrl maxCtrl)
         (fun vCtrlNew =>
            Ok (dCtrlFrac, limit_delta vCtrlNew (ctrl_value aCtrl) dCtrlLimit))
     else Ok (ctrlFrac, vCtrl))
    (fun '(dCtrlFrac, vCtrlNew) =>
  let vCtrlNew := nudge vCtrlNew ivCtrl dCtrlFrac ctrlFrac dFrameFrac expFrac in
  let vCtrlNew := limit_property_value_to_range vCtrlNew minCtrl maxCtrl in
  Ok (Py.int vCtrlNew)))))).

(** [__tune_control_value_by_ID]: [None] unless the control has a pending
    setting and is an integer control of the device.  The forced range
    [rCtrlForce] is only logged by the source. *)
Definition tune_control_value_by_ID (ctrlID : Z) (vFrame tFrame rFrame : R)
  (rCtrlForce : Z) (dNeg : bool) (forceMin forceMax : option R)
  (imgProp : string) : M (option Z) :=
  fun s =>
    match setting_control_by_ID s ctrlID,
          get_current_camera_control_by_ID s ctrlID with
    | Some aCtrl, Some qCtrl =>
        if is_integer_type (qc_type qCtrl) then
          let rMinT := preferred_target_by_property s imgProp false in
          let rMaxT := preferred_target_by_property s imgProp true in
          let preferredPower := Rltb vFrame rMinT || Rltb rMaxT vFrame in
          let usePower :=
            get_control_tune_power s imgProp (qc_name qCtrl) preferredPower in
          let u := random_uniform (camera s) (random_pos s) in
          let k := random_randint (camera s) (random_pos s) in
          let s' := set_random_pos (S (random_pos s)) s in
          match tune_integer_control aCtrl qCtrl vFrame tFrame rFrame dNeg
                  forceMin forceMax usePower u k with
          | Ok v => (Done (Some v), s')
          | Raise e => (Fail e, s')
          end
        else (Done None, s)
    | _, _ => (Done None, s)
    end.

(** *** Range limits of the control being tuned *)

(** [set_named_control_limits(ctrlName, min, max, encourageLimits=...)]
    with the defaults [loDef=0], [hiDef=64]. *)
Definition set_named_control_limits (name : string) (min max : option Z)
  (encourageLimits : bool) (s : CSDevs) : CSDevs :=
  let lo := match current_camera_control_by_name s name with
            | Some qCtrl => qc_minimum qCtrl
            | None => 0%Z
            end in
  let hi := match current_camera_control_by_name s name with
            | Some qCtrl => qc_maximum qCtrl
            | None => 64%Z
            end in
  let s1 := set_hiLimit hi (set_loLimit lo s) in
  let s2 := if encourageLimits then set_noClampLimits None None s1
            else set_noClampLimits (Some lo) (Some hi) s1 in
  let s3 := match min with Some m => set_loLimit m s2 | None => s2 end in
  match max with Some m => set_hiLimit m s3 | None => s3 end.

(** [use_named_control_all_properties_hi_limit]: the highest [rMax] among
    the tuners of that control, when above the current high limit. *)
Definition use_named_control_all_properties_hi_limit (name todName : string)
  (s : CSDevs) : CSDevs :=
  fold_left
    (fun acc aTuner =>
       if String.eqb (ctrlName aTuner) name
          && Z.ltb (hiLimit acc) (rMax aTuner)
       then set_hiLimit (rMax aTuner) acc else acc)
    (tod_tuning_control_settings s todName) s.

(** [use_named_control_all_properties_lo_limit] *)
Definition use_named_control_all_properties_lo_limit (name todName : string)
  (s : CSDevs) : CSDevs :=
  fold_left
    (fun acc aTuner =>
       if String.eqb (ctrlName aTuner) name
          && Z.ltb (rMin aTuner) (loLimit acc)
       then set_loLimit (rMin aTuner) acc else acc)
    (tod_tuning_control_settings s todName) s.

(** [__can_tune_property]: returns the answer and the state, whose limits
    it may have widened. *)
Definition can_tune_property (name : string) (lastValue tgtVal : R)
  (ctrlVal : Z) (negativeEffect encourageLimits : bool) (s : CSDevs)
  : bool * CSDevs :=
  if Rltb lastValue tgtVal then
    let s1 := if Z.ltb (hiLimit s) ctrlVal && encourageLimits
              then use_named_control_all_properties_hi_limit name (lastTOD s) s
              else s in
    if negativeEffect then (Z.ltb (loLimit s1) ctrlVal, s1)
    else (Z.ltb ctrlVal (hiLimit s1), s1)
  else if Rltb tgtVal lastValue then
    let s1 := if Z.ltb ctrlVal (loLimit s) && encourageLimits
              then use_named_control_all_properties_lo_limit name (lastTOD s) s
              else s in
    if negativeEffect then (Z.ltb ctrlVal (hiLimit s1), s1)
    else (Z.ltb (loLimit s1) ctrlVal, s1)
  else (false, s).

(** [__guide_control_value_to_current_range]: moves a value that lies
    outside the preferred range toward it with the delta law; raises
    [AttributeError] when the control is to be clamped instead. *)
Definition guide_control_value_to_current_range (s : CSDevs) (iCtrl : Z)
  : result Z :=
  match noClampLoLimit s, noClampHiLimit s with
  | Some ncLo, Some ncHi =>
      if Z.leb ncLo (loLimit s) && Z.leb (hiLimit s) ncHi then
        rbind
          (if Z.ltb iCtrl (loLimit s) then Ok (IZR (loLimit s))
           else if Z.ltb (hiLimit s) iCtrl then Ok (IZR (hiLimit s))
           else Raise AttributeError)
          (fun tgtVal =>
        rbind (property_value_as_fraction (IZR iCtrl) (IZR ncLo) (IZR ncHi))
          (fun ctrlFrac =>
        rbind (property_value_as_fraction tgtVal (IZR ncLo) (IZR ncHi))
          (fun tgtFrac =>
        rbind (compute_applied_delta ctrlFrac tgtFrac ctrlFrac (15 / 10))
          (fun expFrac =>
        let ctrlFrac' := ctrlFrac + expFrac in
        match property_fraction_as_value ctrlFrac' (IZR ncLo) (IZR ncHi) with
        | Ok vCtrlNew => Ok (Py.int vCtrlNew)
        | Raise ValueError => Raise AttributeError
        | Raise e => Raise e
        end))))
      else Ok iCtrl
  | _, _ => Raise AttributeError
  end.

(** [__limit_control_value_to_current_range] *)
Definition limit_control_value_to_current_range (s : CSDevs)
  (iCtrl : option Z) : result (option Z) :=
  match iCtrl with
  | None => Ok None
  | Some v =>
      match guide_control_value_to_current_range s v with
      | Ok v' => Ok (Some v')
      | Raise AttributeError =>
          let v1 := if Z.ltb v (loLimit s) then loLimit s else v in
          let v2 := if Z.ltb (hiLimit s) v1 then hiLimit s else v1 in
          Ok (Some v2)
      | Raise e => Raise e
      end
  end.

(** *** Candidate rotation *)

Fixpoint index_where {A} (p : A -> bool) (l : list A) (i : Z) : Z :=
  match l with
  | [] => (-1)%Z
  | x :: l' => if p x then i else index_where p l' (i + 1)%Z
  end.

(** [__first_tuning_ctrl_index_by_property_TOD] *)
Definition first_tuning_ctrl_index_by_property_TOD (s : CSDevs)
  (property todName : string) : Z :=
  index_where (fun t => String.eqb (tuneProperty t) property)
    (tod_tuning_control_settings s todName) 0%Z.

Fixpoint nth_of_property (property : string) (l : list Tuner)
  (iTuningControl iOfProperty iTarget : Z) : Z :=
  match l with
  | [] => (-1)%Z
  | t :: l' =>
      if String.eqb (tuneProperty t) property then
        if Z.eqb (iOfProperty + 1) iTarget then (iTuningControl + 1)%Z
        else nth_of_property property l' (iTuningControl + 1)%Z
               (iOfProperty + 1)%Z iTarget
      else nth_of_property property l' (iTuningControl + 1)%Z iOfProperty
             iTarget
  end.

(** [__tuning_control_index_for_property_TOD_index]: the index, among all
    tuners, of the [iTarget]-th tuner of the property. *)
Definition tuning_control_index_for_property_TOD_index (s : CSDevs)
  (property todName : string) (iTarget : Z) : Z :=
  nth_of_property property (tod_tuning_control_settings s todName)
    (-1)%Z (-1)%Z iTarget.

(** [tuning_state_index_by_property] *)
Definition tuning_state_index_by_property (s : CSDevs) (property : string)
  : Z :=
  if existsb (String.eqb property) tuneProperties then
    index_where (fun t => String.eqb (ts_property t) property)
      (tod_tuning_control_info s (lastTOD s)) 0%Z
  else (-1)%Z.

Fixpoint list_set {A} (l : list A) (i : nat) (x : A) : list A :=
  match l, i with
  | [], _ => []
  | _ :: l', O => x :: l'
  | y :: l', S i' => y :: list_set l' i' x
  end.

(** [self.imageTuningControls[iTuningState] = tuningCtrlsInfo]: the write
    reaches the list of the current time of day. *)
Definition set_imageTuningControls_at (iTuningState : Z) (t : TuningState)
  (s : CSDevs) : CSDevs :=
  if String.eqb (lastTOD s) kTuneNight
  then set_imageTuningControlsNight
         (list_set (imageTuningControlsNight s) (Z.to_nat iTuningState) t) s
  else set_imageTuningControlsDay
         (list_set (imageTuningControlsDay s) (Z.to_nat iTuningState) t) s.

(** The [while True] loop of
    [__next_tuning_control_index_by_property_TOD]; [fuel] bounds the
    number of iterations. *)
Fixpoint next_index_loop (fuel : nat) (property todName : string)
  (iTuningState iCount iCtrl iFirst : Z) (ctrlNotFound : bool)
  (skippedCount : Z) : M Z :=
  match fuel with
  | O => spin
  | S fuel' =>
      fun s =>
      let iTuner :=
        tuning_control_index_for_property_TOD_index s property todName iCtrl in
      if Z.eqb iTuner (-1) then
        if ctrlNotFound then (Done (-1)%Z, s)
        else
          next_index_loop fuel' property todName iTuningState iCount
            (first_tuning_ctrl_index_by_property_TOD s property todName)
            (-1)%Z true skippedCount s
      else if Z.eqb iFirst iTuner then (Done (-1)%Z, s)
      else
        let iFirst1 := if Z.eqb iFirst (-1) then iTuner else iFirst in
        match nth_error (tuningControlSettings s) (Z.to_nat iTuner) with
        | None => (Fail IndexError, s)
        | Some aTuner =>
            let name := ctrlName aTuner in
            let '(aCtrl, iFirst2, ctrlNotFound2, s1) :=
              match setting_control_by_name s name with
              | None =>
                  let s' := create_best_fit_control_setting_by_name name s in
                  (setting_control_by_name s' name, iFirst1, ctrlNotFound, s')
              | Some c =>
                  if existsb (Z.eqb (ctrl_id c)) (tunedControls s)
                  then (None, (-1)%Z, false, s)
                  else (Some c, iFirst1, ctrlNotFound, s)
              end in
            let wrap := Z.leb iCount (iCtrl + 1) in
            let iCtrl2 := if wrap then 0%Z else (iCtrl + 1)%Z in
            let skippedCount2 := if wrap then (skippedCount + 1)%Z
                                 else skippedCount in
            if wrap && Z.ltb (Z.of_nat (List.length tuneProperties)) skippedCount2
            then (Done (-1)%Z, s1)
            else
              let s2 := set_imageTuningControls_at iTuningState
                          (mk_tuning_state property iCtrl2 iCount) s1 in
              match aCtrl with
              | Some _ =>
                  if Z.ltb 1 (rMax aTuner - rMin aTuner)
                  then (Done iTuner, s2)
                  else next_index_loop fuel' property todName iTuningState
                         iCount iCtrl2 iFirst2 ctrlNotFound2 skippedCount2 s2
              | None =>
                  next_index_loop fuel' property todName iTuningState
                    iCount iCtrl2 iFirst2 ctrlNotFound2 skippedCount2 s2
              end
        end
  end.

(** [__next_tuning_control_index_by_property_TOD], called with
    [todName = self.lastTOD]. *)
Definition next_tuning_control_index_by_property_TOD (fuel : nat)
  (property : string) : M Z :=
  fun s0 =>
    let s := switch_TOD_controls s0 in
    let iTuningState := tuning_state_index_by_property s property in
    if Z.eqb iTuningState (-1) then (Done (-1)%Z, s)
    else
      match nth_error (imageTuningControls s) (Z.to_nat iTuningState) with
      | None => (Fail IndexError, s)
      | Some tuningState =>
          next_index_loop fuel property (lastTOD s) iTuningState
            (ts_iCount tuningState) (ts_iCtrl tuningState) (-1)%Z false 0%Z s
      end.

(** *** Tuning one property *)

(** The tuner that the candidate loop settled on: its index [iTune >= 0],
    the setting [aCtrl] of its control and the new value [vCtrl]. *)
Record Selection : Type := mk_selection {
  sel_iTune : Z;
  sel_aCtrl : v4l2_control;
  sel_vCtrl : option Z
}.

(** [vCtrl == lastValue], an integer or [None] against a float. *)
Definition value_equals (vCtrl : option Z) (lastValue : R) : bool :=
  match vCtrl with
  | Some v => Reqb (IZR v) lastValue
  | None => false
  end.

(** The target of a property: the middle of its band. *)
Definition target_value (s : CSDevs) (property : string) : R :=
  let tgtMin := preferred_target_by_property s property false in
  let tgtMax := preferred_target_by_property s property true in
  tgtMin + (tgtMax - tgtMin) / 2.

(** The part of the loop body of [__tune_property_by_nameA] that works on
    the tuner [aTuner] found by the rotation: set the limits of its
    control, decide whether it can move and, if so, compute and limit the
    new value.  [None] when the control cannot be tuned. *)
Definition tune_candidate (property : string) (lastValue : R)
  (aTuner : Tuner) : M (option (v4l2_control * option Z)) :=
  s <- get ;;
  let name := ctrlName aTuner in
  let aCtrl := setting_control_by_name s name in
  modify (set_named_control_limits name (Some (rMin aTuner))
            (Some (rMax aTuner)) (encourageRange aTuner)) ;;;
  let tgtVal := target_value s property in
  match aCtrl with
  | None => fail AttributeError
  | Some aCtrl =>
      canTune <- (fun s1 =>
        let '(b, s2) :=
          can_tune_property name lastValue tgtVal (ctrl_value aCtrl)
            (negativeUse aTuner) (encourageRange aTuner) s1 in
        (Done b, s2)) ;;
      if canTune then
        aVal <- tune_control_value_by_ID (ctrl_id aCtrl) lastValue tgtVal
                  256 (rForce aTuner) (negativeUse aTuner) None None
                  property ;;
        s3 <- get ;;
        vCtrl <- lift (limit_control_value_to_current_range s3 aVal) ;;
        ret (Some (aCtrl, vCtrl))
      else ret None
  end.

(** The [while iTune >= 0] loop of [__tune_property_by_nameA].  It ends
    with no tuner ([None], the source's [iTune = -1]) or with the
    selection made at a [break].  [fuel] bounds its iterations and
    [fuelN] those of the rotation inside. *)
Fixpoint tune_loop (fuel fuelN : nat) (property : string) (lastValue : R)
  (iFirst : Z) : M (option Selection) :=
  match fuel with
  | O => spin
  | S fuel' =>
      iTune <- next_tuning_control_index_by_property_TOD fuelN property ;;
      if Z.eqb iFirst iTune then ret None
      else
        let iFirst' := if Z.ltb iFirst 0 then iTune else iFirst in
        if Z.leb 0 iTune then
          s <- get ;;
          match nth_error (tuningControlSettings s) (Z.to_nat iTune) with
          | None => fail IndexError
          | Some aTuner =>
              c <- tune_candidate property lastValue aTuner ;;
              match c with
              | Some (aCtrl, vCtrl) =>
                  if value_equals vCtrl lastValue
                  then tune_loop fuel' fuelN property lastValue iFirst'
                  else ret (Some (mk_selection iTune aCtrl vCtrl))
              | None => tune_loop fuel' fuelN property lastValue iFirst'
              end
          end
        else ret None
  end.

(** The commit at the end of [__tune_property_by_nameA]: the control is
    noted as tuned and its pending setting replaced.  (The refresh of the
    user interface that follows is not modelled.) *)
Definition commit_selection (sel : Selection) (s : CSDevs) : CSDevs :=
  replace_control_setting_by_ID (ctrl_id (sel_aCtrl sel)) (sel_vCtrl sel)
    (set_tunedControls (tunedControls s ++ [ctrl_id (sel_aCtrl sel)]) s).

(** [__tune_property_by_nameA]; returns the selection it committed. *)
Definition tune_property_by_nameA (fuel fuelN : nat) (property : string)
  : M (option Selection) :=
  modify switch_TOD_controls ;;;
  s <- get ;;
  let lastValue := frame_last_value_by_property s property in
  if Rleb 0 lastValue then
    sel <- (if negb (property_masked s property)
            then tune_loop fuel fuelN property lastValue (-1)%Z
            else ret None) ;;
    match sel with
    | Some c => modify (commit_selection c) ;;; ret (Some c)
    | None => ret None
    end
  else ret None.

(** [__tune_exposure]: one pass over the tracked properties. *)
Definition tune_exposure (fuel fuelN : nat) : M (list (option Selection)) :=
  modify (set_tunedControls []) ;;;
  b <- tune_property_by_nameA fuel fuelN "Brightness" ;;
  c <- tune_property_by_nameA fuel fuelN "Contrast" ;;
  t <- tune_property_by_nameA fuel fuelN "Saturation" ;;
  ret [b; c; t].

(** *** Reading the outcome of a tuning step *)

(** [quiet s s']: from [s] to [s'] the frame data, the camera and the
    list of tuned controls are the same, and the pending settings of [s]
    are still there, unchanged and in place. *)
Definition quiet (s s' : CSDevs) : Prop :=
  frame s' = frame s /\ camera s' = camera s /\
  tunedControls s' = tunedControls s /\
  exists extra, controls s' = controls s ++ extra.

(** The step ended without settling on a tuner. *)
Definition no_selection (r : outcome (option Selection)) : Prop :=
  match r with
  | Done (Some _) => False
  | _ => True
  end.

(** [s'] is [s] with other range limits. *)
Definition only_limits (s s' : CSDevs) : Prop :=
  s' = set_hiLimit (hiLimit s') (set_loLimit (loLimit s') s).

(** [kept s s']: the frame data, the camera with its tuners and the time
    of day in use are the same. *)
Definition kept (s s' : CSDevs) : Prop :=
  frame s' = frame s /\ camera s' = camera s /\ lastTOD s' = lastTOD s.

(** The time of day in use is the current one. *)
Definition tod_current (s : CSDevs) : Prop :=
  lastTOD s = if its_daytime (frame s) then kTuneDay else kTuneNight.

(** The index that the rotation returns is -1 or that of a tuner whose
    range is wider than one step. *)
Definition usable_index (i : Z) (s : CSDevs) : Prop :=
  i = (-1)%Z \/
  exists aTuner,
    nth_error (tuningControlSettings s) (Z.to_nat i) = Some aTuner /\
    (1 < rMax aTuner - rMin aTuner)%Z.

(** *** Smaller helpers of the main window *)

(** [__calcMCD]: Euclid's algorithm with Python's [%], whose result has
    the sign of the divisor. *)
Function calcMCD (a b : Z) {measure Z.abs_nat b} : Z :=
  if Z.eqb b 0 then a else calcMCD b (Z.modulo a b).
Proof.
  intros a b Hb. apply Z.eqb_neq in Hb.
  pose proof (Z.mod_bound_or a b Hb). lia.
Defined.

(** [__bool_setting_text] *)
Definition bool_setting_text (aBool : bool) : string :=
  if aBool then "true" else "false".

(** [__decode_bool_setting_text] *)
Definition decode_bool_setting_text (theText : string) : bool :=
  String.eqb theText "true".

(** [__get_time_bounce] *)
Definition get_time_bounce (fromTimeFrac : R) : R :=
  let tBounce := if Rltb (5 / 10) fromTimeFrac then 1 - fromTimeFrac
                 else fromTimeFrac in
  2 * tBounce.

(** [TWO_MIN_PRIMES] *)
Definition TWO_MIN_PRIMES : list Z :=
  [2; 3; 5; 7; 11; 19; 23; 29; 31; 37; 41; 43; 47; 53; 59; 61;
   67; 71; 73; 79; 83; 89; 97; 101; 103; 107; 109; 113]%Z.

(** [adjust_frame_tick_period]; [capPeriod] is the value of the capture
    period spin box, an [int].  [int(n / 2)] of an [int] [n] is the
    quotient truncated toward zero. *)
Definition adjust_frame_tick_period (capPeriod : Z) (upwards : bool) : Z :=
  let usePeriod := last TWO_MIN_PRIMES 0%Z in
  let maxPeriodTune := last TWO_MIN_PRIMES 0%Z in
  if Z.ltb capPeriod maxPeriodTune && Z.leb capPeriod 120 then
    let diffTune :=
      if upwards then Z.quot (120 - capPeriod) 2
      else (0 - Z.quot (1 - capPeriod) 2)%Z in
    let approxPeriod := (capPeriod + diffTune)%Z in
    fold_left (fun usePeriod aPrime =>
                 if Z.ltb approxPeriod aPrime then aPrime else usePeriod)
      TWO_MIN_PRIMES usePeriod
  else usePeriod.

End CSDevs.

(** ** The capture worker ([csdCapture.py], class [captureThread]) *)

Module captureThread.

(** *** The device and the libraries around the worker *)

(** A buffer as [VIDIOC_DQBUF] returns it; [buf_index] names the slot. *)
Record v4l2_buffer : Type := mk_buffer { buf_index : nat }.

Inductive ioctl_request : Type :=
| VIDIOC_REQBUFS (count : nat)
| VIDIOC_QUERYBUF (index : nat)
| VIDIOC_QBUF (index : nat)
| VIDIOC_DQBUF
| VIDIOC_STREAMON
| VIDIOC_STREAMOFF.

Section Worker.

(** The decoded image of the imaging library and the operations on it
    that the worker calls. *)
Variable Image : Type.

(** What the worker did, in order.  [EvIter], [EvDiscard] and [EvRetain]
    are marks of the frame-selection loop carrying its frame counter; the
    other events are calls that leave the worker.  [EvSetControls] stands
    for the whole batch of [VIDIOC_S_CTRL] writes of [__set_controls];
    [EvSave] carries the image handed to [Image.save]. *)
Inductive event : Type :=
| EvIoctl (r : ioctl_request) (ok : bool)
| EvMmap (id : nat)
| EvClose (id : nat)
| EvSelect (ready : bool)
| EvSetControls (controls : list (Z * Z))
| EvIter (curFrame : Z)
| EvDiscard (curFrame : Z) (index : nat)
| EvRetain (curFrame : Z) (index : nat)
| EvLoad (ok : bool)
| EvSave (img : Image) (ok : bool).

Record Imaging : Type := mk_imaging {
  (** [ImageStat.Stat(img).mean], one entry per band *)
  stat_mean : Image -> list R;
  (** [ImageStat.Stat(img).stddev], one entry per band *)
  stat_stddev : Image -> list R;
  (** [img.convert("HSV")] *)
  convert_HSV : Image -> result Image;
  (** [img.size] *)
  image_size : Image -> Z * Z;
  (** [font.getbbox(text)] of the caption font *)
  font_getbbox : string -> Z * Z * Z * Z;
  (** [ImageDraw.Draw(img).text((x, y), text, (r, g, b), font)] *)
  draw_text : Image -> Z * Z -> string -> Z * Z * Z -> Image
}.

Variable pil : Imaging.

(** The answers of the world outside the worker.  Each call that leaves
    the worker happens at a tick of the worker's clock and is answered by
    the environment for that tick: whether the device is closed, what an
    [ioctl] returns or raises ([VIDIOC_REQBUFS] returns the granted count,
    [VIDIOC_DQBUF] the slot of the filled buffer, [VIDIOC_STREAMON] and
    [VIDIOC_STREAMOFF] their return code), whether [mmap.mmap] raises,
    whether [select] finds the device readable, what [Image.open] decodes
    from the buffer, whether [Image.save] raises, and what [time.strftime]
    prints. *)
Record Env : Type := mk_env {
  dev_closed : nat -> bool;
  ioctl : nat -> ioctl_request -> result nat;
  mmap_raises : nat -> option exn;
  select_ready : nat -> result bool;
  image_open : nat -> result Image;
  save_raises : nat -> option exn;
  strftime_date : string;
  strftime_HM : string;
  strftime_IM : string
}.

Variable env : Env.

(** *** The worker's state *)

(** What the owner sets before the thread starts. *)
Record Request : Type := mk_request {
  capFrame : Z;
  bufCount : nat;
  saveFile : string;
  saveQuality : Z;
  controls : list (Z * Z);
  captionText : string;
  captionDateStamp : bool;
  captionTimeStamp : bool;
  captionTwoFourHour : bool;
  captionLocation : Z;
  captionTextRGB : Z * Z * Z;
  captionInsetX : Z;
  captionInsetY : Z
}.

Record FrameStatistics : Type := mk_stats {
  frameBrightness : R;
  frameContrast : R;
  frameSaturation : R
}.

(** The fields of the object that a capture changes, followed by the
    observation of the world: the clock, the events so far and the number
    of buffers the device holds allocated (the count granted by the last
    [VIDIOC_REQBUFS] that succeeded). *)
Record State : Type := mk_state {
  request : Request;
  capDev : option nat;
  buffers : list nat;
  req : option nat;
  bufToSave : option v4l2_buffer;
  theFrame : option Image;
  stats : FrameStatistics;
  brokenRx : bool;
  clock : nat;
  log : list event;
  hw_buffers : nat
}.

Definition set_capDev (v : option nat) (s : State) : State :=
  mk_state (request s) v (buffers s) (req s) (bufToSave s) (theFrame s)
    (stats s) (brokenRx s) (clock s) (log s) (hw_buffers s).

Definition set_buffers (v : list nat) (s : State) : State :=
  mk_state (request s) (capDev s) v (req s) (bufToSave s) (theFrame s)
    (stats s) (brokenRx s) (clock s) (log s) (hw_buffers s).

Definition set_req (v : option nat) (s : State) : State :=
  mk_state (request s) (capDev s) (buffers s) v (bufToSave s) (theFrame s)
    (stats s) (brokenRx s) (clock s) (log s) (hw_buffers s).

Definition set_bufToSave (v : option v4l2_buffer) (s : State) : State :=
  mk_state (request s) (capDev s) (buffers s) (req s) v (theFrame s)
    (stats s) (brokenRx s) (clock s) (log s) (hw_buffers s).

Definition set_theFrame (v : option Image) (s : State) : State :=
  mk_state (request s) (capDev s) (buffers s) (req s) (bufToSave s) v
    (stats s) (brokenRx s) (clock s) (log s) (hw_buffers s).

Definition set_stats (v : FrameStatistics) (s : State) : State :=
  mk_state (request s) (capDev s) (buffers s) (req s) (bufToSave s)
    (theFrame s) v (brokenRx s) (clock s) (log s) (hw_buffers s).

Definition set_brokenRx (v : bool) (s : State) : State :=
  mk_state (request s) (capDev s) (buffers s) (req s) (bufToSave s)
    (theFrame s) (stats s) v (clock s) (log s) (hw_buffers s).

Definition set_clock (v : nat) (s : State) : State :=
  mk_state (request s) (capDev s) (buffers s) (req s) (bufToSave s)
    (theFrame s) (stats s) (brokenRx s) v (log s) (hw_buffers s).

Definition set_log (v : list event) (s : State) : State :=
  mk_state (request s) (capDev s) (buffers s) (req s) (bufToSave s)
    (theFrame s) (stats s) (brokenRx s) (clock s) v (hw_buffers s).

Definition set_hw_buffers (v : nat) (s : State) : State :=
  mk_state (request s) (capDev s) (buffers s) (req s) (bufToSave s)
    (theFrame s) (stats s) (brokenRx s) (clock s) (log s) v.

(** *** Stateful code that can raise *)

Definition C (A : Type) : Type := State -> result A * State.

Definition ret {A} (a : A) : C A := fun s => (Ok a, s).

Definition bind {A B} (m : C A) (k : A -> C B) : C B :=
  fun s =>
    match m s with
    | (Ok a, s') => k a s'
    | (Raise e, s') => (Raise e, s')
    end.

Definition raise {A} (e : exn) : C A := fun s => (Raise e, s).
Definition get : C State := fun s => (Ok s, s).
Definition modify (f : State -> State) : C unit := fun s => (Ok tt, f s).

(** [try: m except (classes): h] *)
Definition try_except {A} (m : C A) (classes : list exn) (h : exn -> C A)
  : C A :=
  fun s =>
    match m s with
    | (Ok a, s') => (Ok a, s')
    | (Raise e, s') =>
        if existsb (exn_eqb e) classes then h e s' else (Raise e, s')
    end.

(** [try: m except Exception: h]; every exception of the model derives
    from [Exception]. *)
Definition try_except_all {A} (m : C A) (h : exn -> C A) : C A :=
  fun s =>
    match m s with
    | (Ok a, s') => (Ok a, s')
    | (Raise e, s') => h e s'
    end.

Notation "x <- m ;; k" := (bind m (fun x => k))
  (at level 61, m at next level, right associativity).
Notation "m ;;; k" := (bind m (fun _ => k))
  (at level 61, right associativity).

Definition emit (e : event) : C unit :=
  modify (fun s => set_log (log s ++ [e]) s).

(** The tick of a call that leaves the worker. *)
Definition tick : C nat :=
  fun s => (Ok (clock s), set_clock (S (clock s)) s).

(** [self.capDev.closed] *)
Definition closed : C bool :=
  t <- tick ;; ret (dev_closed env t).

(** [ioctl(self.capDev, request, arg)] *)
Definition do_ioctl (r : ioctl_request) : C nat :=
  t <- tick ;;
  match ioctl env t r with
  | Ok n => emit (EvIoctl r true) ;;; ret n
  | Raise e => emit (EvIoctl r false) ;;; raise e
  end.

(** *** Owner interface *)

(** [set_capture_device] *)
Definition set_capture_device (aDev : option nat) (s : State) : State :=
  set_brokenRx (match aDev with Some _ => true | None => false end)
    (set_capDev aDev s).

(** [receive_broken] *)
Definition receive_broken (s : State) : bool := brokenRx s.

(** [save_capture_frame] *)
Definition save_capture_frame (s : State) : bool :=
  negb (String.eqb (saveFile (request s)) "").

(** *** Controls *)

(** [__set_controls]: when the device is open and settings are pending,
    they are written to the device.  The writes of the batch (one
    [VIDIOC_S_CTRL] per setting, auto-focus switched off before a manual
    focus write; a failing write is logged and skipped) are one event. *)
Definition set_controls : C unit :=
  c <- closed ;;
  s <- get ;;
  if negb c && Nat.ltb 0 (List.length (controls (request s)))
  then emit (EvSetControls (controls (request s)))
  else ret tt.

(** *** Buffers *)

(** [__request_capture_buffers] *)
Definition request_capture_buffers (newCount : nat) : C unit :=
  modify (set_req None) ;;;
  try_except
    (c <- closed ;;
     if negb c then
       modify (set_req (Some newCount)) ;;;
       granted <- do_ioctl (VIDIOC_REQBUFS newCount) ;;
       modify (fun s => set_hw_buffers granted (set_req (Some granted) s))
     else raise OSError)
    [OSError]
    (fun _ => modify (set_req None)).

(** [__release_capture_buffers] *)
Definition release_capture_buffers : C unit :=
  request_capture_buffers 0 ;;;
  s <- get ;;
  match req s with
  | Some count => if Nat.eqb count 0 then modify (set_req None) else ret tt
  | None => ret tt
  end.

(** [__close_capture_buffers] *)
Definition close_capture_buffers : C unit :=
  modify (fun s =>
    set_buffers [] (set_log (log s ++ map EvClose (buffers s)) s)).

(** The body of the [for ind in range(self.req.count)] loop of
    [__setup_capture_buffers]: query, map, append, queue. *)
Definition map_and_queue (ind : nat) : C unit :=
  do_ioctl (VIDIOC_QUERYBUF ind) ;;;
  t <- tick ;;
  match mmap_raises env t with
  | Some e => raise e
  | None =>
      emit (EvMmap t) ;;;
      modify (fun s => set_buffers (buffers s ++ [t]) s) ;;;
      do_ioctl (VIDIOC_QBUF ind) ;;;
      ret tt
  end.

Fixpoint map_and_queue_from (ind n : nat) : C unit :=
  match n with
  | O => ret tt
  | S n' => map_and_queue ind ;;; map_and_queue_from (S ind) n'
  end.

(** [__setup_capture_buffers] *)
Definition setup_capture_buffers : C unit :=
  release_capture_buffers ;;;
  s0 <- get ;;
  request_capture_buffers (bufCount (request s0)) ;;;
  s <- get ;;
  match req s with
  | Some count =>
      try_except
        (c <- closed ;;
         if negb c then map_and_queue_from 0 count else raise OSError)
        [TypeError; ValueError]
        (fun _ => close_capture_buffers ;;; modify (set_brokenRx true))
  | None => ret tt
  end.

(** *** Streaming *)

(** [__stream_on] *)
Definition stream_on : C unit :=
  try_except
    (c <- closed ;;
     if negb c then do_ioctl VIDIOC_STREAMON ;;; ret tt else raise OSError)
    [TypeError; OSError]
    (fun _ => modify (set_brokenRx true)).

(** [__stream_off] *)
Definition stream_off : C unit :=
  try_except
    (c <- closed ;;
     if negb c then do_ioctl VIDIOC_STREAMOFF ;;; ret tt else raise OSError)
    [TypeError; OSError]
    (fun _ => ret tt).

(** [__dequeue_capture_frame] *)
Definition dequeue_capture_frame : C (option v4l2_buffer) :=
  try_except
    (c <- closed ;;
     if negb c then
       index <- do_ioctl VIDIOC_DQBUF ;; ret (Some (mk_buffer index))
     else raise OSError)
    [OSError]
    (fun _ => modify (set_brokenRx true) ;;; ret None).

(** [__requeue_frame] *)
Definition requeue_frame (buf : v4l2_buffer) : C unit :=
  try_except
    (c <- closed ;;
     if c then raise OSError
     else
       s <- get ;;
       match nth_error (buffers s) (buf_index buf) with
       | None => raise IndexError
       | Some _ => do_ioctl (VIDIOC_QBUF (buf_index buf)) ;;; ret tt
       end)
    [IndexError; OSError]
    (fun _ => modify (set_brokenRx true)).

(** *** Frame selection *)

(** The frame at which the pending controls are applied. *)
Definition ctrlFrame (capFrame : Z) : Z :=
  if Z.ltb 2 capFrame then (capFrame / 3)%Z else 0%Z.

(** The loop of [__reach_target_frame], entered with [curFrame] and
    [n = capFrame + 1 - curFrame] frames to go.  The answer of [select]
    for the single descriptor waited on is that it is readable or that the
    wait timed out. *)
Fixpoint reach_loop (n : nat) (curFrame : Z) : C Z :=
  match n with
  | O => ret (-3)%Z
  | S n' =>
      c <- closed ;;
      if c then ret (-3)%Z
      else
        s <- get ;;
        emit (EvIter curFrame) ;;;
        (if Z.eqb curFrame (ctrlFrame (capFrame (request s)))
         then set_controls else ret tt) ;;;
        t <- tick ;;
        match select_ready env t with
        | Raise e => raise e
        | Ok ready =>
            emit (EvSelect ready) ;;;
            if ready then
              buf <- dequeue_capture_frame ;;
              match buf with
              | None => ret (-1)%Z
              | Some b =>
                  if negb (Z.eqb curFrame (capFrame (request s))) then
                    emit (EvDiscard curFrame (buf_index b)) ;;;
                    requeue_frame b ;;;
                    reach_loop n' (curFrame + 1)%Z
                  else
                    emit (EvRetain curFrame (buf_index b)) ;;;
                    modify (set_bufToSave (Some b)) ;;;
                    ret 0%Z
              end
            else ret (-2)%Z
        end
  end.

(** [__reach_target_frame] *)
Definition reach_target_frame : C Z :=
  s <- get ;;
  if Z.ltb 0 (capFrame (request s))
  then reach_loop (Z.to_nat (capFrame (request s) + 1)) 0%Z
  else ret (-3)%Z.

(** *** Image, statistics, caption *)

(** [__load_image_from_buffer] *)
Definition load_image_from_buffer (buf : v4l2_buffer) : C unit :=
  try_except
    (s <- get ;;
     match nth_error (buffers s) (buf_index buf) with
     | None => raise IndexError
     | Some _ =>
         t <- tick ;;
         match image_open env t with
         | Ok img => emit (EvLoad true) ;;; modify (set_theFrame (Some img))
         | Raise e => emit (EvLoad false) ;;; raise e
         end
     end)
    [IndexError; OSError; TypeError; UnidentifiedImageError; ValueError]
    (fun _ => modify (set_theFrame None)).

(** [__mean_stat] *)
Definition mean_stat (imgStat : list R) : R :=
  let result := fold_left Rplus imgStat 0%R in
  if Nat.ltb 0 (List.length imgStat)
  then (result / INR (List.length imgStat))%R
  else result.

Definition set_frameBrightness (v : R) (s : State) : State :=
  set_stats (mk_stats v (frameContrast (stats s)) (frameSaturation (stats s)))
    s.

Definition set_frameContrast (v : R) (s : State) : State :=
  set_stats (mk_stats (frameBrightness (stats s)) v
               (frameSaturation (stats s))) s.

Definition set_frameSaturation (v : R) (s : State) : State :=
  set_stats (mk_stats (frameBrightness (stats s)) (frameContrast (stats s)) v)
    s.

(** [__compute_frame_statistics] (the time it returns is not modelled). *)
Definition compute_frame_statistics : C unit :=
  s <- get ;;
  match theFrame s with
  | Some img =>
      try_except
        (match convert_HSV pil img with
         | Raise e => raise e
         | Ok hsvImage =>
             match nth_error (stat_mean pil hsvImage) 2 with
             | None => raise IndexError
             | Some v => modify (set_frameBrightness v)
             end ;;;
             modify (set_frameContrast (mean_stat (stat_stddev pil img))) ;;;
             match nth_error (stat_mean pil hsvImage) 1 with
             | None => raise IndexError
             | Some v => modify (set_frameSaturation v)
             end
         end)
        [FileNotFoundError; IndexError; TypeError; UnidentifiedImageError;
         ValueError]
        (fun _ => ret tt)
  | None => ret tt
  end.

(** [__generate_caption_text] *)
Definition generate_caption_text (q : Request) : string :=
  let padFields := negb (String.eqb (captionText q) "") in
  if padFields || captionDateStamp q || captionTimeStamp q then
    let rec1 := captionText q in
    let '(rec2, pad2) :=
      if captionDateStamp q then
        ((if padFields then rec1 ++ " " else rec1) ++ strftime_date env,
         true)%string
      else (rec1, padFields) in
    if captionTimeStamp q then
      ((if pad2 then rec2 ++ " " else rec2)
       ++ (if captionTwoFourHour q then strftime_HM env
           else strftime_IM env))%string
    else rec2
  else ""%string.

(** [__get_caption_X] *)
Definition get_caption_X (q : Request) (wText wImage : Z) : Z :=
  let hPos := (captionLocation q mod 10)%Z in
  let hDraw :=
    if Z.eqb hPos 2 then (Z.quot (wImage - wText) 2 - 1)%Z
    else if Z.eqb hPos 3 then (wImage - wText - captionInsetX q)%Z
    else captionInsetX q in
  if Z.ltb hDraw 0 || Z.ltb wImage hDraw then 4%Z else hDraw.

(** [__get_caption_Y] *)
Definition get_caption_Y (q : Request) (hText hImage : Z) : Z :=
  let vPos := Z.quot (captionLocation q) 10 in
  let vDraw :=
    if Z.eqb vPos 2 then (Z.quot (hImage - hText) 2 - 1)%Z
    else if Z.eqb vPos 3 then captionInsetY q
    else (hImage - hText - captionInsetY q)%Z in
  if Z.ltb vDraw 0 || Z.ltb hImage vDraw then 4%Z else vDraw.

(** The caption drawn onto the frame, in place. *)
Definition draw_caption (q : Request) (img : Image) (captionRecord : string)
  : Image :=
  let '(x0, y0, x1, y1) := font_getbbox pil captionRecord in
  let '(w, h) := image_size pil img in
  let xPos := get_caption_X q (x1 - x0)%Z w in
  let yPos := get_caption_Y q (y1 - y0)%Z h in
  draw_text pil img (xPos, yPos) captionRecord (captionTextRGB q).

(** [__save_frame]: statistics first, then caption and save when a save
    file is set; the frame is dropped at the end. *)
Definition save_frame : C unit :=
  s <- get ;;
  match theFrame s with
  | Some img =>
      compute_frame_statistics ;;;
      (if save_capture_frame s then
         try_except
           (let captionRecord := generate_caption_text (request s) in
            let img' := if negb (String.eqb captionRecord "")
                        then draw_caption (request s) img captionRecord
                        else img in
            modify (set_theFrame (Some img')) ;;;
            t <- tick ;;
            match save_raises env t with
            | None => emit (EvSave img' true)
            | Some e => emit (EvSave img' false) ;;; raise e
            end)
           [FileNotFoundError; IndexError; OSError; TypeError;
            UnidentifiedImageError; ValueError]
           (fun _ => ret tt)
       else ret tt) ;;;
      modify (set_theFrame None)
  | None => ret tt
  end.

(** *** The capture cycle *)

(** The [try] body of [run]. *)
Definition run_body : C unit :=
  setup_capture_buffers ;;;
  s <- get ;;
  match req s with
  | Some _ =>
      if Nat.ltb 0 (List.length (buffers s)) then
        stream_on ;;;
        r <- reach_target_frame ;;
        (if Z.eqb r 0 then
           s1 <- get ;;
           match bufToSave s1 with
           | Some b =>
               load_image_from_buffer b ;;;
               save_frame ;;;
               requeue_frame b ;;;
               modify (set_bufToSave None) ;;;
               modify (set_brokenRx false)
           | None => ret tt
           end
         else ret tt) ;;;
        stream_off ;;;
        close_capture_buffers ;;;
        release_capture_buffers
      else ret tt
  | None => ret tt
  end.

(** [run], the entry point of the thread (the timing report is not
    modelled). *)
Definition run : C unit :=
  s <- get ;;
  (match capDev s with
   | Some _ =>
       if Z.ltb 0 (capFrame (request s)) then
         try_except_all run_body
           (fun _ => close_capture_buffers ;;; release_capture_buffers)
       else ret tt
   | None => ret tt
   end) ;;;
  modify (set_capDev None).

(** *** Reading the events *)

(** The frame counters at which a buffer was handed back untouched. *)
Fixpoint discarded (l : list event) : list Z :=
  match l with
  | [] => []
  | EvDiscard c _ :: l' => c :: discarded l'
  | _ :: l' => discarded l'
  end.

(** The frame counters at which a buffer was kept as the capture frame. *)
Fixpoint retained (l : list event) : list Z :=
  match l with
  | [] => []
  | EvRetain c _ :: l' => c :: retained l'
  | _ :: l' => retained l'
  end.

(** For every batch of control writes, where the frame-selection loop
    stood: [Some c] when the batch came in the iteration of frame counter
    [c] before that iteration waited for its frame, [None] otherwise.
    [cur] is the standing before the first event. *)
Fixpoint control_frames (cur : option Z) (l : list event)
  : list (option Z) :=
  match l with
  | [] => []
  | EvIter c :: l' => control_frames (Some c) l'
  | EvSelect _ :: l' => control_frames None l'
  | EvSetControls _ :: l' => cur :: control_frames cur l'
  | _ :: l' => control_frames cur l'
  end.

(** The buffers mapped and not closed afterwards. *)
Fixpoint still_mapped (l : list event) : list nat :=
  match l with
  | [] => []
  | EvMmap id :: l' =>
      if existsb (fun e => match e with
                           | EvClose id' => Nat.eqb id id'
                           | _ => false
                           end) l'
      then still_mapped l' else id :: still_mapped l'
  | _ :: l' => still_mapped l'
  end.

(** The outcomes of the attempts to decode the retained buffer. *)
Fixpoint loads (l : list event) : list bool :=
  match l with
  | [] => []
  | EvLoad ok :: l' => ok :: loads l'
  | _ :: l' => loads l'
  end.

(** The calls that leave the worker, as opposed to the marks of the
    frame-selection loop and the control writes. *)
Definition device_event (e : event) : bool :=
  match e with
  | EvIoctl _ _ | EvMmap _ | EvClose _ | EvLoad _ | EvSave _ _ => true
  | _ => false
  end.

(** [m] extends the log only by calls that leave the worker and leaves
    the request alone; with [keep] it also leaves a raised broken flag
    raised. *)
Definition device_only {A} (keep : bool) (m : C A) : Prop :=
  forall s, exists l,
    log (snd (m s)) = log s ++ l /\ forallb device_event l = true /\
    request (snd (m s)) = request s /\
    (keep = true -> brokenRx s = true -> brokenRx (snd (m s)) = true).

End Worker.

(** *** Owner interface: the settings handed over before the thread starts *)

Definition set_bufCount (v : nat) (q : Request) : Request :=
  mk_request (capFrame q) v (saveFile q) (saveQuality q) (controls q)
    (captionText q) (captionDateStamp q) (captionTimeStamp q)
    (captionTwoFourHour q) (captionLocation q) (captionTextRGB q)
    (captionInsetX q) (captionInsetY q).

Definition set_request_controls (v : list (Z * Z)) (q : Request) : Request :=
  mk_request (capFrame q) (bufCount q) (saveFile q) (saveQuality q) v
    (captionText q) (captionDateStamp q) (captionTimeStamp q)
    (captionTwoFourHour q) (captionLocation q) (captionTextRGB q)
    (captionInsetX q) (captionInsetY q).

(** The class attributes [defaultBufCount] and [limBufCount]. *)
Definition defaultBufCount : nat := 16.
Definition limBufCount : Z := 512.

(** [set_capture_buffer_count] *)
Definition set_capture_buffer_count (newCount : Z) (q : Request) : Request :=
  if Z.ltb 0 newCount && Z.leb newCount limBufCount
  then set_bufCount (Z.to_nat newCount) q
  else set_bufCount defaultBufCount q.

(** [__find_camera_control_setting_by_ID] *)
Definition find_camera_control_setting_by_ID (q : Request) (ctrlID : Z)
  : option (Z * Z) :=
  find (fun c => Z.eqb (fst c) ctrlID) (controls q).

(** [self.controls.remove(aCtrl)] for the object that the search found:
    drops the first setting of that ID. *)
Fixpoint remove_first_setting (ctrlID : Z) (l : list (Z * Z))
  : list (Z * Z) :=
  match l with
  | [] => []
  | x :: l' =>
      if Z.eqb (fst x) ctrlID then l'
      else x :: remove_first_setting ctrlID l'
  end.

(** [add_control_setting_by_ID]: a value that is not an integer ([None])
    raises [TypeError] inside, which is caught and only logged. *)
Definition add_control_setting_by_ID (ctrlID : Z) (value : option Z)
  (q : Request) : Request :=
  match value with
  | Some v => set_request_controls (controls q ++ [(ctrlID, v)]) q
  | None => q
  end.

(** [remove_control_setting_by_ID] *)
Definition remove_control_setting_by_ID (ctrlID : Z) (q : Request)
  : Request :=
  match find_camera_control_setting_by_ID q ctrlID with
  | Some aCtrl =>
      set_request_controls (remove_first_setting (fst aCtrl) (controls q)) q
  | None => q
  end.

(** [replace_control_setting_by_ID] *)
Definition replace_control_setting_by_ID (ctrlID : Z) (newValue : option Z)
  (q : Request) : Request :=
  add_control_setting_by_ID ctrlID newValue
    (remove_control_setting_by_ID ctrlID q).

(** *** What a piece of the worker leaves alone *)

Section Invariants.

Variable Image : Type.

(** The events that map or unmap a buffer. *)
Definition mapping_event (e : event Image) : bool :=
  match e with
  | EvMmap _ _ | EvClose _ _ => true
  | _ => false
  end.

(** The events of the frame-selection loop that follow a wait. *)
Definition frame_event (e : event Image) : bool :=
  match e with
  | EvSelect _ _ | EvDiscard _ _ _ | EvRetain _ _ _ => true
  | _ => false
  end.

(** The number of waits for the device. *)
Fixpoint waits (l : list (event Image)) : nat :=
  match l with
  | [] => 0
  | EvSelect _ _ :: l' => S (waits l')
  | _ :: l' => waits l'
  end.

(** The buffers mapped, in the order of the calls. *)
Fixpoint mapped (l : list (event Image)) : list nat :=
  match l with
  | [] => []
  | EvMmap _ id :: l' => id :: mapped l'
  | _ :: l' => mapped l'
  end.

(** The buffer slots handed to the device by a [VIDIOC_QBUF] that
    succeeded, in the order of the calls. *)
Fixpoint queued (l : list (event Image)) : list nat :=
  match l with
  | [] => []
  | EvIoctl _ (VIDIOC_QBUF i) true :: l' => i :: queued l'
  | _ :: l' => queued l'
  end.

(** [s1] is [s] with the events [l] added, the same request, broken flag
    and device. *)
Definition grown (s s1 : State Image) (l : list (event Image)) : Prop :=
  log s1 = log s ++ l /\ request s1 = request s /\
  brokenRx s1 = brokenRx s /\ capDev s1 = capDev s.

(** Whatever state [m] starts from, the state it ends in, by return or by
    exception, is related to it by [R]. *)
Definition preserves {A} (R : State Image -> State Image -> Prop)
  (m : C Image A) : Prop :=
  forall s, R s (snd (m s)).

(** The relations that pass through a sequence of steps. *)
Class Steady (R : State Image -> State Image -> Prop) : Prop := {
  steady_refl : forall s, R s s;
  steady_trans : forall s1 s2 s3, R s1 s2 -> R s2 s3 -> R s1 s3
}.

(** The buffer list is the same and nothing was mapped or unmapped. *)
Definition same_buffers (s s' : State Image) : Prop :=
  buffers s' = buffers s /\
  exists l, log s' = log s ++ l /\
            forallb (fun e => negb (mapping_event e)) l = true.

(** The answer of the last buffer request is the same. *)
Definition same_req (s s' : State Image) : Prop := req s' = req s.

(** The retained buffer and the request are the same and the events added
    are none of the frame-selection loop's. *)
Definition between_frames (s s' : State Image) : Prop :=
  bufToSave s' = bufToSave s /\ request s' = request s /\
  exists l, log s' = log s ++ l /\
            forallb (fun e => negb (frame_event e)) l = true.

(** Every buffer that is still mapped is in the worker's buffer list. *)
Definition tidy (s : State Image) : Prop :=
  forall id, In id (still_mapped (log s)) -> In id (buffers s).

Definition stays_tidy (s s' : State Image) : Prop := tidy s -> tidy s'.

(** No buffer in the list and none still mapped. *)
Definition clean (s : State Image) : Prop :=
  buffers s = [] /\ still_mapped (log s) = [].

End Invariants.

Arguments steady_refl {Image R Steady} s.
Arguments steady_trans {Image R Steady} s1 s2 s3 _ _.

End captureThread.

(** ** The hand-over from the main window to the worker *)

Module CSDevsFrameTick.

Import captureThread.

(** The block [if len(self.controls) > 0: ...] of [CSDevs.frame_tick]
    that hands the pending settings to the new capture thread, whose
    [controls] list is the class attribute that all capture threads
    share.  [aCam4] and [aCam5] are the manual-focus and auto-focus control
    IDs of the current camera. *)
Definition frame_tick_controls (pending : list CSDevs.v4l2_control)
  (aCam4 aCam5 : option Z) (camAF : bool) (camFocus : option Z)
  (q : Request) : Request :=
  if Nat.ltb 0 (List.length pending) then
    let q1 :=
      fold_left
        (fun q aCtrl =>
           replace_control_setting_by_ID (CSDevs.ctrl_id aCtrl)
             (Some (CSDevs.ctrl_value aCtrl)) q)
        pending q in
    let q2 :=
      match aCam5 with
      | Some id =>
          replace_control_setting_by_ID id
            (Some (if camAF then 1 else 0)%Z) q1
      | None => q1
      end in
    match aCam4, camFocus with
    | Some id, Some f => replace_control_setting_by_ID id (Some f) q2
    | _, _ => q2
    end
  else q.

End CSDevsFrameTick.

(** ** Sample inputs *)

Module Samples.

Import CSDevs.
Local Open Scope R_scope.

(** Daytime, no night targets: the last frame values and the three
    target bands. *)
Definition day_frame (lBright lCont lSat bMin bMax cMin cMax sMin sMax : R)
  : FrameInfo :=
  mk_frame_info true lBright lCont lSat bMax cMax sMax bMin cMin sMin
    (-1) (-1) (-1) (-1) (-1) (-1).

(** A camera with one integer control, "Gain", of range 0..100. *)
Definition gain : v4l2_queryctrl :=
  mk_queryctrl 1 V4L2_CTRL_TYPE_INTEGER "Gain" 0 100 1 50.

Definition gain_camera (tuners : list Tuner) : Camera :=
  mk_camera [gain] (fun id => if Z.eqb id 1 then Some gain else None)
    tuners [] (fun _ => 1 / 8) (fun _ => 1%Z).

Definition day_state (f : FrameInfo) (tuners : list Tuner)
  (pending : list v4l2_control) : CSDevs :=
  mk_csdevs f (gain_camera tuners) "Day" 0 16777214 None None []
    [mk_tuning_state "Brightness" 0 1; mk_tuning_state "Contrast" 0 1;
     mk_tuning_state "Saturation" 0 1] [] pending 0.

(** Brightness 80 against the band 100..140. *)
Definition dim_state : CSDevs :=
  day_state (day_frame 80 49 40 100 140 49 49 40 40) [] [].

(** Brightness exactly at the middle of the band 100..140, one tuner. *)
Definition on_target_state : CSDevs :=
  day_state (day_frame 120 49 40 100 140 49 49 40 40)
    [mk_tuner "Brightness" "Gain" 0 0 100 false true]
    [mk_control 1 50].

(** Two tuners share "Gain": brightness may use 0..50, contrast 0..100.
    The control stands at 80 and brightness 129 is below the band
    170..190. *)
Definition gain_brightness_tuner : Tuner :=
  mk_tuner "Brightness" "Gain" 0 0 50 false true.

Definition shared_gain_state : CSDevs :=
  day_state (day_frame 129 49 40 170 190 49 49 40 40)
    [gain_brightness_tuner; mk_tuner "Contrast" "Gain" 0 0 100 false true]
    [mk_control 1 80].

(** [shared_gain_state] after the tuning of Brightness. *)
Definition tuned_gain_state : CSDevs :=
  commit_selection (mk_selection 0 (mk_control 1 80) (Some 92%Z))
    (set_random_pos 1
       (set_hiLimit 100
          (set_named_control_limits "Gain" (Some 0%Z) (Some 50%Z) true
             shared_gain_state))).

End Samples.

Module CaptureSamples.

Import captureThread.

(** A toy image: [false] as decoded, [true] once a caption is drawn on
    it; the two have different statistics. *)
Definition toy_pil : Imaging bool :=
  @mk_imaging bool
    (fun img => if img then [1; 2; 3]%R else [10; 20; 30]%R)
    (fun img => if img then [4; 4; 4]%R else [3; 6; 9]%R)
    (fun img => Ok img)
    (fun _ => (640, 480)%Z)
    (fun _ => (0, 0, 100, 12)%Z)
    (fun _ _ _ _ => true).

(** A device that stays open and answers every call: it grants the
    buffer count asked for and fills slot 0. *)
Definition ready_env : Env bool :=
  @mk_env bool (fun _ => false)
    (fun _ r => match r with
                | VIDIOC_REQBUFS n => Ok n
                | _ => Ok 0%nat
                end)
    (fun _ => None) (fun _ => Ok true) (fun _ => Ok false) (fun _ => None)
    "04 November 2026" "16:30" "04:30".

(** The same device, except that mapping the second buffer (the call at
    tick 9 of a cycle started at tick 0) raises [ValueError]. *)
Definition mmap_failing_env : Env bool :=
  @mk_env bool (dev_closed ready_env) (ioctl ready_env)
    (fun t => if Nat.eqb t 9 then Some ValueError else None)
    (select_ready ready_env) (image_open ready_env) (save_raises ready_env)
    (strftime_date ready_env) (strftime_HM ready_env)
    (strftime_IM ready_env).

(** The same device, except that no buffer decodes as an image. *)
Definition undecodable_env : Env bool :=
  @mk_env bool (dev_closed ready_env) (ioctl ready_env)
    (mmap_raises ready_env) (select_ready ready_env)
    (fun _ => Raise UnidentifiedImageError) (save_raises ready_env)
    (strftime_date ready_env) (strftime_HM ready_env)
    (strftime_IM ready_env).

Definition sample_request (capFrame : Z) : Request :=
  mk_request capFrame 2 "frame.jpg" 90 [(1, 92)%Z] "Cam" false false false
    11 (240, 240, 240)%Z 10 6.

(** A worker before [set_capture_device]. *)
Definition idle_worker (capFrame : Z) : State bool :=
  @mk_state bool (sample_request capFrame) None [] None None None
    (mk_stats 0 0 0) true 0 [] 0.

(** A worker that was just given the device 3. *)
Definition fresh_worker (capFrame : Z) : State bool :=
  set_capture_device (Some 3%nat) (idle_worker capFrame).

(** The same worker with two buffers mapped and the stream on. *)
Definition streaming_worker (capFrame : Z) : State bool :=
  @mk_state bool (sample_request capFrame) (Some 3%nat) [100; 101]%nat
    (Some 2%nat) None None (mk_stats 0 0 0) true 0 [] 2.

(** A worker holding a decoded frame. *)
Definition loaded_worker : State bool :=
  set_theFrame (Some false) (streaming_worker 5).

End CaptureSamples.

(** * Properties *)

(** ** Comparisons and numeric primitives *)

Lemma Rltb_true a b : Rltb a b = true <-> (a < b)%R.
Proof. unfold Rltb; destruct (Rlt_dec a b); split; auto; discriminate. Qed.

Lemma Rltb_false a b : Rltb a b = false <-> (b <= a)%R.
Proof.
  unfold Rltb; destruct (Rlt_dec a b); split; auto; try discriminate;
    intros; lra.
Qed.

Lemma Rleb_true a b : Rleb a b = true <-> (a <= b)%R.
Proof. unfold Rleb; destruct (Rle_dec a b); split; auto; discriminate. Qed.

Lemma Rleb_false a b : Rleb a b = false <-> (b < a)%R.
Proof.
  unfold Rleb; destruct (Rle_dec a b); split; auto; try discriminate;
    intros; lra.
Qed.

Lemma Reqb_true a b : Reqb a b = true <-> a = b.
Proof. unfold Reqb; destruct (Req_dec_T a b); split; auto; discriminate. Qed.

Lemma Reqb_false a b : Reqb a b = false <-> a <> b.
Proof.
  unfold Reqb; destruct (Req_dec_T a b); split; auto; try discriminate;
    intros; contradiction.
Qed.

(** Decide the real comparisons of the goal, closing the impossible
    branches by linear arithmetic. *)
Ltac rdec :=
  repeat match goal with
    | |- context [Rlt_dec ?a ?b] => destruct (Rlt_dec a b); try lra
    | |- context [Rle_dec ?a ?b] => destruct (Rle_dec a b); try lra
    | |- context [Req_dec_T ?a ?b] => destruct (Req_dec_T a b); try lra
    end.

Ltac rbool := unfold Rltb, Rleb, Reqb in *; rdec.

Section PyFacts.

Local Open Scope R_scope.

Lemma int_IZR z : Py.int (IZR z) = z.
Proof.
  unfold Py.int. destruct (Rle_dec 0 (IZR z)).
  - apply ZfloorZ.
  - unfold Zceil. rewrite <- opp_IZR, ZfloorZ. lia.
Qed.

Lemma int_floor x z : 0 <= x -> IZR z <= x < IZR z + 1 -> Py.int x = z.
Proof.
  intros H0 H. unfold Py.int. destruct (Rle_dec 0 x); [|lra].
  now apply Zfloor_eq.
Qed.

Lemma pow_0 p : p <> 0 -> Py.pow 0 p = 0.
Proof. intros. unfold Py.pow. rdec. Qed.

Lemma pow_1 p : Py.pow 1 p = 1.
Proof.
  unfold Py.pow. rdec. unfold Rpower. rewrite ln_1, Rmult_0_r. apply exp_0.
Qed.

Lemma pow_nonneg x p : 0 <= x -> 0 <= Py.pow x p.
Proof. intros. unfold Py.pow. rdec. left. apply exp_pos. Qed.

Lemma pow_pos x p : 0 < x -> 0 < Py.pow x p.
Proof. intros. unfold Py.pow. rdec. apply exp_pos. Qed.

(** The damping power is monotone in its base. *)
Lemma pow_le x y p : 0 < p -> 0 <= x <= y -> Py.pow x p <= Py.pow y p.
Proof.
  intros Hp [Hx Hxy]. unfold Py.pow. rdec.
  - left. apply exp_pos.
  - apply Rle_Rpower_l; lra.
Qed.

Lemma ln_le_0 x : 0 < x <= 1 -> ln x <= 0.
Proof.
  intros [Hx [Hlt|Heq]].
  - rewrite <- ln_1. left. now apply ln_increasing.
  - subst. rewrite ln_1. lra.
Qed.

(** On a base in (0,1] a larger exponent gives a smaller power. *)
Lemma Rpower_antitone x p q : 0 < x <= 1 -> p <= q -> Rpower x q <= Rpower x p.
Proof.
  intros Hx Hpq. unfold Rpower. pose proof (ln_le_0 Hx) as Hln.
  destruct (Req_dec_T (q * ln x) (p * ln x)) as [->|Hne]; [lra|].
  left. apply exp_increasing. nra.
Qed.

Lemma pow_upper x p : 0 < x <= 1 -> 1 <= p -> Py.pow x p <= x.
Proof.
  intros Hx Hp. unfold Py.pow. rdec.
  rewrite <- (Rpower_1 x) at 2 by lra. now apply Rpower_antitone.
Qed.

Lemma pow_lower x p : 0 < x <= 1 -> p <= 2 -> x * x <= Py.pow x p.
Proof.
  intros Hx Hp. unfold Py.pow. rdec.
  replace (x * x) with (Rpower x 2).
  - now apply Rpower_antitone.
  - replace 2 with (1 + 1) by lra.
    rewrite Rpower_plus, Rpower_1 by lra. reflexivity.
Qed.

(** A sharper lower bound for an exponent up to 5/4: [x * r] whenever
    [r ^ 4 <= x]. *)
Lemma pow_lower_quarter x r p :
  0 < r -> r * r * r * r <= x -> x <= 1 -> p <= 5 / 4 ->
  x * r <= Py.pow x p.
Proof.
  intros Hr Hrx Hx1 Hp.
  assert (Hr2 : 0 < r * r) by (apply Rmult_lt_0_compat; assumption).
  assert (Hr3 : 0 < r * r * r) by (apply Rmult_lt_0_compat; assumption).
  assert (Hr4 : 0 < r * r * r * r) by (apply Rmult_lt_0_compat; assumption).
  assert (Hx : 0 < x) by lra.
  unfold Py.pow. rdec.
  apply Rle_trans with (Rpower x (5 / 4)).
  - replace (5 / 4) with (1 + 1 / 4) by lra.
    rewrite Rpower_plus, Rpower_1 by lra.
    apply Rmult_le_compat_l; [lra|].
    assert (Hq : r = Rpower (r * r * r * r) (1 / 4)).
    { unfold Rpower. rewrite !ln_mult by nra.
      replace (1 / 4 * (ln r + ln r + ln r + ln r)) with (ln r) by lra.
      now rewrite exp_ln. }
    rewrite Hq at 1. apply Rle_Rpower_l; [lra|]. split; [nra|lra].
  - apply Rpower_antitone; lra.
Qed.

Lemma pow_le_1 x p : 0 < p -> 0 <= x <= 1 -> Py.pow x p <= 1.
Proof.
  intros Hp Hx. rewrite <- (pow_1 p). now apply pow_le.
Qed.

End PyFacts.

(** ** The delta law *)

Section DeltaLaw.

Import CSDevs.
Local Open Scope R_scope.

Lemma is_frac_true x : is_frac x = true <-> 0 <= x <= 1.
Proof. unfold is_frac. rewrite andb_true_iff, !Rleb_true. tauto. Qed.

Lemma is_frac_false x : is_frac x = false <-> (x < 0 \/ 1 < x).
Proof. unfold is_frac. rewrite andb_false_iff, !Rleb_false. tauto. Qed.

(** On a frame value at or below the target the law adds the damped
    delta, or half the distance to 1 when that would pass 1. *)
Lemma compute_applied_delta_up frm tgt ctrl p :
  0 <= frm <= 1 -> 0 <= tgt <= 1 -> 0 <= ctrl <= 1 -> frm <= tgt ->
  compute_applied_delta frm tgt ctrl p =
  Ok (if Rltb 1 (ctrl + Py.pow (tgt - frm) p)
      then (1 - ctrl) / 2 else Py.pow (tgt - frm) p).
Proof.
  intros Hf Ht Hc Hle. unfold compute_applied_delta.
  rewrite (proj2 (is_frac_true frm)), (proj2 (is_frac_true tgt)),
    (proj2 (is_frac_true ctrl)) by assumption. cbn [andb].
  rewrite (proj2 (Rleb_true 0 (tgt - frm))) by lra.
  rewrite (Rabs_right (tgt - frm)) by lra. rewrite Rmult_1_l.
  pose proof (pow_nonneg p (x := tgt - frm) ltac:(lra)) as Hpow.
  rewrite Rabs_right by lra.
  destruct (Rltb 1 (ctrl + Py.pow (tgt - frm) p)) eqn:E.
  - apply Rltb_true in E.
    rewrite (proj2 (is_frac_false _)) by (right; lra). reflexivity.
  - apply Rltb_false in E.
    rewrite (proj2 (is_frac_true _)) by lra. reflexivity.
Qed.

(** On a frame value above the target the guard on [abs(newCtrlFrac)]
    never fires: the damped delta is returned as it is, also when it
    takes the control fraction below 0. *)
Lemma compute_applied_delta_down frm tgt ctrl p :
  0 <= frm <= 1 -> 0 <= tgt <= 1 -> 0 <= ctrl <= 1 -> tgt < frm -> 0 < p ->
  compute_applied_delta frm tgt ctrl p = Ok (- Py.pow (frm - tgt) p).
Proof.
  intros Hf Ht Hc Hlt Hp. unfold compute_applied_delta.
  rewrite (proj2 (is_frac_true frm)), (proj2 (is_frac_true tgt)),
    (proj2 (is_frac_true ctrl)) by assumption. cbn [andb].
  rewrite (proj2 (Rleb_false 0 (tgt - frm))) by lra.
  rewrite (Rabs_left (tgt - frm)) by lra.
  replace (- (tgt - frm)) with (frm - tgt) by lra.
  pose proof (pow_nonneg p (x := frm - tgt) ltac:(lra)) as Hpow.
  pose proof (@pow_le_1 (frm - tgt) p Hp ltac:(lra)) as Hup.
  replace (-1 * Py.pow (frm - tgt) p) with (- Py.pow (frm - tgt) p) by lra.
  assert (Hab : 0 <= Rabs (ctrl + - Py.pow (frm - tgt) p) <= 1).
  { split; [apply Rabs_pos|]. apply Rabs_le. lra. }
  rewrite (proj2 (is_frac_true _)) by exact Hab. reflexivity.
Qed.

Lemma value_as_fraction_in_range v mn mx :
  mn < mx -> mn <= v <= mx ->
  value_as_fraction_or_end v mn mx = Ok ((v - mn) / (mx - mn)).
Proof.
  intros Hlt Hv. unfold value_as_fraction_or_end, property_value_as_fraction,
    property_range, property_zero_base.
  rewrite (proj2 (Rltb_false mx mn)) by lra.
  rewrite (proj2 (Reqb_false (mx - mn) 0)) by lra.
  rewrite (proj2 (Rltb_false mx v)) by lra.
  rewrite (proj2 (Rltb_false v mn)) by lra.
  reflexivity.
Qed.

Lemma fraction_as_value_in_range f mn mx :
  mn <= mx -> 0 <= f <= 1 ->
  fraction_as_value_or_end f mn mx = Ok (f * (mx - mn) + mn).
Proof.
  intros Hlt Hv. unfold fraction_as_value_or_end, property_fraction_as_value,
    property_range, property_zero_base.
  rewrite (proj2 (Rltb_false f 0)) by lra.
  rewrite (proj2 (Rltb_false 1 f)) by lra.
  rewrite (proj2 (Rltb_false mx mn)) by lra.
  reflexivity.
Qed.

(** A fraction below 0 makes the caller fall on the low end of the
    range. *)
Lemma fraction_as_value_below f mn mx :
  f < 0 -> fraction_as_value_or_end f mn mx = Ok mn.
Proof.
  intros Hf. unfold fraction_as_value_or_end, property_fraction_as_value.
  rewrite (proj2 (Rltb_true f 0)) by lra. reflexivity.
Qed.

(** C2 (the code departs from the claim): frame fraction 3/4, target
    fraction 1/4, control fraction 1/5, daytime power 1.05.  Adding the
    damped delta leaves [0,1] below 0, yet the law returns the damped
    delta itself (at most -1/4) and not minus half the distance to 0
    (-1/10); the caller then puts the control on the low end of its
    range. *)
Theorem compute_applied_delta_lower_bound_not_halved :
  exists d,
    compute_applied_delta (3 / 4) (1 / 4) (1 / 5) (105 / 100) = Ok d /\
    1 / 5 + d < 0 /\
    d <= - (1 / 4) /\
    d <> - ((1 / 5) / 2) /\
    fraction_as_value_or_end (1 / 5 + d) 0 100 = Ok 0.
Proof.
  exists (- Py.pow (3 / 4 - 1 / 4) (105 / 100)).
  assert (H : 1 / 4 <= Py.pow (3 / 4 - 1 / 4) (105 / 100)).
  { replace (3 / 4 - 1 / 4) with (1 / 2) by lra.
    apply Rle_trans with (1 / 2 * (1 / 2)); [lra|].
    apply pow_lower; lra. }
  split; [apply compute_applied_delta_down; lra|].
  repeat split; try lra.
  apply fraction_as_value_below. lra.
Qed.



Lemma ctrl_delta_limit_100 : ctrl_delta_limit 0 100 (1 / 8) 1 = 12%Z.
Proof.
  unfold ctrl_delta_limit.
  rewrite (proj2 (Reqb_false 0 100)) by lra.
  rewrite (proj2 (Rltb_true 0 100)) by lra.
  rewrite (proj2 (Rltb_true 15 (100 - 0))) by lra.
  rewrite (proj2 (Rleb_true (100 - 0) 100)) by lra.
  apply int_floor; simpl; lra.
Qed.

(** A control with range 0..100 standing at 80, target 180, random cap
    [int(100 * 0.125) = 12], daytime power 1.05: from frame value 129 the
    control goes to 92. *)
Lemma tune_integer_control_from_129 aCtrl qCtrl :
  ctrl_value aCtrl = 80%Z -> qc_minimum qCtrl = 0%Z ->
  qc_maximum qCtrl = 100%Z ->
  tune_integer_control aCtrl qCtrl
    129 180 256 false None None (105 / 100) (1 / 8) 1 = Ok 92%Z.
Proof.
  intros Hv Hmin Hmax. unfold tune_integer_control.
  rewrite !value_as_fraction_in_range by lra. cbn [rbind].
  rewrite Hv, Hmin, Hmax.
  rewrite value_as_fraction_in_range by lra. cbn [rbind].
  rewrite compute_applied_delta_up
    by (try split; try apply Rmult_le_pos; lra).
  cbn [rbind].
  rewrite ctrl_delta_limit_100.
  set (E := Py.pow ((180 - 1) / (256 - 1) - (129 - 1) / (256 - 1))
              (105 / 100)).
  assert (HE : 13 / 100 <= E <= 1 / 5).
  { unfold E. replace ((180 - 1) / (256 - 1) - (129 - 1) / (256 - 1))
      with (1 / 5) by lra. split.
    - apply Rle_trans with (1 / 5 * (66 / 100)); [lra|].
      apply pow_lower_quarter; lra.
    - apply pow_upper; lra. }
  replace ((80 - 0) / (100 - 0)) with (8 / 10) by lra.
  rewrite (proj2 (Rltb_false 1 (8 / 10 + E))) by lra.
  unfold min_ctrl_delta.
  rewrite (proj2 (Reqb_false 0 100)) by lra.
  rewrite (proj2 (Rltb_true 0 100)) by lra.
  rewrite (proj2 (Rleb_false _ _)).
  2:{ rewrite Rabs_right; lra. }
  rewrite (proj2 (Reqb_false _ 0)) by lra.
  cbn [negb]. rewrite fraction_as_value_in_range by lra. cbn [rbind].
  unfold limit_delta.
  rewrite (proj2 (Rltb_true (IZR 12) _)).
  2:{ rewrite Rabs_right; simpl; lra. }
  rewrite (proj2 (Rleb_true (IZR 80) _)) by (simpl; lra).
  unfold nudge. rewrite int_IZR.
  replace (80 + 12 =? 80)%Z with false by reflexivity.
  unfold limit_property_value_to_range.
  rewrite (proj2 (Rltb_false _ 0)) by (simpl; lra).
  rewrite (proj2 (Rltb_false 100 _)) by (simpl; lra).
  rewrite int_IZR. reflexivity.
Qed.

(** The same control, target, cap and power: from frame value 27 the
    control goes to 90. *)
Lemma tune_integer_control_from_27 aCtrl qCtrl :
  ctrl_value aCtrl = 80%Z -> qc_minimum qCtrl = 0%Z ->
  qc_maximum qCtrl = 100%Z ->
  tune_integer_control aCtrl qCtrl
    27 180 256 false None None (105 / 100) (1 / 8) 1 = Ok 90%Z.
Proof.
  intros Hv Hmin Hmax. unfold tune_integer_control.
  rewrite !value_as_fraction_in_range by lra. cbn [rbind].
  rewrite Hv, Hmin, Hmax.
  rewrite value_as_fraction_in_range by lra. cbn [rbind].
  rewrite compute_applied_delta_up
    by (try split; try apply Rmult_le_pos; lra).
  cbn [rbind].
  rewrite ctrl_delta_limit_100.
  set (E := Py.pow ((180 - 1) / (256 - 1) - (27 - 1) / (256 - 1))
              (105 / 100)).
  assert (HE : 36 / 100 <= E).
  { unfold E. replace ((180 - 1) / (256 - 1) - (27 - 1) / (256 - 1))
      with (6 / 10) by lra.
    apply Rle_trans with (6 / 10 * (6 / 10)); [lra|].
    apply pow_lower; lra. }
  replace ((80 - 0) / (100 - 0)) with (8 / 10) by lra.
  rewrite (proj2 (Rltb_true 1 (8 / 10 + E))) by lra.
  unfold min_ctrl_delta.
  rewrite (proj2 (Reqb_false 0 100)) by lra.
  rewrite (proj2 (Rltb_true 0 100)) by lra.
  rewrite (proj2 (Rleb_false _ _)).
  2:{ rewrite Rabs_right; lra. }
  rewrite (proj2 (Reqb_false _ 0)) by lra.
  cbn [negb]. rewrite fraction_as_value_in_range by lra. cbn [rbind].
  unfold limit_delta.
  rewrite (proj2 (Rltb_false (IZR 12) _)).
  2:{ rewrite Rabs_right; simpl; lra. }
  unfold nudge.
  replace ((8 / 10 + (1 - 8 / 10) / 2) * (100 - 0) + 0) with (IZR 90)
    by (simpl; lra).
  rewrite int_IZR.
  replace (90 =? 80)%Z with false by reflexivity.
  unfold limit_property_value_to_range.
  rewrite (proj2 (Rltb_false _ 0)) by (simpl; lra).
  rewrite (proj2 (Rltb_false 100 _)) by (simpl; lra).
  rewrite int_IZR. reflexivity.
Qed.


End DeltaLaw.

(** ** Masking *)

Section Masking.

Import CSDevs.
Local Open Scope R_scope.

Lemma preferred_target_switch s property b :
  preferred_target_by_property (switch_TOD_controls s) property b =
  preferred_target_by_property s property b.
Proof. unfold switch_TOD_controls. destruct (negb _); reflexivity. Qed.

Lemma property_masked_switch s property :
  property_masked (switch_TOD_controls s) property =
  property_masked s property.
Proof. unfold switch_TOD_controls. destruct (negb _); reflexivity. Qed.

Lemma frame_last_value_switch s property :
  frame_last_value_by_property (switch_TOD_controls s) property =
  frame_last_value_by_property s property.
Proof. unfold switch_TOD_controls. destruct (negb _); reflexivity. Qed.

(** The test that [__property_masked] makes on one property. *)
Lemma far_test l mn mx :
  (Rltb l mn || Rltb mx l)
  && Rltb ((mn + (mx - mn) / 2) / 2) (Rabs (mn + (mx - mn) / 2 - l)) = true
  <->
  (l < mn \/ mx < l) /\
  (mn + (mx - mn) / 2) / 2 < Rabs (mn + (mx - mn) / 2 - l).
Proof. rewrite andb_true_iff, orb_true_iff, !Rltb_true. tauto. Qed.

(** C3 (amended): a property is "far" when its last value lies outside
    its target band and its distance to the middle of the band exceeds
    half of the middle value.  Brightness is never masked, Contrast is
    masked exactly when Brightness is far, Saturation exactly when
    Brightness or Contrast is far; and a masked property is skipped by the
    tuning of that cycle. *)
Theorem property_masked_exactly (s : CSDevs) :
  let lB := frame_last_value_by_property s "Brightness" in
  let minB := preferred_target_by_property s "Brightness" false in
  let maxB := preferred_target_by_property s "Brightness" true in
  let midB := minB + (maxB - minB) / 2 in
  let lC := frame_last_value_by_property s "Contrast" in
  let minC := preferred_target_by_property s "Contrast" false in
  let maxC := preferred_target_by_property s "Contrast" true in
  let midC := minC + (maxC - minC) / 2 in
  let farB := (lB < minB \/ maxB < lB) /\ midB / 2 < Rabs (midB - lB) in
  let farC := (lC < minC \/ maxC < lC) /\ midC / 2 < Rabs (midC - lC) in
  property_masked s "Brightness" = false /\
  (property_masked s "Contrast" = true <-> farB) /\
  (property_masked s "Saturation" = true <-> farB \/ farC) /\
  (forall fuel fuelN property,
      property_masked s property = true ->
      tune_property_by_nameA fuel fuelN property s =
      (Done None, switch_TOD_controls s)).
Proof.
  intros. split; [reflexivity|]. split; [|split].
  - unfold property_masked. cbn [String.eqb Ascii.eqb Bool.eqb negb].
    fold lB minB maxB midB.
    destruct ((Rltb lB minB || Rltb maxB lB)
              && Rltb (midB / 2) (Rabs (midB - lB))) eqn:E.
    + split; [intros _|reflexivity]. now apply far_test.
    + split; [discriminate|]. intros H. apply far_test in H.
      unfold midB in E. congruence.
  - unfold property_masked. cbn [String.eqb Ascii.eqb Bool.eqb negb].
    fold lB minB maxB midB lC minC maxC midC.
    destruct ((Rltb lB minB || Rltb maxB lB)
              && Rltb (midB / 2) (Rabs (midB - lB))) eqn:E.
    + split; [intros _|reflexivity]. left. now apply far_test.
    + destruct ((Rltb lC minC || Rltb maxC lC)
                && Rltb (midC / 2) (Rabs (midC - lC))) eqn:E2.
      * split; [intros _|reflexivity]. right. now apply far_test.
      * split; [discriminate|]. intros [H|H]; apply far_test in H.
        -- unfold midB in E. congruence.
        -- unfold midC in E2. congruence.
  - intros fuel fuelN property Hm.
    unfold tune_property_by_nameA, bind, modify, get, ret.
    rewrite property_masked_switch, Hm. cbn [negb].
    destruct (Rleb 0 _); reflexivity.
Qed.

(** C3 (as stated, refuted): brightness 80 against the band 100..140 lies
    20 below the band, more than half of the half-width (10), and yet
    Contrast is not masked: the distance to the middle, 40, does not
    exceed half of the middle value, 60. *)
Lemma masking_ignores_half_width :
  let minB :=
    preferred_target_by_property Samples.dim_state "Brightness" false in
  let maxB :=
    preferred_target_by_property Samples.dim_state "Brightness" true in
  let lB := frame_last_value_by_property Samples.dim_state "Brightness" in
  lB < minB - ((maxB - minB) / 2) / 2 /\
  property_masked Samples.dim_state "Contrast" = false.
Proof.
  cbn. split; [lra|].
  unfold property_masked. cbn.
  rewrite (proj2 (Rltb_false (_ / 2) _)).
  - rewrite andb_false_r. reflexivity.
  - rewrite Rabs_right; lra.
Qed.

End Masking.

(** ** A frame exactly on target *)

Section OnTarget.

Import CSDevs.
Local Open Scope R_scope.

Lemma quiet_refl s : quiet s s.
Proof. repeat split. exists []. now rewrite app_nil_r. Qed.

Lemma quiet_trans s1 s2 s3 : quiet s1 s2 -> quiet s2 s3 -> quiet s1 s3.
Proof.
  intros (F1 & C1 & T1 & e1 & E1) (F2 & C2 & T2 & e2 & E2).
  repeat split; try congruence.
  exists (e1 ++ e2). rewrite E2, E1. now rewrite app_assoc.
Qed.

Lemma quiet_switch s : quiet s (switch_TOD_controls s).
Proof.
  unfold switch_TOD_controls. destruct (negb _); [|apply quiet_refl].
  repeat split. exists []. cbn. now rewrite app_nil_r.
Qed.

Lemma quiet_create_best_fit name s :
  quiet s (create_best_fit_control_setting_by_name name s).
Proof.
  unfold create_best_fit_control_setting_by_name.
  destruct (setting_control_by_name s name); [apply quiet_refl|].
  destruct (current_camera_control_by_name s name); [|apply quiet_refl].
  destruct (is_integer_type _); [|apply quiet_refl].
  repeat split. eexists. cbn. reflexivity.
Qed.

Lemma quiet_set_imageTuningControls_at i t s :
  quiet s (set_imageTuningControls_at i t s).
Proof.
  unfold set_imageTuningControls_at.
  destruct (String.eqb _ _); repeat split; exists []; cbn;
    now rewrite app_nil_r.
Qed.

Lemma quiet_set_named_control_limits name mn mx e s :
  quiet s (set_named_control_limits name mn mx e s).
Proof.
  unfold set_named_control_limits.
  destruct e, mn, mx; repeat split; exists []; cbn; now rewrite app_nil_r.
Qed.

(** The rotation keeps what was pending; it can only add the default
    setting of a control that had none. *)
Lemma next_index_loop_quiet fuel property todName iTuningState iCount :
  forall iCtrl iFirst ctrlNotFound skippedCount s,
    quiet s (snd (next_index_loop fuel property todName iTuningState iCount
                    iCtrl iFirst ctrlNotFound skippedCount s)).
Proof.
  induction fuel as [|fuel IH]; intros; cbn [next_index_loop].
  - apply quiet_refl.
  - destruct (Z.eqb _ (-1)).
    + destruct ctrlNotFound; [apply quiet_refl|apply IH].
    + destruct (Z.eqb iFirst _); [apply quiet_refl|].
      destruct (nth_error _ _) as [aTuner|]; [|apply quiet_refl].
      destruct (setting_control_by_name s (ctrlName aTuner)) as [c|].
      * destruct (existsb _ _).
        -- destruct (_ && _); [apply quiet_refl|].
           eapply quiet_trans; [|apply IH].
           apply quiet_set_imageTuningControls_at.
        -- destruct (_ && _); [apply quiet_refl|].
           destruct (Z.ltb 1 _).
           ++ apply quiet_set_imageTuningControls_at.
           ++ eapply quiet_trans; [|apply IH].
              apply quiet_set_imageTuningControls_at.
      * pose proof (quiet_create_best_fit (ctrlName aTuner) s) as Hq.
        destruct (_ && _); [exact Hq|].
        destruct (setting_control_by_name
                    (create_best_fit_control_setting_by_name _ _) _).
        -- destruct (Z.ltb 1 _).
           ++ eapply quiet_trans; [exact Hq|].
              apply quiet_set_imageTuningControls_at.
           ++ eapply quiet_trans; [exact Hq|].
              eapply quiet_trans; [|apply IH].
              apply quiet_set_imageTuningControls_at.
        -- eapply quiet_trans; [exact Hq|].
           eapply quiet_trans; [|apply IH].
           apply quiet_set_imageTuningControls_at.
Qed.

Lemma next_tuning_control_index_quiet fuel property s :
  quiet s (snd (next_tuning_control_index_by_property_TOD fuel property s)).
Proof.
  unfold next_tuning_control_index_by_property_TOD.
  pose proof (quiet_switch s) as Hs.
  destruct (Z.eqb _ _); [exact Hs|].
  destruct (nth_error _ _); [|exact Hs].
  eapply quiet_trans; [exact Hs|]. apply next_index_loop_quiet.
Qed.

Lemma preferred_target_frame s s' property b :
  frame s' = frame s ->
  preferred_target_by_property s' property b =
  preferred_target_by_property s property b.
Proof.
  intros H.
  assert (Hd : forall b', preferred_day_target_by_property s' property b' =
                          preferred_day_target_by_property s property b').
  { intros b'. unfold preferred_day_target_by_property. now rewrite H. }
  unfold preferred_target_by_property, preferred_night_target_by_property.
  now rewrite H, !Hd.
Qed.

Lemma target_value_frame s s' property :
  frame s' = frame s -> target_value s' property = target_value s property.
Proof.
  intros H. unfold target_value.
  now rewrite !(@preferred_target_frame _ _ _ _ H).
Qed.

(** [__can_tune_property] says no when the last value equals the
    target, whatever the control, its limits and its polarity. *)
Lemma can_tune_property_at_target name v ctrlVal neg enc s :
  can_tune_property name v v ctrlVal neg enc s = (false, s).
Proof.
  unfold can_tune_property.
  rewrite (proj2 (Rltb_false v v)) by lra. reflexivity.
Qed.

(** At the target no candidate is tunable. *)
Lemma tune_candidate_at_target property aTuner s r s' :
  tune_candidate property (target_value s property) aTuner s = (r, s') ->
  (r = Done None \/ exists e, r = Fail e) /\ quiet s s'.
Proof.
  unfold tune_candidate, bind, get, modify, ret, fail.
  pose proof (quiet_set_named_control_limits (ctrlName aTuner)
                (Some (rMin aTuner)) (Some (rMax aTuner))
                (encourageRange aTuner) s) as Hq.
  set (s1 := set_named_control_limits _ _ _ _ s) in *.
  destruct (setting_control_by_name s (ctrlName aTuner)) as [aCtrl|].
  - rewrite can_tune_property_at_target.
    intros [= <- <-]. split; [now left|exact Hq].
  - intros [= <- <-]. split; [right; eauto|exact Hq].
Qed.

Lemma tune_loop_at_target fuelN property :
  forall fuel iFirst s0 s r s',
    quiet s0 s ->
    tune_loop fuel fuelN property (target_value s0 property) iFirst s
    = (r, s') ->
    no_selection r /\ quiet s0 s'.
Proof.
  induction fuel as [|fuel IH]; intros iFirst s0 s r s' Hq H;
    cbn [tune_loop] in H.
  - injection H as <- <-. cbn. auto.
  - unfold bind at 1 in H.
    pose proof (next_tuning_control_index_quiet fuelN property s) as Hn.
    destruct (next_tuning_control_index_by_property_TOD fuelN property s)
      as [[iTune| |] s1]; cbn [snd] in Hn;
      assert (Hq1 : quiet s0 s1) by (eapply quiet_trans; eassumption);
      try (injection H as <- <-; cbn; auto).
    destruct (Z.eqb iFirst iTune); [injection H as <- <-; cbn; auto|].
    destruct (Z.leb 0 iTune); [|injection H as <- <-; cbn; auto].
    unfold bind at 1, get in H.
    destruct (nth_error _ _) as [aTuner|];
      [|injection H as <- <-; cbn; auto].
    unfold bind at 1 in H.
    assert (Ht : target_value s0 property = target_value s1 property).
    { symmetry. apply target_value_frame. apply Hq1. }
    rewrite Ht in H.
    destruct (tune_candidate property (target_value s1 property) aTuner s1)
      as [c s2] eqn:Ec.
    apply tune_candidate_at_target in Ec as [Hr Hc].
    assert (Hq2 : quiet s0 s2) by (eapply quiet_trans; eassumption).
    destruct Hr as [->|[e ->]].
    + rewrite <- Ht in H. eapply IH; eassumption.
    + injection H as <- <-. cbn. auto.
Qed.

Lemma tune_property_at_target fuel fuelN property s r s' :
  frame_last_value_by_property s property = target_value s property ->
  tune_property_by_nameA fuel fuelN property s = (r, s') ->
  no_selection r /\ quiet s s'.
Proof.
  intros Heq H. unfold tune_property_by_nameA in H.
  unfold bind at 1, modify in H. unfold bind at 1, get in H.
  pose proof (quiet_switch s) as Hs.
  set (s1 := switch_TOD_controls s) in *.
  destruct (Rleb 0 _); [|injection H as <- <-; cbn; auto].
  unfold bind at 1 in H.
  destruct (negb (property_masked s1 property)).
  - assert (Hl : frame_last_value_by_property s1 property
                 = target_value s1 property).
    { unfold s1. rewrite frame_last_value_switch.
      rewrite Heq. symmetry. apply target_value_frame. apply Hs. }
    rewrite Hl in H.
    destruct (tune_loop fuel fuelN property (target_value s1 property)
                (-1)%Z s1) as [c s2] eqn:El.
    apply tune_loop_at_target in El as [Hn Hq]; [|apply quiet_refl].
    assert (Hq2 : quiet s s2) by (eapply quiet_trans; eassumption).
    destruct c as [[sel|]| |]; cbn in Hn; try contradiction;
      injection H as <- <-; cbn; auto.
  - cbn in H. injection H as <- <-. cbn. auto.
Qed.



End OnTarget.

(** ** Range limits of a tuned control *)

Section RangeLimits.

Import CSDevs.
Import Samples.
Local Open Scope R_scope.

Lemma only_limits_refl s : only_limits s s.
Proof. unfold only_limits. destruct s; reflexivity. Qed.

Lemma only_limits_trans s1 s2 s3 :
  only_limits s1 s2 -> only_limits s2 s3 -> only_limits s1 s3.
Proof.
  unfold only_limits. intros H1 H2. rewrite H2 at 1. rewrite H1 at 1.
  destruct s1; reflexivity.
Qed.

Lemma only_limits_set_hi v s : only_limits s (set_hiLimit v s).
Proof. unfold only_limits. destruct s; reflexivity. Qed.

Lemma only_limits_set_lo v s : only_limits s (set_loLimit v s).
Proof. unfold only_limits. destruct s; reflexivity. Qed.

Lemma hi_fold name : forall l acc,
  let r := fold_left
    (fun acc aTuner =>
       if String.eqb (ctrlName aTuner) name
          && Z.ltb (hiLimit acc) (rMax aTuner)
       then set_hiLimit (rMax aTuner) acc else acc) l acc in
  only_limits acc r /\ loLimit r = loLimit acc /\
  (hiLimit acc <= hiLimit r)%Z /\
  (hiLimit r = hiLimit acc \/
   exists t, In t l /\ ctrlName t = name /\ hiLimit r = rMax t).
Proof.
  induction l as [|t l IH]; intros acc; cbn [fold_left].
  - split; [apply only_limits_refl|]. auto with zarith.
  -     destruct (String.eqb (ctrlName t) name && Z.ltb (hiLimit acc) (rMax t))
      eqn:E.
    + apply andb_true_iff in E as [En El].
      apply String.eqb_eq in En. apply Z.ltb_lt in El.
      destruct (IH (set_hiLimit (rMax t) acc)) as (Ho & Hl & Hh & Hd).
      split; [|split; [|split]].
      * eapply only_limits_trans; [apply only_limits_set_hi|exact Ho].
      * rewrite Hl. reflexivity.
      * cbn in Hh. lia.
      * right. destruct Hd as [Hd|(t' & Hin & Hn & Hr)].
        -- exists t. cbn in Hd. split; [now left|auto].
        -- exists t'. split; [now right|auto].
    + destruct (IH acc) as (Ho & Hl & Hh & Hd).
      split; [exact Ho|]. split; [exact Hl|]. split; [exact Hh|].
      destruct Hd as [Hd|(t' & Hin & Hn & Hr)]; [now left|].
      right. exists t'. split; [now right|auto].
Qed.

Lemma lo_fold name : forall l acc,
  let r := fold_left
    (fun acc aTuner =>
       if String.eqb (ctrlName aTuner) name
          && Z.ltb (rMin aTuner) (loLimit acc)
       then set_loLimit (rMin aTuner) acc else acc) l acc in
  only_limits acc r /\ hiLimit r = hiLimit acc /\
  (loLimit r <= loLimit acc)%Z /\
  (loLimit r = loLimit acc \/
   exists t, In t l /\ ctrlName t = name /\ loLimit r = rMin t).
Proof.
  induction l as [|t l IH]; intros acc; cbn [fold_left].
  - split; [apply only_limits_refl|]. auto with zarith.
  -     destruct (String.eqb (ctrlName t) name && Z.ltb (rMin t) (loLimit acc))
      eqn:E.
    + apply andb_true_iff in E as [En El].
      apply String.eqb_eq in En. apply Z.ltb_lt in El.
      destruct (IH (set_loLimit (rMin t) acc)) as (Ho & Hl & Hh & Hd).
      split; [|split; [|split]].
      * eapply only_limits_trans; [apply only_limits_set_lo|exact Ho].
      * rewrite Hl. reflexivity.
      * cbn in Hh. lia.
      * right. destruct Hd as [Hd|(t' & Hin & Hn & Hr)].
        -- exists t. cbn in Hd. split; [now left|auto].
        -- exists t'. split; [now right|auto].
    + destruct (IH acc) as (Ho & Hl & Hh & Hd).
      split; [exact Ho|]. split; [exact Hl|]. split; [exact Hh|].
      destruct Hd as [Hd|(t' & Hin & Hn & Hr)]; [now left|].
      right. exists t'. split; [now right|auto].
Qed.

Lemma use_hi_spec name tod s :
  let r := use_named_control_all_properties_hi_limit name tod s in
  only_limits s r /\ loLimit r = loLimit s /\
  (hiLimit s <= hiLimit r)%Z /\
  (hiLimit r = hiLimit s \/
   exists t, In t (tod_tuning_control_settings s tod) /\
             ctrlName t = name /\ hiLimit r = rMax t).
Proof. apply hi_fold. Qed.

Lemma use_lo_spec name tod s :
  let r := use_named_control_all_properties_lo_limit name tod s in
  only_limits s r /\ hiLimit r = hiLimit s /\
  (loLimit r <= loLimit s)%Z /\
  (loLimit r = loLimit s \/
   exists t, In t (tod_tuning_control_settings s tod) /\
             ctrlName t = name /\ loLimit r = rMin t).
Proof. apply lo_fold. Qed.

(** What [__can_tune_property] does to the limits: it can only widen
    them, and only the bound the control already lies beyond on the side
    the property asks it to move to, and only to a bound configured for
    that control by some tuner of the time of day. *)
Lemma can_tune_property_limits name lastValue tgtVal ctrlVal neg enc s b s' :
  can_tune_property name lastValue tgtVal ctrlVal neg enc s = (b, s') ->
  only_limits s s' /\
  (loLimit s' <= loLimit s)%Z /\ (hiLimit s <= hiLimit s')%Z /\
  (hiLimit s' = hiLimit s \/
   (lastValue < tgtVal /\ (hiLimit s < ctrlVal)%Z /\ enc = true /\
    exists t, In t (tod_tuning_control_settings s (lastTOD s)) /\
              ctrlName t = name /\ hiLimit s' = rMax t)) /\
  (loLimit s' = loLimit s \/
   (tgtVal < lastValue /\ (ctrlVal < loLimit s)%Z /\ enc = true /\
    exists t, In t (tod_tuning_control_settings s (lastTOD s)) /\
              ctrlName t = name /\ loLimit s' = rMin t)).
Proof.
  unfold can_tune_property.
  destruct (Rltb lastValue tgtVal) eqn:E1.
  - apply Rltb_true in E1.
    destruct (Z.ltb (hiLimit s) ctrlVal && enc) eqn:E2.
    + apply andb_true_iff in E2 as [E2 ->]. apply Z.ltb_lt in E2.
      destruct (use_hi_spec name (lastTOD s) s) as (Ho & Hl & Hh & Hd).
      intros H.
      assert (Hs : s' = use_named_control_all_properties_hi_limit name
                          (lastTOD s) s)
        by (destruct neg; now injection H as _ <-).
      subst s'. split; [exact Ho|]. split; [lia|]. split; [exact Hh|].
      split; [|now left].
      destruct Hd as [Hd|Hd]; [now left|right; auto].
    + intros H.
      assert (Hs : s' = s) by (destruct neg; now injection H as _ <-).
      subst s'. split; [apply only_limits_refl|].
      repeat split; auto with zarith.
  - destruct (Rltb tgtVal lastValue) eqn:E3.
    + apply Rltb_true in E3.
      destruct (Z.ltb ctrlVal (loLimit s) && enc) eqn:E2.
      * apply andb_true_iff in E2 as [E2 ->]. apply Z.ltb_lt in E2.
        destruct (use_lo_spec name (lastTOD s) s) as (Ho & Hl & Hh & Hd).
        intros H.
        assert (Hs : s' = use_named_control_all_properties_lo_limit name
                            (lastTOD s) s)
          by (destruct neg; now injection H as _ <-).
        subst s'. split; [exact Ho|]. split; [exact Hh|]. split; [lia|].
        split; [now left|].
        destruct Hd as [Hd|Hd]; [now left|right; auto].
      * intros H.
        assert (Hs : s' = s) by (destruct neg; now injection H as _ <-).
        subst s'. split; [apply only_limits_refl|].
        repeat split; auto with zarith.
    + intros [= _ <-]. split; [apply only_limits_refl|].
      repeat split; auto with zarith.
Qed.

Lemma tune_control_value_by_ID_limits ctrlID v t r rf dn fmin fmax prop
  s res s' :
  tune_control_value_by_ID ctrlID v t r rf dn fmin fmax prop s = (res, s') ->
  loLimit s' = loLimit s /\ hiLimit s' = hiLimit s /\
  noClampLoLimit s' = noClampLoLimit s /\
  noClampHiLimit s' = noClampHiLimit s.
Proof.
  unfold tune_control_value_by_ID.
  destruct (setting_control_by_ID s ctrlID);
    [|intros [= _ <-]; auto].
  destruct (get_current_camera_control_by_ID s ctrlID);
    [|intros [= _ <-]; auto].
  destruct (is_integer_type _); [|intros [= _ <-]; auto].
  destruct (tune_integer_control _ _ _ _ _ _ _ _ _ _ _);
    intros [= _ <-]; auto.
Qed.

(** With no guidance limits set the offered value is clamped into the
    current limits. *)
Lemma limit_control_value_clamps s v r :
  noClampLoLimit s = None ->
  limit_control_value_to_current_range s (Some v) = Ok r ->
  exists v', r = Some v' /\ (v' <= hiLimit s)%Z /\
             ((loLimit s <= hiLimit s)%Z -> (loLimit s <= v')%Z) /\
             ((loLimit s <= v <= hiLimit s)%Z -> v' = v).
Proof.
  intros Hn. unfold limit_control_value_to_current_range,
    guide_control_value_to_current_range. rewrite Hn.
  intros [= <-]. eexists. split; [reflexivity|].
  destruct (Z.ltb v (loLimit s)) eqn:E1;
    [apply Z.ltb_lt in E1|apply Z.ltb_ge in E1];
    match goal with
    | |- context [Z.ltb ?a ?b] =>
        destruct (Z.ltb a b) eqn:E2;
        [apply Z.ltb_lt in E2|apply Z.ltb_ge in E2]
    end; repeat split; intros; lia.
Qed.

Lemma set_named_control_limits_encourage name lo hi s :
  let s1 := set_named_control_limits name (Some lo) (Some hi) true s in
  loLimit s1 = lo /\ hiLimit s1 = hi /\
  noClampLoLimit s1 = None /\ noClampHiLimit s1 = None /\
  lastTOD s1 = lastTOD s /\ camera s1 = camera s.
Proof. cbn. repeat split; reflexivity. Qed.

Lemma only_limits_fields s s' :
  only_limits s s' ->
  noClampLoLimit s' = noClampLoLimit s /\
  noClampHiLimit s' = noClampHiLimit s /\
  lastTOD s' = lastTOD s /\ camera s' = camera s.
Proof. intros H. rewrite H. cbn. repeat split; reflexivity. Qed.

(** The candidate step of a tuner that encourages its limits: the value
    it offers lies within the limits in force after the step, which are
    the tuner's own unless [__can_tune_property] widened one of them. *)
Lemma tuned_value_within_limits property lastValue aTuner s aCtrl v s' :
  encourageRange aTuner = true ->
  (rMin aTuner <= rMax aTuner)%Z ->
  tune_candidate property lastValue aTuner s
  = (Done (Some (aCtrl, Some v)), s') ->
  (loLimit s' <= v <= hiLimit s')%Z /\
  (loLimit s' <= rMin aTuner)%Z /\ (rMax aTuner <= hiLimit s')%Z /\
  (hiLimit s' = rMax aTuner \/
   (lastValue < target_value s property /\
    (rMax aTuner < ctrl_value aCtrl)%Z /\
    exists t, In t (tuningControlSettings s) /\
              ctrlName t = ctrlName aTuner /\ hiLimit s' = rMax t)) /\
  (loLimit s' = rMin aTuner \/
   (target_value s property < lastValue /\
    (ctrl_value aCtrl < rMin aTuner)%Z /\
    exists t, In t (tuningControlSettings s) /\
              ctrlName t = ctrlName aTuner /\ loLimit s' = rMin t)) /\
  ((rMin aTuner <= ctrl_value aCtrl <= rMax aTuner)%Z ->
   (rMin aTuner <= v <= rMax aTuner)%Z).
Proof.
  intros Henc Hrange H.
  unfold tune_candidate in H. rewrite Henc in H.
  unfold bind at 1, get in H. unfold bind at 1, modify in H.
  destruct (set_named_control_limits_encourage (ctrlName aTuner)
              (rMin aTuner) (rMax aTuner) s)
    as (Hlo1 & Hhi1 & Hnl1 & Hnh1 & Htod1 & Hcam1).
  set (s1 := set_named_control_limits _ _ _ _ s) in *.
  destruct (setting_control_by_name s (ctrlName aTuner)) as [c|];
    [|discriminate].
  unfold bind at 1 in H.
  destruct (can_tune_property (ctrlName aTuner) lastValue
              (target_value s property) (ctrl_value c) (negativeUse aTuner)
              true s1) as [b s2] eqn:Ecan.
  apply can_tune_property_limits in Ecan
    as (Ho & Hlo2 & Hhi2 & Hdh & Hdl).
  destruct (only_limits_fields Ho) as (Hnl2 & Hnh2 & Htod2 & Hcam2).
  destruct b; [|discriminate].
  unfold bind at 1 in H.
  destruct (tune_control_value_by_ID (ctrl_id c) lastValue
              (target_value s property) 256 (rForce aTuner)
              (negativeUse aTuner) None None property s2)
    as [res s3] eqn:Etune.
  apply tune_control_value_by_ID_limits in Etune
    as (Hlo3 & Hhi3 & Hnl3 & Hnh3).
  destruct res as [aVal| |]; try discriminate.
  unfold bind at 1, get in H. unfold bind at 1 in H.
  destruct (limit_control_value_to_current_range s3 aVal) as [vCtrl|e] eqn:El;
    cbn in H; [|discriminate].
  injection H as Hc Hv Hs. subst c vCtrl s'.
  destruct aVal as [a|]; [|cbn in El; discriminate].
  apply limit_control_value_clamps in El as (v' & [= <-] & Hle & Hge & Hsame);
    [|congruence].
  rewrite Hlo3, Hhi3 in *. rewrite Hlo1, Hhi1 in *.
  assert (Htun : tod_tuning_control_settings s1 (lastTOD s1)
                 = tuningControlSettings s).
  { unfold tuningControlSettings, tod_tuning_control_settings.
    now rewrite Htod1, Hcam1. }
  rewrite Htun in *.
  split; [split; [apply Hge; lia|exact Hle]|].
  split; [exact Hlo2|]. split; [exact Hhi2|].
  split; [|split].
  - destruct Hdh as [Hd|(Hlt & Hc & _ & Ht)]; [now left|right; auto].
  - destruct Hdl as [Hd|(Hlt & Hc & _ & Ht)]; [now left|right; auto].
  - intros Hin.
    assert (Hh : hiLimit s2 = rMax aTuner)
      by (destruct Hdh as [Hd|(_ & Hc & _)]; [exact Hd|lia]).
    assert (Hl : loLimit s2 = rMin aTuner)
      by (destruct Hdl as [Hd|(_ & Hc & _)]; [exact Hd|lia]).
    rewrite Hh, Hl in *. split; [apply Hge; lia|exact Hle].
Qed.

Lemma kept_refl s : kept s s.
Proof. repeat split. Qed.

Lemma kept_trans s1 s2 s3 : kept s1 s2 -> kept s2 s3 -> kept s1 s3.
Proof. intros (A & B & C) (D & E & F). repeat split; congruence. Qed.

Lemma kept_tuners s s' : kept s s' ->
  tuningControlSettings s' = tuningControlSettings s.
Proof.
  intros (_ & Hc & Ht). unfold tuningControlSettings,
    tod_tuning_control_settings. now rewrite Hc, Ht.
Qed.

Lemma switch_current s : tod_current (switch_TOD_controls s).
Proof.
  unfold tod_current, switch_TOD_controls.
  destruct (String.eqb (lastTOD s) _) eqn:E; cbn [negb].
  - now apply String.eqb_eq in E.
  - reflexivity.
Qed.

Lemma switch_idle s : tod_current s -> switch_TOD_controls s = s.
Proof.
  unfold tod_current, switch_TOD_controls. intros ->.
  now rewrite String.eqb_refl.
Qed.

Lemma kept_current s s' : kept s s' -> tod_current s -> tod_current s'.
Proof. intros (Hf & _ & Ht). unfold tod_current. now rewrite Hf, Ht. Qed.

Lemma kept_create_best_fit name s :
  kept s (create_best_fit_control_setting_by_name name s).
Proof.
  unfold create_best_fit_control_setting_by_name.
  destruct (setting_control_by_name s name); [apply kept_refl|].
  destruct (current_camera_control_by_name s name); [|apply kept_refl].
  destruct (is_integer_type _); [|apply kept_refl].
  repeat split.
Qed.

Lemma kept_set_imageTuningControls_at i t s :
  kept s (set_imageTuningControls_at i t s).
Proof.
  unfold set_imageTuningControls_at.
  destruct (String.eqb _ _); repeat split.
Qed.

Lemma kept_set_named_control_limits name mn mx e s :
  kept s (set_named_control_limits name mn mx e s).
Proof.
  unfold set_named_control_limits. destruct e, mn, mx; repeat split.
Qed.

Lemma next_index_loop_usable fuel property todName iTuningState iCount :
  forall iCtrl iFirst ctrlNotFound skippedCount s r s',
    next_index_loop fuel property todName iTuningState iCount
      iCtrl iFirst ctrlNotFound skippedCount s = (r, s') ->
    kept s s' /\ (forall i, r = Done i -> usable_index i s').
Proof.
  induction fuel as [|fuel IH]; intros iCtrl iFirst ctrlNotFound
    skippedCount s r s' H; cbn [next_index_loop] in H.
  - injection H as <- <-. split; [apply kept_refl|discriminate].
  - assert (Hstop : forall s0, kept s s0 ->
              (Done (-1)%Z, s0) = (r, s') ->
              kept s s' /\ (forall i, r = Done i -> usable_index i s')).
    { intros s0 Hk [= <- <-]. split; [exact Hk|].
      intros i [= <-]. now left. }
    assert (Hloop : forall s0 a b c d, kept s s0 ->
              next_index_loop fuel property todName iTuningState iCount
                a b c d s0 = (r, s') ->
              kept s s' /\ (forall i, r = Done i -> usable_index i s')).
    { intros s0 a b c d Hk Hl. apply IH in Hl as [Hk' Hu].
      split; [eapply kept_trans; eassumption|exact Hu]. }
    destruct (Z.eqb _ (-1)).
    + destruct ctrlNotFound.
      * apply (Hstop s); [apply kept_refl|exact H].
      * eapply Hloop; [apply kept_refl|exact H].
    + destruct (Z.eqb iFirst _);
        [apply (Hstop s); [apply kept_refl|exact H]|].
      destruct (nth_error (tuningControlSettings s) _) as [aTuner|] eqn:En.
      2:{ injection H as <- <-. split; [apply kept_refl|discriminate]. }
      assert (Hret : forall s0, kept s s0 ->
                (1 < rMax aTuner - rMin aTuner)%Z ->
                (Done (tuning_control_index_for_property_TOD_index s property
                         todName iCtrl), s0) = (r, s') ->
                kept s s' /\ (forall i, r = Done i -> usable_index i s')).
      { intros s0 Hk Hr [= <- <-]. split; [exact Hk|].
        intros i [= <-]. right. exists aTuner.
        rewrite (kept_tuners Hk). split; [exact En|exact Hr]. }
      destruct (setting_control_by_name s (ctrlName aTuner)) as [c|].
      * destruct (existsb _ _).
        -- destruct (_ && _); [apply (Hstop s); [apply kept_refl|exact H]|].
           eapply Hloop; [|exact H].
           apply kept_set_imageTuningControls_at.
        -- destruct (_ && _); [apply (Hstop s); [apply kept_refl|exact H]|].
           destruct (Z.ltb 1 _) eqn:Er.
           ++ apply Z.ltb_lt in Er. eapply Hret; [|exact Er|exact H].
              apply kept_set_imageTuningControls_at.
           ++ eapply Hloop; [|exact H].
              apply kept_set_imageTuningControls_at.
      * pose proof (kept_create_best_fit (ctrlName aTuner) s) as Hq.
        destruct (_ && _); [apply (Hstop _ Hq H)|].
        assert (Hq2 : forall i t, kept s (set_imageTuningControls_at i t
                  (create_best_fit_control_setting_by_name (ctrlName aTuner)
                     s))).
        { intros. eapply kept_trans; [exact Hq|].
          apply kept_set_imageTuningControls_at. }
        destruct (setting_control_by_name
                    (create_best_fit_control_setting_by_name _ _) _).
        -- destruct (Z.ltb 1 _) eqn:Er.
           ++ apply Z.ltb_lt in Er. eapply Hret; [|exact Er|exact H].
              apply Hq2.
           ++ eapply Hloop; [|exact H]. apply Hq2.
        -- eapply Hloop; [|exact H]. apply Hq2.
Qed.

Lemma next_tuning_control_index_usable fuel property s r s' :
  tod_current s ->
  next_tuning_control_index_by_property_TOD fuel property s = (r, s') ->
  kept s s' /\ (forall i, r = Done i -> usable_index i s').
Proof.
  intros Hc. unfold next_tuning_control_index_by_property_TOD.
  rewrite (switch_idle Hc).
  destruct (Z.eqb _ _).
  - intros [= <- <-]. split; [apply kept_refl|].
    intros i [= <-]. now left.
  - destruct (nth_error _ _).
    + apply next_index_loop_usable.
    + intros [= <- <-]. split; [apply kept_refl|discriminate].
Qed.

Lemma only_limits_kept s s' : only_limits s s' -> kept s s'.
Proof. intros H. rewrite H. repeat split. Qed.

Lemma tune_control_value_by_ID_kept ctrlID v t r rf dn fmin fmax prop
  s res s' :
  tune_control_value_by_ID ctrlID v t r rf dn fmin fmax prop s = (res, s') ->
  kept s s'.
Proof.
  unfold tune_control_value_by_ID.
  destruct (setting_control_by_ID s ctrlID);
    [|intros [= _ <-]; apply kept_refl].
  destruct (get_current_camera_control_by_ID s ctrlID);
    [|intros [= _ <-]; apply kept_refl].
  destruct (is_integer_type _); [|intros [= _ <-]; apply kept_refl].
  destruct (tune_integer_control _ _ _ _ _ _ _ _ _ _ _);
    intros [= _ <-]; repeat split.
Qed.

Lemma tune_candidate_kept property lastValue aTuner s r s' :
  tune_candidate property lastValue aTuner s = (r, s') -> kept s s'.
Proof.
  unfold tune_candidate. unfold bind at 1, get. unfold bind at 1, modify.
  pose proof (kept_set_named_control_limits (ctrlName aTuner)
                (Some (rMin aTuner)) (Some (rMax aTuner))
                (encourageRange aTuner) s) as Hk1.
  set (s1 := set_named_control_limits _ _ _ _ s) in *.
  destruct (setting_control_by_name s (ctrlName aTuner)) as [c|];
    [|intros [= _ <-]; exact Hk1].
  unfold bind at 1.
  destruct (can_tune_property _ _ _ _ _ _ s1) as [b s2] eqn:Ecan.
  apply can_tune_property_limits in Ecan as (Ho & _).
  apply only_limits_kept in Ho.
  assert (Hk2 : kept s s2) by (eapply kept_trans; eassumption).
  destruct b; [|intros [= _ <-]; exact Hk2].
  unfold bind at 1.
  destruct (tune_control_value_by_ID _ _ _ _ _ _ _ _ _ s2)
    as [res s3] eqn:Etune.
  apply tune_control_value_by_ID_kept in Etune.
  assert (Hk3 : kept s s3) by (eapply kept_trans; eassumption).
  destruct res as [aVal| |]; try (intros [= _ <-]; exact Hk3).
  unfold bind at 1, get. unfold bind at 1.
  destruct (limit_control_value_to_current_range s3 aVal); cbn;
    intros [= _ <-]; exact Hk3.
Qed.

(** A selection comes from a tuner of a range wider than one step, on
    which the candidate step produced the selected value in the final
    state of the loop. *)
Lemma tune_loop_selection fuelN property lastValue :
  forall fuel iFirst s sel s',
    tod_current s ->
    tune_loop fuel fuelN property lastValue iFirst s = (Done (Some sel), s') ->
    exists aTuner s1,
      kept s s1 /\
      nth_error (tuningControlSettings s1) (Z.to_nat (sel_iTune sel))
      = Some aTuner /\
      (1 < rMax aTuner - rMin aTuner)%Z /\
      tune_candidate property lastValue aTuner s1
      = (Done (Some (sel_aCtrl sel, sel_vCtrl sel)), s').
Proof.
  induction fuel as [|fuel IH]; intros iFirst s sel s' Hcur H;
    cbn [tune_loop] in H; [discriminate|].
  unfold bind at 1 in H.
  destruct (next_tuning_control_index_by_property_TOD fuelN property s)
    as [r s1] eqn:En.
  apply next_tuning_control_index_usable in En as [Hk Hu]; [|exact Hcur].
  destruct r as [iTune| |]; try discriminate.
  destruct (Z.eqb iFirst iTune); [discriminate|].
  destruct (Z.leb 0 iTune) eqn:Ege; [|discriminate].
  apply Z.leb_le in Ege.
  unfold bind at 1, get in H.
  destruct (Hu iTune eq_refl) as [->|(aTuner & Hnth & Hr)]; [lia|].
  rewrite Hnth in H.
  unfold bind at 1 in H.
  destruct (tune_candidate property lastValue aTuner s1) as [c s2] eqn:Ec.
  pose proof (tune_candidate_kept _ _ _ _ Ec) as Hk2.
  assert (Hcur2 : tod_current s2).
  { eapply kept_current; [|exact Hcur]. eapply kept_trans; eassumption. }
  destruct c as [[[aCtrl vCtrl]|]| |]; try discriminate.
  - destruct (value_equals vCtrl lastValue).
    + apply IH in H as (aT & s3 & Hk3 & Hn3 & Hr3 & Hc3); [|exact Hcur2].
      exists aT, s3. split; [|auto].
      eapply kept_trans; [|exact Hk3]. eapply kept_trans; eassumption.
    + injection H as <- <-. exists aTuner, s1. cbn. auto.
  - apply IH in H as (aT & s3 & Hk3 & Hn3 & Hr3 & Hc3); [|exact Hcur2].
    exists aT, s3. split; [|auto].
    eapply kept_trans; [|exact Hk3]. eapply kept_trans; eassumption.
Qed.

Lemma shared_target : target_value shared_gain_state "Brightness" = 180.
Proof. unfold target_value. cbn. lra. Qed.

Lemma shared_next_index :
  next_tuning_control_index_by_property_TOD 8 "Brightness" shared_gain_state
  = (Done 0%Z, shared_gain_state).
Proof. reflexivity. Qed.

Lemma shared_candidate :
  tune_candidate "Brightness" 129 gain_brightness_tuner shared_gain_state
  = (Done (Some (mk_control 1 80, Some 92%Z)),
     set_random_pos 1
       (set_hiLimit 100
          (set_named_control_limits "Gain" (Some 0%Z) (Some 50%Z) true
             shared_gain_state))).
Proof.
  unfold tune_candidate.
  unfold bind at 1, get. unfold bind at 1, modify. cbv beta iota.
  rewrite shared_target.
  change (setting_control_by_name shared_gain_state
            (ctrlName gain_brightness_tuner)) with (Some (mk_control 1 80)).
  cbv beta iota.
  unfold bind at 1.
  set (s1 := set_named_control_limits _ _ _ _ _).
  assert (Hcan : can_tune_property (ctrlName gain_brightness_tuner) 129 180
                   (ctrl_value (mk_control 1 80))
                   (negativeUse gain_brightness_tuner)
                   (encourageRange gain_brightness_tuner) s1
                 = (true, set_hiLimit 100 s1)).
  { unfold can_tune_property.
    rewrite (proj2 (Rltb_true 129 180)) by lra. reflexivity. }
  rewrite Hcan. cbv beta iota.
  unfold bind at 1.
  set (s2 := set_hiLimit 100 s1).
  assert (Htune : tune_control_value_by_ID (ctrl_id (mk_control 1 80)) 129 180
                    256 (rForce gain_brightness_tuner)
                    (negativeUse gain_brightness_tuner) None None
                    "Brightness" s2
                  = (Done (Some 92%Z), set_random_pos 1 s2)).
  { unfold tune_control_value_by_ID.
    change (setting_control_by_ID s2 (ctrl_id (mk_control 1 80)))
      with (Some (mk_control 1 80)).
    change (get_current_camera_control_by_ID s2 (ctrl_id (mk_control 1 80)))
      with (Some gain).
    cbv beta iota.
    change (is_integer_type (qc_type gain)) with true. cbv iota.
    change (preferred_target_by_property s2 "Brightness" false) with 170.
    change (preferred_target_by_property s2 "Brightness" true) with 190.
    rewrite (proj2 (Rltb_true 129 170)) by lra. cbn [orb].
    change (get_control_tune_power s2 "Brightness" (qc_name gain) true)
      with (105 / 100).
    change (random_uniform (camera s2) (random_pos s2)) with (1 / 8).
    change (random_randint (camera s2) (random_pos s2)) with 1%Z.
    change (negativeUse gain_brightness_tuner) with false.
    rewrite (@tune_integer_control_from_129 (mk_control 1 80) gain)
      by reflexivity.
    reflexivity. }
  cbn [negativeUse gain_brightness_tuner] in *.
  rewrite Htune. cbv beta iota.
  unfold bind at 1, get. unfold bind at 1.
  reflexivity.
Qed.

Lemma shared_tune_property :
  tune_property_by_nameA 4 8 "Brightness" shared_gain_state
  = (Done (Some (mk_selection 0 (mk_control 1 80) (Some 92%Z))),
     tuned_gain_state).
Proof.
  unfold tune_property_by_nameA.
  unfold bind at 1, modify. unfold bind at 1, get.
  change (switch_TOD_controls shared_gain_state) with shared_gain_state.
  change (frame_last_value_by_property shared_gain_state "Brightness")
    with 129.
  rewrite (proj2 (Rleb_true 0 129)) by lra.
  change (property_masked shared_gain_state "Brightness") with false.
  cbn [negb]. unfold bind at 1.
  assert (Hl : tune_loop 4 8 "Brightness" 129 (-1) shared_gain_state
               = (Done (Some (mk_selection 0 (mk_control 1 80) (Some 92%Z))),
                  set_random_pos 1
                    (set_hiLimit 100
                       (set_named_control_limits "Gain" (Some 0%Z)
                          (Some 50%Z) true shared_gain_state)))).
  { cbn [tune_loop]. unfold bind at 1. rewrite shared_next_index.
    cbn [Z.eqb Z.leb Z.ltb Z.compare]. unfold bind at 1, get.
    change (nth_error (tuningControlSettings shared_gain_state) (Z.to_nat 0))
      with (Some gain_brightness_tuner).
    unfold bind at 1. rewrite shared_candidate.
    unfold value_equals.
    rewrite (proj2 (Reqb_false (IZR 92) 129)) by (simpl; lra).
    reflexivity. }
  rewrite Hl. reflexivity.
Qed.

Lemma commit_selection_fields sel s :
  let s' := commit_selection sel s in
  kept s s' /\ loLimit s' = loLimit s /\ hiLimit s' = hiLimit s /\
  (forall v, sel_vCtrl sel = Some v ->
             In (mk_control (ctrl_id (sel_aCtrl sel)) v) (controls s')).
Proof.
  unfold commit_selection, replace_control_setting_by_ID,
    remove_control_setting_by_ID, add_control_setting_by_ID.
  cbn zeta.
  destruct (setting_control_by_ID _ _); destruct (sel_vCtrl sel);
    cbn; (split; [repeat split|]); (split; [reflexivity|]);
    (split; [reflexivity|]); intros v' [= <-];
    apply in_or_app; right; now left.
Qed.




End RangeLimits.

(** ** The capture worker *)

Section Capture.

Import captureThread.

Variable Image : Type.
Variable pil : Imaging Image.
Variable env : Env Image.

(** *** Reading the events of a composed trace *)

Lemma discarded_app (l1 l2 : list (event Image)) :
  discarded (l1 ++ l2) = discarded l1 ++ discarded l2.
Proof.
  induction l1 as [|e l1 IH]; [reflexivity|].
  destruct e; cbn; rewrite ?IH; reflexivity.
Qed.

Lemma retained_app (l1 l2 : list (event Image)) :
  retained (l1 ++ l2) = retained l1 ++ retained l2.
Proof.
  induction l1 as [|e l1 IH]; [reflexivity|].
  destruct e; cbn; rewrite ?IH; reflexivity.
Qed.

Lemma retained_device (l : list (event Image)) :
  forallb (@device_event Image) l = true -> retained l = [].
Proof.
  induction l as [|e l IH]; [reflexivity|].
  destruct e; cbn; try discriminate; exact IH.
Qed.

Lemma discarded_device (l : list (event Image)) :
  forallb (@device_event Image) l = true -> discarded l = [].
Proof.
  induction l as [|e l IH]; [reflexivity|].
  destruct e; cbn; try discriminate; exact IH.
Qed.

Lemma control_frames_device (l1 l2 : list (event Image)) cur :
  forallb (@device_event Image) l1 = true ->
  control_frames cur (l1 ++ l2) = control_frames cur l2.
Proof.
  induction l1 as [|e l1 IH]; [reflexivity|].
  destruct e; cbn; try discriminate; exact IH.
Qed.

(** *** Code that only talks to the device *)

Lemma device_only_ret keep A (a : A) : device_only keep (ret (Image:=Image) a).
Proof.
  intros s; exists []; cbn; rewrite app_nil_r; auto.
Qed.

Lemma device_only_raise keep A e :
  device_only keep (raise (Image:=Image) (A:=A) e).
Proof.
  intros s; exists []; cbn; rewrite app_nil_r; auto.
Qed.

Lemma device_only_bind keep A B (m : C Image A) (k : A -> C Image B) :
  device_only keep m -> (forall a, device_only keep (k a)) ->
  device_only keep (bind m k).
Proof.
  intros Hm Hk s. unfold bind.
  destruct (Hm s) as (l1 & Hl1 & Hd1 & Hq1 & Hb1).
  destruct (m s) as [[a|e] s1]; cbn in *.
  - destruct (Hk a s1) as (l2 & Hl2 & Hd2 & Hq2 & Hb2).
    exists (l1 ++ l2). rewrite Hl2, Hl1, app_assoc, forallb_app, Hd1, Hd2.
    repeat split; auto; congruence.
  - exists l1; auto.
Qed.

Lemma device_only_try_except keep A (m : C Image A) classes h :
  device_only keep m -> (forall e, device_only keep (h e)) ->
  device_only keep (try_except m classes h).
Proof.
  intros Hm Hh s. unfold try_except.
  destruct (Hm s) as (l1 & Hl1 & Hd1 & Hq1 & Hb1).
  destruct (m s) as [[a|e] s1]; cbn in *.
  - exists l1; auto.
  - destruct (existsb (exn_eqb e) classes).
    + destruct (Hh e s1) as (l2 & Hl2 & Hd2 & Hq2 & Hb2).
      exists (l1 ++ l2). rewrite Hl2, Hl1, app_assoc, forallb_app, Hd1, Hd2.
      repeat split; auto; congruence.
    + exists l1; auto.
Qed.

Lemma device_only_try_except_all keep A (m : C Image A) h :
  device_only keep m -> (forall e, device_only keep (h e)) ->
  device_only keep (try_except_all m h).
Proof.
  intros Hm Hh s. unfold try_except_all.
  destruct (Hm s) as (l1 & Hl1 & Hd1 & Hq1 & Hb1).
  destruct (m s) as [[a|e] s1]; cbn in *.
  - exists l1; auto.
  - destruct (Hh e s1) as (l2 & Hl2 & Hd2 & Hq2 & Hb2).
    exists (l1 ++ l2). rewrite Hl2, Hl1, app_assoc, forallb_app, Hd1, Hd2.
    repeat split; auto; congruence.
Qed.

Lemma device_only_get keep : device_only keep (get (Image:=Image)).
Proof.
  intros s; exists []; cbn; rewrite app_nil_r; auto.
Qed.

Lemma device_only_modify keep (f : State Image -> State Image) :
  (forall s, log (f s) = log s) -> (forall s, request (f s) = request s) ->
  (forall s, keep = true -> brokenRx s = true -> brokenRx (f s) = true) ->
  device_only keep (modify f).
Proof.
  intros Hl Hq Hb s; exists []; cbn; rewrite app_nil_r; auto.
Qed.

Lemma device_only_emit keep (e : event Image) :
  device_event e = true -> device_only keep (emit e).
Proof.
  intros He s; exists [e]; cbn; rewrite He; auto.
Qed.

Lemma device_only_tick keep : device_only keep (tick (Image:=Image)).
Proof.
  intros s; exists []; cbn; rewrite app_nil_r; auto.
Qed.

(** Split a piece of worker code into its calls. *)
Ltac device_step :=
  match goal with
  | |- device_only _ (bind _ _) => apply device_only_bind; [|intros ?]
  | |- device_only _ (try_except _ _ _) =>
      apply device_only_try_except; [|intros ?]
  | |- device_only _ (try_except_all _ _) =>
      apply device_only_try_except_all; [|intros ?]
  | |- device_only _ (ret _) => apply device_only_ret
  | |- device_only _ (raise _) => apply device_only_raise
  | |- device_only _ (@get _) => apply device_only_get
  | |- device_only _ (@tick _) => apply device_only_tick
  | |- device_only _ (emit _) => apply device_only_emit; reflexivity
  | |- device_only _ (modify _) =>
      apply device_only_modify; intros; cbn; auto; congruence
  | |- device_only _ (if ?b then _ else _) => destruct b
  | |- device_only _ (match ?x with _ => _ end) => destruct x
  end.

Ltac device_steps := repeat device_step.

Lemma device_only_closed keep : device_only keep (closed env).
Proof. unfold closed; device_steps. Qed.

Lemma device_only_do_ioctl keep r : device_only keep (do_ioctl env r).
Proof. unfold do_ioctl; device_steps. Qed.

Ltac device_ops :=
  repeat (first [ apply device_only_closed | apply device_only_do_ioctl
                | device_step ]).

Lemma device_only_request_capture_buffers keep n :
  device_only keep (request_capture_buffers env n).
Proof. unfold request_capture_buffers; device_ops. Qed.

Lemma device_only_release_capture_buffers keep :
  device_only keep (release_capture_buffers env).
Proof.
  unfold release_capture_buffers.
  apply device_only_bind; [apply device_only_request_capture_buffers|].
  intros; device_ops.
Qed.

Lemma device_only_close_capture_buffers keep :
  device_only keep (close_capture_buffers (Image:=Image)).
Proof.
  intros s; exists (map (@EvClose Image) (buffers s)); cbn.
  repeat split; auto.
  induction (buffers s); cbn; auto.
Qed.

Lemma device_only_map_and_queue keep ind :
  device_only keep (map_and_queue env ind).
Proof. unfold map_and_queue; device_ops. Qed.

Lemma device_only_map_and_queue_from keep n :
  forall ind, device_only keep (map_and_queue_from env ind n).
Proof.
  induction n as [|n IH]; intros ind; cbn.
  - apply device_only_ret.
  - apply device_only_bind; [apply device_only_map_and_queue|intros; apply IH].
Qed.

Lemma device_only_setup_capture_buffers keep :
  device_only keep (setup_capture_buffers env).
Proof.
  unfold setup_capture_buffers.
  apply device_only_bind; [apply device_only_release_capture_buffers|intros _].
  apply device_only_bind; [apply device_only_get|intros s0].
  apply device_only_bind;
    [apply device_only_request_capture_buffers|intros _].
  apply device_only_bind; [apply device_only_get|intros s].
  destruct (req s); [|apply device_only_ret].
  apply device_only_try_except.
  - apply device_only_bind; [apply device_only_closed|intros c].
    destruct (negb c); [apply device_only_map_and_queue_from
                       |apply device_only_raise].
  - intros e. apply device_only_bind;
      [apply device_only_close_capture_buffers|intros _]. device_ops.
Qed.

Lemma device_only_stream_on keep : device_only keep (stream_on env).
Proof. unfold stream_on; device_ops. Qed.

Lemma device_only_stream_off keep : device_only keep (stream_off env).
Proof. unfold stream_off; device_ops. Qed.

Lemma device_only_dequeue_capture_frame keep :
  device_only keep (dequeue_capture_frame env).
Proof. unfold dequeue_capture_frame; device_ops. Qed.

Lemma device_only_requeue_frame keep b : device_only keep (requeue_frame env b).
Proof. unfold requeue_frame; device_ops. Qed.

Lemma device_only_load_image_from_buffer keep b :
  device_only keep (load_image_from_buffer env b).
Proof. unfold load_image_from_buffer; device_ops. Qed.

Lemma device_only_compute_frame_statistics keep :
  device_only keep (compute_frame_statistics pil).
Proof. unfold compute_frame_statistics; device_ops. Qed.

Lemma device_only_save_frame keep : device_only keep (save_frame pil env).
Proof.
  unfold save_frame.
  apply device_only_bind; [apply device_only_get|intros s].
  destruct (theFrame s); [|apply device_only_ret].
  apply device_only_bind;
    [apply device_only_compute_frame_statistics|intros _].
  device_ops.
Qed.


Lemma device_only_eq A (m : C Image A) s r s1 :
  device_only true m -> m s = (r, s1) ->
  exists l, log s1 = log s ++ l /\ forallb (@device_event Image) l = true /\
            request s1 = request s /\
            (brokenRx s = true -> brokenRx s1 = true).
Proof.
  intros Hm E. specialize (Hm s). rewrite E in Hm.
  destruct Hm as (l & L & D & Q & B). exists l; auto.
Qed.

Lemma device_only_log_eq A (m : C Image A) s r s1 :
  device_only false m -> m s = (r, s1) ->
  exists l, log s1 = log s ++ l /\ forallb (@device_event Image) l = true /\
            request s1 = request s.
Proof.
  intros Hm E. specialize (Hm s). rewrite E in Hm.
  destruct Hm as (l & L & D & Q & B). exists l; auto.
Qed.

Lemma set_controls_eq s r s1 :
  set_controls env s = (r, s1) ->
  r = Ok tt /\ request s1 = request s /\ brokenRx s1 = brokenRx s /\
  (log s1 = log s \/
   log s1 = log s ++ [EvSetControls Image (controls (request s))]).
Proof.
  unfold set_controls, closed, bind, tick, get, ret, emit, modify.
  cbv beta iota.
  destruct (negb _ && _); intros E; inversion E; subst; cbn; auto.
Qed.


Lemma control_frames_Forall_app (P : option Z -> Prop)
      (l l' : list (event Image)) :
  (forall cur, Forall P (control_frames cur l')) ->
  forall cur, Forall P (control_frames cur l) ->
              Forall P (control_frames cur (l ++ l')).
Proof.
  intros Hl'. induction l as [|e l IH]; intros cur Hl; [apply Hl'|].
  destruct e; cbn in *; auto.
  inversion Hl; subst. constructor; auto.
Qed.

Lemma control_frames_Forall_device (P : option Z -> Prop)
      (l : list (event Image)) cur :
  forallb (@device_event Image) l = true -> Forall P (control_frames cur l).
Proof.
  intros Hl. rewrite <- (app_nil_r l), control_frames_device by exact Hl.
  constructor.
Qed.

(** Check a trace made of pieces. *)
Ltac trace_ok :=
  repeat first
    [ assumption
    | match goal with
      | F : forall cur : option Z, Forall _ _ |- _ => exact (F None)
      end
    | apply control_frames_Forall_device; assumption
    | apply control_frames_Forall_app; [intros ?|]
    | progress cbn [control_frames app]
    | constructor; [reflexivity|]
    | constructor ].

Lemma reach_loop_any n : forall c s r s',
  reach_loop env n c s = (r, s') ->
  request s' = request s /\ (brokenRx s = true -> brokenRx s' = true) /\
  exists l, log s' = log s ++ l /\
    (forall cur, Forall (eq (Some (ctrlFrame (capFrame (request s)))))
                   (control_frames cur l)) /\
    retained l = match r with
                 | Ok z => if Z.eqb z 0 then [capFrame (request s)] else []
                 | Raise _ => []
                 end.
Proof.
  induction n as [|n IH]; intros c s r s' H.
  - inversion H; subst. repeat split; auto.
    exists []; rewrite app_nil_r; cbn; auto.
  - cbn [reach_loop] in H.
    unfold closed, bind, emit, modify, get, ret, tick, raise in H.
    cbv beta iota in H.
    destruct (dev_closed env (clock s)).
    { inversion H; subst; cbn. repeat split; auto.
      exists []; rewrite app_nil_r; cbn; auto. }
    cbn [request set_clock] in H.
    set (K := capFrame (request s)) in *.
    match type of H with
    | (let (_, _) := ?m ?s0 in _) = _ =>
        destruct (m s0) as [r0 s2] eqn:E2;
        assert (Hc : r0 = Ok tt /\ request s2 = request s /\
                     brokenRx s2 = brokenRx s /\
                     exists lc, log s2 = log s ++ EvIter Image c :: lc /\
                       retained lc = [] /\
                       forall cur,
                         Forall (eq (Some (ctrlFrame K)))
                           (control_frames cur (EvIter Image c :: lc)))
    end.
    { destruct (Z.eqb_spec c (ctrlFrame K)) as [Ec|Ec].
      - apply set_controls_eq in E2.
        destruct E2 as (-> & Q & B & [L|L]); cbn in Q, B, L;
          repeat split; auto.
        + exists []; repeat split; auto; cbn; constructor.
        + exists [EvSetControls Image (controls (request s))].
          rewrite L, <- app_assoc. repeat split; auto.
          intros cur; cbn. subst c. repeat constructor.
      - inversion E2; subst; cbn. repeat split; auto.
        exists []; repeat split; auto; cbn; constructor. }
    destruct Hc as (-> & Q2 & B2 & lc & L2 & R2 & F2).
    destruct (select_ready env (clock s2)) as [ready|e].
    2:{ inversion H; subst; cbn. repeat split; auto; try congruence.
        exists (EvIter Image c :: lc). repeat split; auto. }
    destruct ready.
    2:{ inversion H; subst; cbn. repeat split; auto; try congruence.
        exists ((EvIter Image c :: lc) ++ [EvSelect Image false]).
        rewrite L2, <- app_assoc. repeat split; auto.
        - intros cur. trace_ok.
        - rewrite retained_app. cbn. rewrite R2. reflexivity. }
    match type of H with
    | (let (_, _) := dequeue_capture_frame env ?s0 in _) = _ =>
        destruct (dequeue_capture_frame env s0) as [r3 s3] eqn:E3
    end.
    apply device_only_eq in E3; [|apply device_only_dequeue_capture_frame].
    destruct E3 as (l3 & L3 & D3 & Q3 & B3). cbn in L3, Q3, B3.
    rewrite L2 in L3. rewrite Q2 in Q3. rewrite B2 in B3.
    assert (Hpre : forall cur,
               Forall (eq (Some (ctrlFrame K)))
                 (control_frames cur
                    (((EvIter Image c :: lc) ++ [EvSelect Image true])
                       ++ l3))).
    { intros cur. trace_ok. }
    assert (Rpre : retained (((EvIter Image c :: lc) ++ [EvSelect Image true])
                               ++ l3) = []).
    { rewrite !retained_app, (retained_device _ D3). cbn. rewrite R2.
      reflexivity. }
    assert (Lpre : log s3 = log s ++ ((EvIter Image c :: lc)
                                        ++ [EvSelect Image true]) ++ l3).
    { rewrite L3, <- !app_assoc. reflexivity. }
    clear L3 F2 R2 L2.
    set (pre := ((EvIter Image c :: lc) ++ [EvSelect Image true]) ++ l3) in *.
    destruct r3 as [[b|]|e].
    3:{ inversion H; subst. repeat split; auto. exists pre; auto. }
    2:{ inversion H; subst. repeat split; auto. exists pre; auto. }
    destruct (Z.eqb_spec c K) as [Ec|Ec]; cbn [negb] in H.
    { inversion H; subst s' r; cbn. repeat split; auto.
      exists (pre ++ [EvRetain Image c (buf_index b)]).
      rewrite Lpre, <- app_assoc. repeat split; auto.
      - intros cur. trace_ok.
      - rewrite retained_app, Rpre. cbn. congruence. }
    match type of H with
    | (let (_, _) := requeue_frame env b ?s0 in _) = _ =>
        destruct (requeue_frame env b s0) as [r4 s4] eqn:E4
    end.
    apply device_only_eq in E4; [|apply device_only_requeue_frame].
    destruct E4 as (l4 & L4 & D4 & Q4 & B4). cbn in L4, Q4, B4.
    rewrite Lpre in L4. rewrite Q3 in Q4.
    assert (Hpre4 : forall cur,
               Forall (eq (Some (ctrlFrame K)))
                 (control_frames cur
                    ((pre ++ [EvDiscard Image c (buf_index b)]) ++ l4))).
    { intros cur. trace_ok. }
    assert (Rpre4 : retained ((pre ++ [EvDiscard Image c (buf_index b)])
                                ++ l4) = []).
    { rewrite !retained_app, (retained_device _ D4), Rpre. reflexivity. }
    assert (Lpre4 : log s4 = log s ++ (pre ++ [EvDiscard Image c (buf_index b)])
                                   ++ l4).
    { rewrite L4, <- !app_assoc. reflexivity. }
    destruct r4 as [[]|e].
    2:{ inversion H; subst. repeat split; auto. eexists; eauto. }
    apply IH in H. destruct H as (Q5 & B5 & l5 & L5 & F5 & R5).
    rewrite Q4 in Q5, F5, R5. fold K in F5, R5.
    repeat split; auto.
    exists (((pre ++ [EvDiscard Image c (buf_index b)]) ++ l4) ++ l5).
    rewrite L5, Lpre4, <- !app_assoc. repeat split; auto.
    + intros cur. rewrite !app_assoc.
      apply control_frames_Forall_app; auto.
    + rewrite !app_assoc, retained_app. rewrite <- !app_assoc.
      rewrite <- !app_assoc in Rpre4. rewrite Rpre4. exact R5.
Qed.

Lemma ctrlFrame_range K : (1 <= K)%Z -> (0 <= ctrlFrame K < K)%Z.
Proof.
  intros HK. unfold ctrlFrame. destruct (Z.ltb_spec 2 K); [|lia].
  split; [apply Z.div_pos; lia|apply Z.div_lt_upper_bound; lia].
Qed.

Section ReadyDevice.

Hypothesis Hopen : forall t, dev_closed env t = false.
Hypothesis Hsel : forall t, select_ready env t = Ok true.
Hypothesis Hio : forall t r, exists n, ioctl env t r = Ok n.

Lemma set_controls_ready s :
  exists s1, set_controls env s = (Ok tt, s1) /\ request s1 = request s /\
    log s1 = log s ++ match controls (request s) with
                      | [] => []
                      | _ => [EvSetControls Image (controls (request s))]
                      end.
Proof.
  unfold set_controls, closed, bind, tick, get, ret, emit, modify.
  cbv beta iota. rewrite Hopen. cbn.
  destruct (controls (request s)); cbn; eexists; repeat split.
  cbn. rewrite app_nil_r. reflexivity.
Qed.

Lemma dequeue_ready s :
  exists i s1, dequeue_capture_frame env s = (Ok (Some (mk_buffer i)), s1).
Proof.
  unfold dequeue_capture_frame, try_except, closed, do_ioctl, bind, tick,
    get, ret, emit, modify.
  cbv beta iota. rewrite Hopen. cbn.
  destruct (Hio (S (clock s)) VIDIOC_DQBUF) as [i Hi]. rewrite Hi.
  eexists; eexists; reflexivity.
Qed.

Lemma requeue_ready b s :
  exists s1, requeue_frame env b s = (Ok tt, s1).
Proof.
  unfold requeue_frame, try_except, closed, do_ioctl, bind, tick,
    get, ret, emit, modify, raise.
  cbv beta iota. rewrite Hopen. cbn.
  destruct (nth_error (buffers s) (buf_index b)); cbn.
  - destruct (Hio (S (clock s)) (VIDIOC_QBUF (buf_index b))) as [i Hi].
    rewrite Hi. eexists; reflexivity.
  - eexists; reflexivity.
Qed.

Lemma reach_loop_ready n : forall c s,
  let K := capFrame (request s) in
  (1 <= K)%Z -> (c + Z.of_nat n = K)%Z ->
  exists l i s',
    reach_loop env (S n) c s = (Ok 0%Z, s') /\
    log s' = log s ++ l ++ [EvRetain Image K i] /\
    bufToSave s' = Some (mk_buffer i) /\
    request s' = request s /\
    retained l = [] /\
    discarded l = map (fun k => (c + Z.of_nat k)%Z) (seq 0 n) /\
    forall cur,
      control_frames cur l =
      if Z.leb c (ctrlFrame K)
         && negb (Nat.eqb (List.length (controls (request s))) 0)
      then [Some (ctrlFrame K)] else [].
Proof.
  induction n as [|n IH]; intros c s K HK Hc.
  - cbn [reach_loop].
    unfold closed, bind, emit, modify, get, ret, tick, raise.
    cbv beta iota. rewrite Hopen.
    cbn [request set_clock]. fold K.
    assert (c = K) by lia. subst c.
    pose proof (ctrlFrame_range HK) as Hcf.
    destruct (Z.eqb_spec K (ctrlFrame K)) as [E|_]; [lia|].
    cbn [clock set_log set_clock]. rewrite Hsel.
    match goal with
    | |- context [dequeue_capture_frame env ?s0] =>
        destruct (dequeue_ready s0) as (i & s3 & E3); rewrite E3;
        apply device_only_eq in E3; [|apply device_only_dequeue_capture_frame]
    end.
    destruct E3 as (l3 & L3 & D3 & Q3 & B3). cbn in L3, Q3.
    rewrite Z.eqb_refl. cbn [negb].
    exists ([EvIter Image K; EvSelect Image true] ++ l3), i.
    eexists. split; [reflexivity|].
    cbn [log set_bufToSave set_log bufToSave request].
    rewrite L3, <- !app_assoc. repeat split; auto.
    + rewrite retained_app, (retained_device _ D3). reflexivity.
    + rewrite discarded_app, (discarded_device _ D3). reflexivity.
    + intros cur. cbn [app control_frames].
      rewrite <- (app_nil_r l3), control_frames_device by exact D3.
      destruct (Z.leb_spec K (ctrlFrame K)); [lia|reflexivity].
  - remember (S n) as m eqn:Em. cbn [reach_loop].
    unfold closed, bind, emit, modify, get, ret, tick, raise.
    cbv beta iota. rewrite Hopen.
    cbn [request set_clock]. fold K.
    pose proof (ctrlFrame_range HK) as Hcf.
    assert (HcK : c <> K) by lia.
    match goal with
    | |- context [(if Z.eqb c (ctrlFrame K) then _ else _) ?s0] =>
        assert (Hs2 : exists s2,
                   (if Z.eqb c (ctrlFrame K) then set_controls env
                    else fun s => (Ok tt, s)) s0 = (Ok tt, s2) /\
                   request s2 = request s /\
                   log s2 = log s ++ EvIter Image c ::
                     (if Z.eqb c (ctrlFrame K) &&
                         negb (Nat.eqb (List.length (controls (request s))) 0)
                      then [EvSetControls Image (controls (request s))]
                      else []))
    end.
    { destruct (Z.eqb c (ctrlFrame K)).
      - match goal with
        | |- context [set_controls env ?s0] =>
            destruct (set_controls_ready s0) as (s2 & E2 & Q2 & L2)
        end.
        exists s2. cbn in Q2, L2. rewrite L2, <- app_assoc.
        repeat split; auto. destruct (controls (request s)); reflexivity.
      - eexists; repeat split. }
    destruct Hs2 as (s2 & E2 & Q2 & L2). rewrite E2.
    rewrite Hsel.
    match goal with
    | |- context [dequeue_capture_frame env ?s0] =>
        destruct (dequeue_ready s0) as (i & s3 & E3); rewrite E3;
        apply device_only_eq in E3; [|apply device_only_dequeue_capture_frame]
    end.
    destruct E3 as (l3 & L3 & D3 & Q3 & B3). cbn in L3, Q3.
    destruct (Z.eqb_spec c K) as [|_]; [contradiction|]. cbn [negb].
    match goal with
    | |- context [requeue_frame env ?b ?s0] =>
        destruct (requeue_ready b s0) as (s4 & E4); rewrite E4;
        apply device_only_eq in E4; [|apply device_only_requeue_frame]
    end.
    destruct E4 as (l4 & L4 & D4 & Q4 & B4). cbn in L4, Q4.
    assert (Q : request s4 = request s) by congruence.
    destruct (IH (c + 1)%Z s4)
      as (l5 & j & s5 & E5 & L5 & S5 & Q5 & R5 & X5 & F5).
    { rewrite Q. exact HK. }
    { rewrite Q. fold K. lia. }
    rewrite Q in L5, F5. fold K in L5, F5.
    rewrite E5.
    set (lc := if Z.eqb c (ctrlFrame K) &&
                  negb (Nat.eqb (List.length (controls (request s))) 0)
               then [EvSetControls Image (controls (request s))]
               else []) in *.
    exists ([EvIter Image c] ++ lc ++ [EvSelect Image true] ++ l3
              ++ [EvDiscard Image c i] ++ l4 ++ l5), j, s5.
    split; [reflexivity|].
    split.
    { rewrite L5, L4, L3, L2, <- !app_assoc. cbn [buf_index]. reflexivity. }
    split; [exact S5|]. split; [congruence|].
    assert (Rlc : retained lc = [])
      by (unfold lc; destruct (_ && _); reflexivity).
    assert (Dlc : discarded lc = [])
      by (unfold lc; destruct (_ && _); reflexivity).
    split.
    { rewrite !retained_app, Rlc, (retained_device _ D3),
        (retained_device _ D4), R5. reflexivity. }
    split.
    { rewrite !discarded_app, Dlc, (discarded_device _ D3),
        (discarded_device _ D4), X5, Em.
      cbn [app seq map discarded]. rewrite Z.add_0_r. f_equal.
      rewrite <- seq_shift, map_map. apply map_ext. intros k. lia. }
    intros cur. cbn [app control_frames].
    assert (Hlc : forall rest : list (event Image),
               control_frames (Some c) (lc ++ EvSelect Image true :: rest)
               = (if Z.eqb c (ctrlFrame K) &&
                     negb (Nat.eqb (List.length (controls (request s))) 0)
                  then [Some c] else []) ++ control_frames None rest).
    { intros rest. unfold lc. destruct (_ && _); reflexivity. }
    rewrite Hlc, control_frames_device by exact D3.
    cbn [control_frames]. rewrite control_frames_device by exact D4.
    rewrite F5.
    destruct (Z.eqb_spec c (ctrlFrame K)) as [E|E];
      destruct (Z.leb_spec c (ctrlFrame K));
      destruct (Z.leb_spec (c + 1) (ctrlFrame K)); try lia;
      destruct (negb _); cbn; congruence.
Qed.

End ReadyDevice.

(** ** Frame selection *)


(** ** Where the controls are written *)


(** ** The broken flag *)

Lemma bind_eq A B (m : C Image A) (k : A -> C Image B) s r s' :
  bind m k s = (r, s') ->
  (exists a s1, m s = (Ok a, s1) /\ k a s1 = (r, s')) \/
  (exists e, m s = (Raise e, s') /\ r = Raise e).
Proof.
  unfold bind. destruct (m s) as [[a|e] s1]; intros H.
  - left; eauto.
  - right; inversion H; subst; eauto.
Qed.

(** Split a piece of the capture cycle into the worker's methods. *)
Ltac worker_ops :=
  repeat first
    [ apply device_only_setup_capture_buffers
    | apply device_only_stream_on
    | apply device_only_stream_off
    | apply device_only_load_image_from_buffer
    | apply device_only_save_frame
    | apply device_only_requeue_frame
    | apply device_only_close_capture_buffers
    | apply device_only_release_capture_buffers
    | device_step ].

Lemma reach_target_frame_any s r s' :
  reach_target_frame env s = (r, s') ->
  request s' = request s /\ (brokenRx s = true -> brokenRx s' = true) /\
  exists l, log s' = log s ++ l /\
    retained l = match r with
                 | Ok z => if Z.eqb z 0 then [capFrame (request s)] else []
                 | Raise _ => []
                 end.
Proof.
  unfold reach_target_frame, bind, get. cbv beta iota.
  destruct (Z.ltb 0 (capFrame (request s))).
  - intros H. apply reach_loop_any in H.
    destruct H as (Q & B & l & L & _ & R). eauto.
  - intros H; inversion H; subst. repeat split; auto.
    exists []; rewrite app_nil_r; auto.
Qed.

(** A cycle that clears the flag has retained the target frame. *)
Lemma run_body_flag s r s' :
  run_body pil env s = (r, s') ->
  request s' = request s /\
  exists l, log s' = log s ++ l /\
    ((brokenRx s = true -> brokenRx s' = true) /\ retained l = [] \/
     retained l = [capFrame (request s)]).
Proof.
  unfold run_body. intros H.
  apply bind_eq in H. destruct H as [([] & s1 & E1 & H)|(e & E1 & ->)];
    (apply device_only_eq in E1; [|apply device_only_setup_capture_buffers]);
    destruct E1 as (l1 & L1 & D1 & Q1 & B1).
  2:{ split; auto. exists l1. split; auto. left.
      split; auto. apply retained_device; auto. }
  unfold bind at 1, get at 1 in H. cbv beta iota in H.
  assert (Hstop : (r, s') = (Ok tt, s1) ->
            request s' = request s /\
            exists l, log s' = log s ++ l /\
              ((brokenRx s = true -> brokenRx s' = true) /\ retained l = [] \/
               retained l = [capFrame (request s)])).
  { intros E; inversion E; subst. split; auto. exists l1. split; auto.
    left. split; auto. apply retained_device; auto. }
  destruct (req s1); [|apply Hstop; symmetry; exact H].
  destruct (Nat.ltb 0 (List.length (buffers s1)));
    [|apply Hstop; symmetry; exact H].
  clear Hstop.
  apply bind_eq in H. destruct H as [([] & s2 & E2 & H)|(e & E2 & ->)];
    (apply device_only_eq in E2; [|apply device_only_stream_on]);
    destruct E2 as (l2 & L2 & D2 & Q2 & B2).
  2:{ split; [congruence|]. exists (l1 ++ l2).
      rewrite L2, L1, app_assoc. split; auto. left.
      split; auto. rewrite retained_app, !retained_device; auto. }
  apply bind_eq in H. destruct H as [(z & s3 & E3 & H)|(e & E3 & ->)];
    apply reach_target_frame_any in E3;
    destruct E3 as (Q3 & B3 & l3 & L3 & R3).
  2:{ split; [congruence|]. exists (l1 ++ l2 ++ l3).
      rewrite L3, L2, L1, <- !app_assoc. split; auto. left.
      split; auto. rewrite !retained_app, R3, !retained_device; auto. }
  assert (Q : request s2 = request s) by congruence. rewrite Q in R3.
  destruct (Z.eqb_spec z 0) as [Ez|Ez].
  - apply device_only_log_eq in H; [|worker_ops].
    destruct H as (l4 & L4 & D4 & Q4).
    split; [congruence|]. exists (l1 ++ l2 ++ l3 ++ l4).
    rewrite L4, L3, L2, L1, <- !app_assoc. split; auto. right.
    rewrite !retained_app, R3, !retained_device; auto.
  - apply device_only_eq in H; [|worker_ops].
    destruct H as (l4 & L4 & D4 & Q4 & B4).
    split; [congruence|]. exists (l1 ++ l2 ++ l3 ++ l4).
    rewrite L4, L3, L2, L1, <- !app_assoc. split; auto. left.
    split; auto. rewrite !retained_app, R3, !retained_device; auto.
Qed.

Lemma guarded_run_body_flag s r s' :
  try_except_all (run_body pil env)
    (fun _ => bind (close_capture_buffers (Image:=Image))
                (fun _ => release_capture_buffers env)) s = (r, s') ->
  request s' = request s /\
  exists l, log s' = log s ++ l /\
    ((brokenRx s = true -> brokenRx s' = true) /\ retained l = [] \/
     retained l = [capFrame (request s)]).
Proof.
  unfold try_except_all.
  destruct (run_body pil env s) as [[[]|e] s1] eqn:E1;
    apply run_body_flag in E1; destruct E1 as (Q1 & l1 & L1 & F1);
    intros H.
  - inversion H; subst. eauto.
  - apply device_only_eq in H; [|worker_ops].
    destruct H as (l2 & L2 & D2 & Q2 & B2).
    split; [congruence|]. exists (l1 ++ l2).
    rewrite L2, L1, app_assoc. split; auto.
    rewrite retained_app, (retained_device _ D2), app_nil_r.
    destruct F1 as [[B1 R1]|R1]; auto.
Qed.

Lemma run_flag s :
  brokenRx s = true -> brokenRx (snd (run pil env s)) = false ->
  exists l, log (snd (run pil env s)) = log s ++ l /\
            retained l = [capFrame (request s)].
Proof.
  intros Hs. destruct (run pil env s) as [r s'] eqn:E. cbn [snd].
  unfold run in E.
  apply bind_eq in E. destruct E as [(a & s0 & Eg & E)|(e & Eg & _)];
    inversion Eg; subst a s0; clear Eg.
  assert (Hmid : forall r1 s1,
             match capDev s with
             | Some _ =>
                 if Z.ltb 0 (capFrame (request s))
                 then try_except_all (run_body pil env)
                        (fun _ =>
                           bind (close_capture_buffers (Image:=Image))
                             (fun _ => release_capture_buffers env))
                 else ret tt
             | None => ret tt
             end s = (r1, s1) ->
             exists l, log s1 = log s ++ l /\
               ((brokenRx s = true -> brokenRx s1 = true) /\ retained l = []
                \/ retained l = [capFrame (request s)])).
  { intros r1 s1 H.
    assert (Hret : ret (Image:=Image) tt s = (r1, s1) ->
              exists l, log s1 = log s ++ l /\
                ((brokenRx s = true -> brokenRx s1 = true) /\
                 retained l = []
                 \/ retained l = [capFrame (request s)])).
    { intros Hr; inversion Hr; subst. exists []. rewrite app_nil_r. auto. }
    destruct (capDev s); [|auto].
    destruct (Z.ltb 0 (capFrame (request s))); [|auto].
    apply guarded_run_body_flag in H. tauto. }
  apply bind_eq in E. destruct E as [([] & s1 & E1 & E)|(e & E1 & _)].
  - inversion E; subst r s'. cbn [brokenRx set_capDev log].
    apply Hmid in E1. destruct E1 as (l & L & [[B R]|R]); intros Hf.
    + rewrite B in Hf; congruence.
    + eauto.
  - apply Hmid in E1. destruct E1 as (l & L & [[B R]|R]); intros Hf.
    + rewrite B in Hf; congruence.
    + eauto.
Qed.


(** ** Frame statistics *)

Lemma mean_stat_mean (l : list R) :
  l <> [] -> mean_stat l = (fold_right Rplus 0 l / INR (List.length l))%R.
Proof.
  intros Hl. unfold mean_stat.
  destruct l as [|x l]; [contradiction|]. cbn [List.length Nat.ltb Nat.leb].
  f_equal. rewrite fold_symmetric; [reflexivity| |]; intros; lra.
Qed.

Lemma compute_frame_statistics_eq (s : State Image) (img hsv : Image)
      (h sat v : R) (rest : list R) :
  theFrame s = Some img ->
  convert_HSV pil img = Ok hsv ->
  stat_mean pil hsv = h :: sat :: v :: rest ->
  compute_frame_statistics pil s
  = (Ok tt,
     set_stats (mk_stats v (mean_stat (stat_stddev pil img)) sat) s).
Proof.
  intros Hf Hc Hm.
  unfold compute_frame_statistics, try_except, bind, get, modify, raise.
  cbv beta iota. rewrite Hf, Hc, Hm. reflexivity.
Qed.

Lemma save_frame_eq (s : State Image) (img hsv : Image)
      (h sat v : R) (rest : list R) :
  theFrame s = Some img ->
  convert_HSV pil img = Ok hsv ->
  stat_mean pil hsv = h :: sat :: v :: rest ->
  exists r s2 l,
    save_frame pil env s = (r, s2) /\
    stats s2 = mk_stats v (mean_stat (stat_stddev pil img)) sat /\
    log s2 = log s ++ l /\
    (l = [] \/
     exists ok,
       l = [EvSave
              (if String.eqb (generate_caption_text env (request s)) ""
               then img
               else draw_caption pil (request s) img
                      (generate_caption_text env (request s))) ok]).
Proof.
  intros Hf Hc Hm.
  unfold save_frame.
  unfold bind at 1, get at 1. cbv beta iota. rewrite Hf.
  unfold bind at 1.
  rewrite (compute_frame_statistics_eq _ Hf Hc Hm).
  set (s1 := set_stats _ s).
  unfold emit. unfold bind, try_except, modify, tick, raise, ret, get.
  cbv beta iota.
  replace (if negb (String.eqb (generate_caption_text env (request s)) "")
           then draw_caption pil (request s) img
                  (generate_caption_text env (request s))
           else img)
    with (if String.eqb (generate_caption_text env (request s)) ""
          then img
          else draw_caption pil (request s) img
                 (generate_caption_text env (request s)))
    by (destruct (String.eqb _ _); reflexivity).
  destruct (save_capture_frame s).
  - destruct (save_raises env _) as [e|].
    + destruct (existsb _ _);
        do 3 eexists; (split; [reflexivity|]); cbn;
        (split; [reflexivity|]); (split; [reflexivity|]); right; eauto.
    + do 3 eexists; (split; [reflexivity|]); cbn;
        (split; [reflexivity|]); (split; [reflexivity|]); right; eauto.
  - do 3 eexists; (split; [reflexivity|]); cbn.
    split; [reflexivity|]. split; [symmetry; apply app_nil_r|]. left.
    reflexivity.
Qed.

(** C8: when the frame converts to HSV and the HSV mean has its three
    bands, saving the frame leaves as brightness the mean of the value band
    of the HSV image, as contrast the mean over the bands of the standard
    deviations of the frame as decoded, and as saturation the mean of the
    saturation band; all three are taken from the frame as decoded, and the
    image handed to [Image.save] afterwards is that frame with the caption
    drawn on it. *)
Theorem statistics_taken_before_caption (s : State Image) (img hsv : Image)
        (h sat v : R) (rest : list R) :
  theFrame s = Some img ->
  convert_HSV pil img = Ok hsv ->
  stat_mean pil hsv = h :: sat :: v :: rest ->
  let s' := snd (save_frame pil env s) in
  frameBrightness (stats s') = v /\
  frameSaturation (stats s') = sat /\
  (stat_stddev pil img <> [] ->
   frameContrast (stats s')
   = (fold_right Rplus 0 (stat_stddev pil img)
      / INR (List.length (stat_stddev pil img)))%R) /\
  stats s' = stats (snd (compute_frame_statistics pil s)) /\
  forall saved ok,
    In (EvSave saved ok) (log s') ->
    In (EvSave saved ok) (log s) \/
    saved = (if String.eqb (generate_caption_text env (request s)) ""
             then img
             else draw_caption pil (request s) img
                    (generate_caption_text env (request s))).
Proof.
  intros Hf Hc Hm s'. subst s'.
  destruct (save_frame_eq _ Hf Hc Hm) as (r & s2 & l & E & St & L & Hl).
  rewrite E, (compute_frame_statistics_eq _ Hf Hc Hm). cbn [snd].
  rewrite St. cbn. repeat split; auto.
  - intros Hn. apply mean_stat_mean. exact Hn.
  - intros saved ok Hin. rewrite L in Hin. apply in_app_or in Hin.
    destruct Hin as [Hin|Hin]; [left; exact Hin|right].
    destruct Hl as [->|[ok' ->]]; [destruct Hin|].
    destruct Hin as [Hin|[]]. inversion Hin. reflexivity.
Qed.

End Capture.

(** ** Sample cycles *)

Section CaptureRuns.

Import captureThread.
Import CaptureSamples.

Lemma ready_env_ioctl t r : exists n, ioctl ready_env t r = Ok n.
Proof. destruct r; eexists; reflexivity. Qed.






(** ** Buffers at the end of a cycle *)

(** C7 (the code departs from the claim) when mapping a buffer raises
    [ValueError]: two buffers are granted, the first is mapped and queued,
    mapping the second raises; [__setup_capture_buffers] closes the mapped
    buffer, and [run] returns with the buffer list empty but without a
    second [VIDIOC_REQBUFS] for zero buffers, so that the device still
    holds the two it granted. *)
Theorem mapping_failure_leaves_buffers_allocated :
  let s' := snd (run toy_pil mmap_failing_env (fresh_worker 5)) in
  fst (run toy_pil mmap_failing_env (fresh_worker 5)) = Ok tt /\
  log s' = [EvIoctl bool (VIDIOC_REQBUFS 0) true;
            EvIoctl bool (VIDIOC_REQBUFS 2) true;
            EvIoctl bool (VIDIOC_QUERYBUF 0) true;
            EvMmap bool 6;
            EvIoctl bool (VIDIOC_QBUF 0) true;
            EvIoctl bool (VIDIOC_QUERYBUF 1) true;
            EvClose bool 6] /\
  buffers s' = [] /\
  still_mapped (log s') = [] /\
  hw_buffers s' = 2%nat /\
  capDev s' = None.
Proof. vm_compute. repeat split; reflexivity. Qed.

Lemma statistics_taken_before_caption_witness :
  theFrame loaded_worker = Some false /\
  let s' := snd (save_frame toy_pil ready_env loaded_worker) in
  frameBrightness (stats s') = 30%R /\
  frameSaturation (stats s') = 20%R /\
  frameContrast (stats s') = ((3 + (6 + (9 + 0))) / INR 3)%R /\
  In (EvSave true true) (log s').
Proof.
  split; [reflexivity|].
  destruct (@statistics_taken_before_caption bool toy_pil ready_env
              loaded_worker false false 10%R 20%R 30%R [])
    as (Hb & Hs & Hc & _ & _); try reflexivity.
  cbv zeta. split; [exact Hb|]. split; [exact Hs|].
  split; [apply Hc; discriminate|].
  vm_compute. left. reflexivity.
Defined.

End CaptureRuns.

(** ** Fractions and the delta law, continued *)

Section FractionsMore.

Import CSDevs.
Local Open Scope R_scope.



(** X2: [__property_value_as_fraction] returns
    [(v - fMin) / (fMax - fMin)] exactly when [fMin < fMax] and [v] lies in
    [[fMin, fMax]]; for every other input (empty or reversed range, value
    outside the range) it raises [ValueError]. *)
Theorem value_as_fraction_defined_exactly (v fMin fMax : R) :
  (fMin < fMax /\ fMin <= v <= fMax ->
   property_value_as_fraction v fMin fMax = Ok ((v - fMin) / (fMax - fMin)))
  /\
  (~ (fMin < fMax /\ fMin <= v <= fMax) ->
   property_value_as_fraction v fMin fMax = Raise ValueError).
Proof.
  unfold property_value_as_fraction, property_range, property_zero_base,
    rbind.
  split.
  - intros [Hlt Hv].
    rewrite (proj2 (Rltb_false fMax fMin)) by lra.
    rewrite (proj2 (Reqb_false (fMax - fMin) 0)) by lra.
    rewrite (proj2 (Rltb_false fMax v)) by lra.
    rewrite (proj2 (Rltb_false v fMin)) by lra.
    reflexivity.
  - intros Hn.
    destruct (Rltb fMax fMin) eqn:E1.
    + apply Rltb_true in E1.
      destruct (Reqb (fMin - fMax) 0); [reflexivity|].
      destruct (Rltb fMax v) eqn:E2; [reflexivity|].
      apply Rltb_false in E2. cbn.
      rewrite (proj2 (Rltb_true v fMin)) by lra. reflexivity.
    + apply Rltb_false in E1.
      destruct (Reqb (fMax - fMin) 0) eqn:E0; [reflexivity|].
      apply Reqb_false in E0.
      destruct (Rltb fMax v) eqn:E2; [reflexivity|].
      apply Rltb_false in E2. cbn.
      destruct (Rltb v fMin) eqn:E3; [reflexivity|].
      apply Rltb_false in E3. exfalso. apply Hn. lra.
Qed.

Lemma value_as_fraction_defined_exactly_witness :
  property_value_as_fraction 64 0 255 = Ok ((64 - 0) / (255 - 0)) /\
  property_value_as_fraction 64 255 0 = Raise ValueError /\
  property_value_as_fraction 300 0 255 = Raise ValueError.
Proof.
  split; [|split].
  - apply (@value_as_fraction_defined_exactly 64 0 255). lra.
  - apply (@value_as_fraction_defined_exactly 64 255 0). lra.
  - apply (@value_as_fraction_defined_exactly 300 0 255). lra.
Defined.

(** X3: whenever the delta law returns a delta, the delta has the sign of
    the frame error: not negative when the frame value is below the target,
    negative when it is above, and zero when the frame is on target. *)
Theorem compute_applied_delta_direction (frm tgt ctrl p d : R) :
  0 < p ->
  compute_applied_delta frm tgt ctrl p = Ok d ->
  (frm < tgt -> 0 <= d) /\ (tgt < frm -> d < 0) /\ (frm = tgt -> d = 0).
Proof.
  intros Hp H.
  assert (Hfr : (0 <= frm <= 1) /\ (0 <= tgt <= 1) /\ (0 <= ctrl <= 1)).
  { unfold compute_applied_delta in H.
    destruct (is_frac frm) eqn:E1; [|discriminate].
    destruct (is_frac tgt) eqn:E2; [|discriminate].
    destruct (is_frac ctrl) eqn:E3; [|discriminate].
    apply is_frac_true in E1, E2, E3. auto. }
  destruct Hfr as (Hf & Ht & Hc).
  destruct (Rle_dec frm tgt) as [Hle|Hgt].
  - rewrite (compute_applied_delta_up p Hf Ht Hc Hle) in H.
    injection H as <-.
    pose proof (pow_nonneg p (x := tgt - frm) ltac:(lra)) as Hpow.
    repeat split.
    + intros _. destruct (Rltb _ _); lra.
    + intros; lra.
    + intros ->. replace (tgt - tgt) with 0 by lra.
      rewrite pow_0 by lra.
      rewrite (proj2 (Rltb_false 1 (ctrl + 0))) by lra. reflexivity.
  - rewrite (compute_applied_delta_down Hf Ht Hc ltac:(lra) Hp) in H.
    injection H as <-.
    pose proof (pow_pos p (x := frm - tgt) ltac:(lra)) as Hpow.
    repeat split; intros; lra.
Qed.

Lemma compute_applied_delta_direction_witness :
  exists d, compute_applied_delta (1 / 4) (3 / 4) (1 / 5) (105 / 100) = Ok d /\
            0 <= d.
Proof.
  assert (Hf : 0 <= 1 / 4 <= 1) by lra.
  assert (Ht : 0 <= 3 / 4 <= 1) by lra.
  assert (Hc : 0 <= 1 / 5 <= 1) by lra.
  assert (Hle : 1 / 4 <= 3 / 4) by lra.
  eexists. split; [apply (compute_applied_delta_up (105 / 100) Hf Ht Hc Hle)|].
  apply (@compute_applied_delta_direction (1 / 4) (3 / 4) (1 / 5) (105 / 100));
    [lra|apply (compute_applied_delta_up (105 / 100) Hf Ht Hc Hle)|lra].
Defined.

(** X4: whenever the delta law returns a delta, the delta never takes the
    control fraction above 1 and is never larger than 1 in absolute
    value. *)
Theorem compute_applied_delta_never_above_one (frm tgt ctrl p d : R) :
  0 < p ->
  compute_applied_delta frm tgt ctrl p = Ok d ->
  ctrl + d <= 1 /\ Rabs d <= 1.
Proof.
  intros Hp H.
  assert (Hfr : (0 <= frm <= 1) /\ (0 <= tgt <= 1) /\ (0 <= ctrl <= 1)).
  { unfold compute_applied_delta in H.
    destruct (is_frac frm) eqn:E1; [|discriminate].
    destruct (is_frac tgt) eqn:E2; [|discriminate].
    destruct (is_frac ctrl) eqn:E3; [|discriminate].
    apply is_frac_true in E1, E2, E3. auto. }
  destruct Hfr as (Hf & Ht & Hc).
  destruct (Rle_dec frm tgt) as [Hle|Hgt].
  - rewrite (compute_applied_delta_up p Hf Ht Hc Hle) in H.
    injection H as <-.
    pose proof (pow_nonneg p (x := tgt - frm) ltac:(lra)) as Hpow.
    pose proof (@pow_le_1 (tgt - frm) p Hp ltac:(lra)) as Hup.
    destruct (Rltb 1 (ctrl + Py.pow (tgt - frm) p)) eqn:E.
    + split; [lra|]. apply Rabs_le. lra.
    + apply Rltb_false in E. split; [lra|]. apply Rabs_le. lra.
  - rewrite (compute_applied_delta_down Hf Ht Hc ltac:(lra) Hp) in H.
    injection H as <-.
    pose proof (pow_nonneg p (x := frm - tgt) ltac:(lra)) as Hpow.
    pose proof (@pow_le_1 (frm - tgt) p Hp ltac:(lra)) as Hup.
    split; [lra|]. apply Rabs_le. lra.
Qed.

(** The damping power that the tuner uses is one of 1.05, 1.1, 1.15 and
    1.2. *)
Lemma get_control_tune_power_range s imgProp name pref :
  105 / 100 <= get_control_tune_power s imgProp name pref <= 12 / 10.
Proof.
  unfold get_control_tune_power.
  destruct (String.eqb (lastTOD s) kTuneDay);
    repeat match goal with
           | |- context [if ?b then _ else _] => destruct b
           end; lra.
Qed.

(** X5: with the damping power that [__get_control_tune_power] chooses,
    the delta that the delta law returns is never larger in absolute value
    than the frame error it answers. *)
Theorem tuner_delta_is_damped (s : CSDevs) (imgProp name : string)
        (pref : bool) (frm tgt ctrl d : R) :
  compute_applied_delta frm tgt ctrl
    (get_control_tune_power s imgProp name pref) = Ok d ->
  Rabs d <= Rabs (tgt - frm).
Proof.
  pose proof (get_control_tune_power_range s imgProp name pref) as Hp.
  set (p := get_control_tune_power s imgProp name pref) in *.
  intros H.
  assert (Hfr : (0 <= frm <= 1) /\ (0 <= tgt <= 1) /\ (0 <= ctrl <= 1)).
  { unfold compute_applied_delta in H.
    destruct (is_frac frm) eqn:E1; [|discriminate].
    destruct (is_frac tgt) eqn:E2; [|discriminate].
    destruct (is_frac ctrl) eqn:E3; [|discriminate].
    apply is_frac_true in E1, E2, E3. auto. }
  destruct Hfr as (Hf & Ht & Hc).
  assert (Hdamp : forall x, 0 <= x <= 1 -> 0 <= Py.pow x p <= x).
  { intros x Hx. split; [apply pow_nonneg; lra|].
    destruct (Req_dec_T x 0) as [->|Hx0].
    - rewrite pow_0; lra.
    - apply pow_upper; lra. }
  destruct (Rle_dec frm tgt) as [Hle|Hgt].
  - rewrite (compute_applied_delta_up p Hf Ht Hc Hle) in H.
    injection H as <-.
    pose proof (Hdamp (tgt - frm) ltac:(lra)) as Hpow.
    rewrite (Rabs_right (tgt - frm)) by lra.
    destruct (Rltb 1 (ctrl + Py.pow (tgt - frm) p)) eqn:E.
    + apply Rltb_true in E. apply Rabs_le. lra.
    + apply Rabs_le. lra.
  - assert (Hlt : tgt < frm) by lra.
    assert (Hp0 : 0 < p) by lra.
    rewrite (compute_applied_delta_down Hf Ht Hc Hlt Hp0) in H.
    injection H as <-.
    pose proof (Hdamp (frm - tgt) ltac:(lra)) as Hpow.
    rewrite (Rabs_left (tgt - frm)) by lra.
    apply Rabs_le. lra.
Qed.

Lemma compute_applied_delta_never_above_one_witness :
  exists d, compute_applied_delta (1 / 4) (3 / 4) (1 / 5) (105 / 100) = Ok d /\
            1 / 5 + d <= 1 /\ Rabs d <= 1.
Proof.
  assert (Hf : 0 <= 1 / 4 <= 1) by lra.
  assert (Ht : 0 <= 3 / 4 <= 1) by lra.
  assert (Hc : 0 <= 1 / 5 <= 1) by lra.
  assert (Hle : 1 / 4 <= 3 / 4) by lra.
  eexists. split; [apply (compute_applied_delta_up (105 / 100) Hf Ht Hc Hle)|].
  apply (@compute_applied_delta_never_above_one (1 / 4) (3 / 4) (1 / 5)
           (105 / 100));
    [lra|apply (compute_applied_delta_up (105 / 100) Hf Ht Hc Hle)].
Defined.

Lemma tuner_delta_is_damped_witness :
  exists d,
    compute_applied_delta (1 / 4) (3 / 4) (1 / 5)
      (get_control_tune_power Samples.dim_state "Brightness" "Gain" true)
    = Ok d /\
    Rabs d <= Rabs (3 / 4 - 1 / 4).
Proof.
  assert (Hf : 0 <= 1 / 4 <= 1) by lra.
  assert (Ht : 0 <= 3 / 4 <= 1) by lra.
  assert (Hc : 0 <= 1 / 5 <= 1) by lra.
  assert (Hle : 1 / 4 <= 3 / 4) by lra.
  eexists. split; [apply (compute_applied_delta_up _ Hf Ht Hc Hle)|].
  apply (@tuner_delta_is_damped Samples.dim_state "Brightness" "Gain" true
           (1 / 4) (3 / 4) (1 / 5)).
  apply (compute_applied_delta_up _ Hf Ht Hc Hle).
Defined.

End FractionsMore.

(** ** The range of a tuned value *)

Section TuneRange.

Import CSDevs.
Import Samples.
Local Open Scope R_scope.

Lemma Zceil_IZR z : Zceil (IZR z) = z.
Proof. unfold Zceil. rewrite <- opp_IZR, ZfloorZ. lia. Qed.

(** Truncation keeps a value between two integers. *)
Lemma int_between (a b : Z) (x : R) :
  IZR a <= x <= IZR b -> (a <= Py.int x <= b)%Z.
Proof.
  intros [Ha Hb]. unfold Py.int. destruct (Rle_dec 0 x).
  - split; [apply Zfloor_lub; exact Ha|].
    apply le_IZR. pose proof (Zfloor_bound x). lra.
  - split.
    + apply le_IZR. pose proof (Zceil_bound x). lra.
    + rewrite <- (Zceil_IZR b). apply Zceil_le. exact Hb.
Qed.

Lemma limit_property_value_in_range v mn mx :
  mn <= mx -> mn <= limit_property_value_to_range v mn mx <= mx.
Proof.
  intros H. unfold limit_property_value_to_range.
  destruct (Rltb v mn) eqn:E1; [lra|]. apply Rltb_false in E1.
  destruct (Rltb mx v) eqn:E2; [lra|]. apply Rltb_false in E2. lra.
Qed.

Lemma rbind_ok A B (r : result A) (k : A -> result B) b :
  rbind r k = Ok b -> exists a, r = Ok a /\ k a = Ok b.
Proof. destruct r; cbn; [eauto|discriminate]. Qed.

Lemma tune_integer_control_in_range aCtrl qCtrl vFrame tFrame rFrame dNeg
      p u k v :
  (qc_minimum qCtrl <= qc_maximum qCtrl)%Z ->
  tune_integer_control aCtrl qCtrl vFrame tFrame rFrame dNeg None None p u k
  = Ok v ->
  (qc_minimum qCtrl <= v <= qc_maximum qCtrl)%Z.
Proof.
  intros Hmm H. unfold tune_integer_control in H.
  apply rbind_ok in H. destruct H as (valFrac & _ & H).
  apply rbind_ok in H. destruct H as (tgtFrac & _ & H).
  apply rbind_ok in H. destruct H as (ctrlFrac & _ & H).
  apply rbind_ok in H. destruct H as (expFrac0 & _ & H).
  apply rbind_ok in H. destruct H as ([dCtrlFrac vCtrlNew] & _ & H).
  injection H as <-.
  apply int_between. apply limit_property_value_in_range.
  apply IZR_le. exact Hmm.
Qed.

(** X6: when a tuning step on a control of the current camera returns a
    new value (no caller limits), the value lies within the range
    [[minimum, maximum]] that the device reports for the control. *)
Theorem tuned_value_within_device_range (ctrlID : Z) (vFrame tFrame rFrame : R)
        (rCtrlForce : Z) (dNeg : bool) (imgProp : string) (s s' : CSDevs)
        (qCtrl : v4l2_queryctrl) (v : Z) :
  get_current_camera_control_by_ID s ctrlID = Some qCtrl ->
  (qc_minimum qCtrl <= qc_maximum qCtrl)%Z ->
  tune_control_value_by_ID ctrlID vFrame tFrame rFrame rCtrlForce dNeg
    None None imgProp s = (Done (Some v), s') ->
  (qc_minimum qCtrl <= v <= qc_maximum qCtrl)%Z.
Proof.
  intros Hq Hmm H. unfold tune_control_value_by_ID in H.
  rewrite Hq in H.
  destruct (setting_control_by_ID s ctrlID) as [aCtrl|]; [|discriminate].
  destruct (is_integer_type (qc_type qCtrl)); [|discriminate].
  match type of H with
  | match ?t with _ => _ end = _ => destruct t as [v0|e] eqn:E
  end; [|discriminate].
  injection H as <- _.
  eapply tune_integer_control_in_range; eauto.
Qed.

Lemma shared_gain_tune :
  tune_control_value_by_ID 1 129 180 256 0 false None None "Brightness"
    shared_gain_state
  = (Done (Some 92%Z), set_random_pos 1 shared_gain_state).
Proof.
  unfold tune_control_value_by_ID.
  change (setting_control_by_ID shared_gain_state 1)
    with (Some (mk_control 1 80)).
  change (get_current_camera_control_by_ID shared_gain_state 1)
    with (Some gain).
  cbv beta iota.
  change (is_integer_type (qc_type gain)) with true. cbv iota.
  change (preferred_target_by_property shared_gain_state "Brightness" false)
    with 170.
  change (preferred_target_by_property shared_gain_state "Brightness" true)
    with 190.
  rewrite (proj2 (Rltb_true 129 170)) by lra. cbn [orb].
  change (get_control_tune_power shared_gain_state "Brightness"
            (qc_name gain) true) with (105 / 100).
  change (random_uniform (camera shared_gain_state)
            (random_pos shared_gain_state)) with (1 / 8).
  change (random_randint (camera shared_gain_state)
            (random_pos shared_gain_state)) with 1%Z.
  rewrite (@tune_integer_control_from_129 (mk_control 1 80) gain)
    by reflexivity.
  reflexivity.
Qed.

Lemma tuned_value_within_device_range_witness :
  (qc_minimum gain <= 92 <= qc_maximum gain)%Z.
Proof.
  apply (@tuned_value_within_device_range 1 129 180 256 0 false "Brightness"
           shared_gain_state (set_random_pos 1 shared_gain_state) gain 92).
  - reflexivity.
  - cbn. lia.
  - apply shared_gain_tune.
Defined.

End TuneRange.

(** ** The size of a tuning step *)

Section StepSize.

Import CSDevs.
Local Open Scope R_scope.

Lemma value_as_fraction_out_of_range v fMin fMax :
  fMin < fMax -> v < fMin \/ fMax < v ->
  property_value_as_fraction v fMin fMax = Raise ValueError.
Proof.
  intros Hlt Hv.
  unfold property_value_as_fraction, property_range, property_zero_base,
    rbind.
  rewrite (proj2 (Rltb_false fMax fMin)) by lra.
  rewrite (proj2 (Reqb_false (fMax - fMin) 0)) by lra.
  destruct (Rltb fMax v) eqn:E2; [reflexivity|].
  apply Rltb_false in E2. cbn.
  rewrite (proj2 (Rltb_true v fMin)) by lra. reflexivity.
Qed.

(** X7: for a range [fMin < fMax], the conversion with the fall-back to
    the ends that the tuner uses never raises: it returns the fraction of
    a value inside the range, 0 for a value at or below the range and 1
    for a value at or above it, always within [0, 1]. *)
Theorem value_as_fraction_or_end_total (v fMin fMax : R) :
  fMin < fMax ->
  exists f, value_as_fraction_or_end v fMin fMax = Ok f /\
            0 <= f <= 1 /\
            (v <= fMin -> f = 0) /\ (fMax <= v -> f = 1) /\
            (fMin <= v <= fMax -> f = (v - fMin) / (fMax - fMin)).
Proof.
  intros Hlt.
  destruct (Rle_dec fMin v) as [Hlo|Hlo];
    [destruct (Rle_dec v fMax) as [Hhi|Hhi]|].
  - rewrite value_as_fraction_in_range by lra.
    eexists. split; [reflexivity|].
    assert (Hd : 0 < fMax - fMin) by lra.
    assert (H0 : 0 <= (v - fMin) / (fMax - fMin)).
    { apply Rle_mult_inv_pos; lra. }
    assert (H1 : (v - fMin) / (fMax - fMin) <= 1).
    { apply Rmult_le_reg_r with (fMax - fMin); [exact Hd|].
      unfold Rdiv. rewrite Rmult_assoc, Rinv_l by lra. lra. }
    repeat split; try assumption.
    + intros Hv. replace v with fMin by lra. unfold Rdiv.
      rewrite Rminus_diag. lra.
    + intros Hv. replace v with fMax by lra. unfold Rdiv.
      apply Rinv_r. lra.
  - unfold value_as_fraction_or_end.
    rewrite value_as_fraction_out_of_range by lra.
    rewrite (proj2 (Rltb_false v fMin)) by lra.
    rewrite (proj2 (Rltb_true fMax v)) by lra.
    exists 1. repeat split; lra.
  - unfold value_as_fraction_or_end.
    rewrite value_as_fraction_out_of_range by lra.
    rewrite (proj2 (Rltb_true v fMin)) by lra.
    exists 0. repeat split; lra.
Qed.

Lemma value_as_fraction_or_end_total_witness :
  exists f, value_as_fraction_or_end 300 1 256 = Ok f /\
            0 <= f <= 1 /\
            (300 <= 1 -> f = 0) /\ (256 <= 300 -> f = 1) /\
            (1 <= 300 <= 256 -> f = (300 - 1) / (256 - 1)).
Proof. apply (@value_as_fraction_or_end_total 300 1 256). lra. Defined.

(** Truncation toward zero, by the sign of the argument. *)
Lemma int_spec x :
  (0 <= x /\ (0 <= Py.int x)%Z /\
   IZR (Py.int x) <= x < IZR (Py.int x) + 1) \/
  (x < 0 /\ (Py.int x <= 0)%Z /\
   IZR (Py.int x) - 1 < x <= IZR (Py.int x)).
Proof.
  unfold Py.int. destruct (Rle_dec 0 x) as [H|H]; [left|right].
  - split; [exact H|]. split; [apply Zfloor_lub; exact H|].
    apply Zfloor_bound.
  - split; [lra|]. split.
    + assert (E : Zceil (IZR 0) = 0%Z).
      { unfold Zceil. rewrite <- opp_IZR, ZfloorZ. lia. }
      apply Z.le_trans with (Zceil (IZR 0)); [|rewrite E; lia].
      apply Zceil_le. lra.
    + pose proof (Zceil_bound x). lra.
Qed.

Lemma int_mono x y : x <= y -> (Py.int x <= Py.int y)%Z.
Proof.
  intros Hxy.
  destruct (Z_le_gt_dec (Py.int x) (Py.int y)) as [H|H]; [exact H|exfalso].
  assert (Hr : IZR (Py.int y) + 1 <= IZR (Py.int x)).
  { rewrite <- plus_IZR. apply IZR_le. lia. }
  destruct (int_spec x) as [(Hx & Zx & Bx)|(Hx & Zx & Bx)];
    destruct (int_spec y) as [(Hy & Zy & By)|(Hy & Zy & By)];
    try lra; lia.
Qed.

Lemma int_succ x : (Py.int (x + 1) <= Py.int x + 1)%Z.
Proof.
  destruct (Z_le_gt_dec (Py.int (x + 1)) (Py.int x + 1)) as [H|H];
    [exact H|exfalso].
  assert (Hr : IZR (Py.int x) + 2 <= IZR (Py.int (x + 1))).
  { rewrite <- plus_IZR. apply IZR_le. lia. }
  destruct (int_spec x) as [(Hx & Zx & Bx)|(Hx & Zx & Bx)];
    destruct (int_spec (x + 1)) as [(Hy & Zy & By)|(Hy & Zy & By)];
    lra.
Qed.

Lemma int_pred x : (Py.int x - 1 <= Py.int (x - 1))%Z.
Proof.
  pose proof (int_succ (x - 1)) as H.
  replace (x - 1 + 1) with x in H by lra. lia.
Qed.

Lemma limit_delta_near (x : R) (value L : Z) :
  (0 <= L)%Z ->
  IZR (value - L) <= limit_delta x value L <= IZR (value + L).
Proof.
  intros HL. unfold limit_delta.
  assert (H0 : 0 <= IZR L) by (apply IZR_le; exact HL).
  rewrite minus_IZR, plus_IZR.
  destruct (Rltb (IZR L) (Rabs (x - IZR value))) eqn:E.
  - destruct (Rleb (IZR value) x); rewrite ?minus_IZR, ?plus_IZR; lra.
  - apply Rltb_false in E.
    unfold Rabs in E. destruct (Rcase_abs (x - IZR value)); lra.
Qed.

Lemma nudge_cases (x : R) (iv : Z) (a b c d : R) :
  nudge x iv a b c d = x \/
  (Py.int x = iv /\ (nudge x iv a b c d = x + 1 \/ nudge x iv a b c d = x - 1)).
Proof.
  unfold nudge. destruct (Z.eqb_spec (Py.int x) iv) as [E|E]; [|auto].
  destruct (negb (Reqb a b)).
  - destruct (Rltb b a); auto.
  - destruct (negb (Reqb c d)); [|auto].
    destruct (Rltb d c); auto.
Qed.

Lemma clamp_between (y lo hi v : R) :
  lo <= v <= hi ->
  (y <= limit_property_value_to_range y lo hi <= v) \/
  (v <= limit_property_value_to_range y lo hi <= y).
Proof.
  intros Hv. unfold limit_property_value_to_range.
  destruct (Rltb y lo) eqn:E1.
  - apply Rltb_true in E1. left. lra.
  - apply Rltb_false in E1. destruct (Rltb hi y) eqn:E2.
    + apply Rltb_true in E2. right. lra.
    + apply Rltb_false in E2. destruct (Rle_dec y v); [left|right]; lra.
Qed.

Lemma ctrl_delta_limit_bounds (mn mx u : R) (k : Z) :
  0 <= u <= 15 / 100 -> (0 <= k <= 15)%Z ->
  (0 <= ctrl_delta_limit mn mx u k <= 15)%Z.
Proof.
  intros Hu Hk. unfold ctrl_delta_limit.
  destruct (Reqb mn mx); [lia|].
  match goal with
  | |- context [Rltb 15 ?r] => set (rng := r)
  end.
  destruct (Rltb 15 rng) eqn:E1; [|lia].
  apply Rltb_true in E1.
  destruct (Rleb rng 100) eqn:E2; [|exact Hk].
  apply Rleb_true in E2.
  assert (H : IZR 0 <= rng * u <= IZR 15) by (cbn; split; nra).
  destruct (int_spec (rng * u)) as [(Hx & Zx & Bx)|(Hx & Zx & Bx)].
  - split; [exact Zx|]. apply le_IZR. cbn in H. lra.
  - cbn in H. lra.
Qed.

(** X8: one tuning step (no caller limits) on a control that stands
    within its device range, with the random answers in the ranges the
    source asks for, never moves the control by more than the larger of 1
    and the step cap, and the cap is at most 15. *)
Theorem tuning_step_is_capped (aCtrl : v4l2_control) (qCtrl : v4l2_queryctrl)
        (vFrame tFrame rFrame : R) (dNeg : bool) (p u : R) (k v : Z) :
  (qc_minimum qCtrl <= ctrl_value aCtrl <= qc_maximum qCtrl)%Z ->
  0 <= u <= 15 / 100 -> (0 <= k <= 15)%Z ->
  tune_integer_control aCtrl qCtrl vFrame tFrame rFrame dNeg None None p u k
  = Ok v ->
  let cap := ctrl_delta_limit (IZR (qc_minimum qCtrl))
               (IZR (qc_maximum qCtrl)) u k in
  (Z.abs (v - ctrl_value aCtrl) <= Z.max 1 cap)%Z /\ (cap <= 15)%Z.
Proof.
  intros Hin Hu Hk H cap.
  pose proof (ctrl_delta_limit_bounds (IZR (qc_minimum qCtrl))
                (IZR (qc_maximum qCtrl)) Hu Hk) as Hcap.
  fold cap in Hcap. split; [|lia].
  set (value := ctrl_value aCtrl) in *.
  assert (HinR : IZR (qc_minimum qCtrl) <= IZR value
                 <= IZR (qc_maximum qCtrl)).
  { split; apply IZR_le; lia. }
  unfold tune_integer_control in H.
  apply rbind_ok in H. destruct H as (valFrac & _ & H).
  apply rbind_ok in H. destruct H as (tgtFrac & _ & H).
  apply rbind_ok in H. destruct H as (ctrlFrac & _ & H).
  apply rbind_ok in H. destruct H as (expFrac0 & _ & H).
  apply rbind_ok in H. destruct H as ([dCtrlFrac vCtrlNew] & Hstep & H).
  injection H as <-.
  fold value in Hstep. fold cap in Hstep.
  assert (Hnear : IZR (value - Z.max 1 cap) <= vCtrlNew
                  <= IZR (value + Z.max 1 cap)).
  { match type of Hstep with
    | (if ?b then _ else _) = _ => destruct b
    end.
    - apply rbind_ok in Hstep. destruct Hstep as (w & _ & Hw).
      injection Hw as _ <-.
      pose proof (@limit_delta_near w value cap (proj1 Hcap)) as Hl.
      split.
      + eapply Rle_trans; [|apply Hl]. apply IZR_le. lia.
      + eapply Rle_trans; [apply Hl|]. apply IZR_le. lia.
    - injection Hstep as _ <-. split; apply IZR_le; lia. }
  match goal with
  | |- context [nudge vCtrlNew ?iv ?a ?b ?c ?d] =>
      destruct (nudge_cases vCtrlNew iv a b c d) as [En|(Ei & En)];
        set (y := nudge vCtrlNew iv a b c d) in *
  end.
  - (* the value was not forced by one *)
    destruct (clamp_between y HinR) as [Hc|Hc]; rewrite En in Hc.
    + assert (Hb : (value - Z.max 1 cap
                    <= Py.int (limit_property_value_to_range vCtrlNew
                                 (IZR (qc_minimum qCtrl))
                                 (IZR (qc_maximum qCtrl)))
                    <= value)%Z).
      { rewrite <- En. apply int_between. rewrite En. lra. }
      rewrite En. lia.
    + assert (Hb : (value
                    <= Py.int (limit_property_value_to_range vCtrlNew
                                 (IZR (qc_minimum qCtrl))
                                 (IZR (qc_maximum qCtrl)))
                    <= value + Z.max 1 cap)%Z).
      { apply int_between. lra. }
      rewrite En. lia.
  - (* forced by one from a value that truncates to the current one *)
    fold value in Ei.
    assert (Hy : (value - 1 <= Py.int y <= value + 1)%Z).
    { destruct En as [En|En]; rewrite En.
      - pose proof (int_succ vCtrlNew).
        pose proof (@int_mono vCtrlNew (vCtrlNew + 1) ltac:(lra)). lia.
      - pose proof (int_pred vCtrlNew).
        pose proof (@int_mono (vCtrlNew - 1) vCtrlNew ltac:(lra)). lia. }
    destruct (clamp_between y HinR) as [Hc|Hc].
    + pose proof (int_mono (proj1 Hc)) as H1.
      pose proof (int_mono (proj2 Hc)) as H2.
      rewrite int_IZR in H2. lia.
    + pose proof (int_mono (proj1 Hc)) as H1.
      pose proof (int_mono (proj2 Hc)) as H2.
      rewrite int_IZR in H1. lia.
Qed.

Lemma tuning_step_is_capped_witness :
  let cap := ctrl_delta_limit (IZR (qc_minimum Samples.gain))
               (IZR (qc_maximum Samples.gain)) (1 / 8) 1 in
  (Z.abs (92 - ctrl_value (mk_control 1 80)) <= Z.max 1 cap)%Z /\
  (cap <= 15)%Z.
Proof.
  apply (@tuning_step_is_capped (mk_control 1 80) Samples.gain 129 180 256
           false (105 / 100) (1 / 8) 1 92).
  - cbn. lia.
  - lra.
  - lia.
  - apply tune_integer_control_from_129; reflexivity.
Defined.

End StepSize.

(** ** Pending settings of the main window *)

Section PendingSettings.

Import CSDevs.

Lemma find_id_app (l l' : list v4l2_control) (i : Z) :
  find (fun c => Z.eqb (ctrl_id c) i) (l ++ l')
  = match find (fun c => Z.eqb (ctrl_id c) i) l with
    | Some c => Some c
    | None => find (fun c => Z.eqb (ctrl_id c) i) l'
    end.
Proof.
  induction l as [|x l IH]; [reflexivity|]. cbn.
  destruct (Z.eqb (ctrl_id x) i); [reflexivity|exact IH].
Qed.

Lemma find_id_none (l : list v4l2_control) (i : Z) :
  ~ In i (map ctrl_id l) -> find (fun c => Z.eqb (ctrl_id c) i) l = None.
Proof.
  induction l as [|x l IH]; [reflexivity|]. cbn. intros Hn.
  destruct (Z.eqb_spec (ctrl_id x) i) as [E|E]; [tauto|].
  apply IH. tauto.
Qed.

Lemma find_id_some (l : list v4l2_control) (i : Z) c :
  find (fun c => Z.eqb (ctrl_id c) i) l = Some c ->
  ctrl_id c = i /\ In c l.
Proof.
  intros H. apply find_some in H. destruct H as [Hin He].
  apply Z.eqb_eq in He. auto.
Qed.

Lemma remove_first_other (l : list v4l2_control) (i j : Z) :
  j <> i ->
  find (fun c => Z.eqb (ctrl_id c) j) (remove_first i l)
  = find (fun c => Z.eqb (ctrl_id c) j) l.
Proof.
  intros Hne. induction l as [|x l IH]; [reflexivity|]. cbn.
  destruct (Z.eqb_spec (ctrl_id x) i) as [E|E].
  - destruct (Z.eqb_spec (ctrl_id x) j) as [E'|E']; [congruence|reflexivity].
  - cbn. rewrite IH. reflexivity.
Qed.

Lemma remove_first_ids (l : list v4l2_control) (i : Z) :
  forall j, In j (map ctrl_id (remove_first i l)) -> In j (map ctrl_id l).
Proof.
  induction l as [|x l IH]; [auto|]. cbn. intros j.
  destruct (Z.eqb (ctrl_id x) i); cbn; [auto|].
  intros [H|H]; auto.
Qed.

Lemma remove_first_nodup (l : list v4l2_control) (i : Z) :
  NoDup (map ctrl_id l) ->
  NoDup (map ctrl_id (remove_first i l)) /\
  ~ In i (map ctrl_id (remove_first i l)).
Proof.
  induction l as [|x l IH]; cbn; intros Hnd.
  - split; [constructor|tauto].
  - inversion Hnd as [|? ? Hx Hl]; subst.
    destruct (Z.eqb_spec (ctrl_id x) i) as [E|E].
    + subst i. auto.
    + destruct (IH Hl) as [H1 H2]. cbn. split.
      * constructor; [|exact H1]. intros Hin. apply Hx.
        eapply remove_first_ids; eauto.
      * intros [H|H]; [congruence|tauto].
Qed.

Lemma remove_first_absent (l : list v4l2_control) (i : Z) :
  ~ In i (map ctrl_id l) -> remove_first i l = l.
Proof.
  induction l as [|x l IH]; [reflexivity|]. cbn. intros Hn.
  destruct (Z.eqb_spec (ctrl_id x) i) as [E|E]; [tauto|].
  rewrite IH; tauto.
Qed.

Lemma controls_after_remove (ctrlID : Z) (s : CSDevs) :
  controls (remove_control_setting_by_ID ctrlID s)
  = remove_first ctrlID (controls s).
Proof.
  unfold remove_control_setting_by_ID, setting_control_by_ID.
  destruct (find _ (controls s)) as [c|] eqn:E.
  - apply find_id_some in E. destruct E as [-> _]. reflexivity.
  - symmetry. apply remove_first_absent. intros Hin.
    apply in_map_iff in Hin. destruct Hin as (c & Hc & Hin).
    apply (find_none _ _ E) in Hin. cbn in Hin.
    apply Z.eqb_neq in Hin. congruence.
Qed.


(** X10: when no two pending settings share a control ID, removing the
    setting of a control makes the lookup of that ID return nothing, leaves
    the lookup of every other ID as it was and keeps the IDs unique;
    removing an ID that has no setting changes nothing. *)
Theorem remove_control_setting_then_lookup (ctrlID : Z) (s : CSDevs) :
  NoDup (map ctrl_id (controls s)) ->
  let s' := remove_control_setting_by_ID ctrlID s in
  setting_control_by_ID s' ctrlID = None /\
  (forall other, other <> ctrlID ->
     setting_control_by_ID s' other = setting_control_by_ID s other) /\
  NoDup (map ctrl_id (controls s')) /\
  (setting_control_by_ID s ctrlID = None -> s' = s).
Proof.
  intros Hnd s'. subst s'. unfold setting_control_by_ID at 1 2.
  rewrite controls_after_remove.
  destruct (@remove_first_nodup (controls s) ctrlID Hnd) as [Hnd' Hout].
  repeat split; auto.
  - apply find_id_none. exact Hout.
  - intros other Hne. apply remove_first_other. exact Hne.
  - intros Hn. unfold remove_control_setting_by_ID. rewrite Hn. reflexivity.
Qed.


(** X12: [__create_best_fit_control_setting_by_name] never changes a
    setting that exists and never creates a second one: calling it again
    changes nothing; for an integer control of the camera without a
    setting it creates one with the control's default value. *)
Theorem create_best_fit_setting_only_once (name : string) (s : CSDevs) :
  let s' := create_best_fit_control_setting_by_name name s in
  create_best_fit_control_setting_by_name name s' = s' /\
  (forall old, setting_control_by_name s name = Some old -> s' = s) /\
  (forall qCtrl,
     setting_control_by_name s name = None ->
     current_camera_control_by_name s name = Some qCtrl ->
     is_integer_type (qc_type qCtrl) = true ->
     setting_control_by_name s' name
     = Some (mk_control (qc_id qCtrl) (qc_default_value qCtrl))).
Proof.
  cbv zeta.
  remember (create_best_fit_control_setting_by_name name s) as s' eqn:Es'.
  unfold create_best_fit_control_setting_by_name in Es'.
  destruct (setting_control_by_name s name) as [old|] eqn:E.
  - subst s'. repeat split; try discriminate.
    unfold create_best_fit_control_setting_by_name. rewrite E. reflexivity.
  - destruct (current_camera_control_by_name s name) as [q|] eqn:Eq.
    2:{ subst s'. repeat split; try discriminate.
        unfold create_best_fit_control_setting_by_name.
        rewrite E, Eq. reflexivity. }
    destruct (is_integer_type (qc_type q)) eqn:Ei.
    2:{ subst s'. repeat split; try discriminate.
        - unfold create_best_fit_control_setting_by_name.
          rewrite E, Eq, Ei. reflexivity.
        - intros q' _ Hq' Hi. congruence. }
    assert (Hnew : setting_control_by_name s' name
                   = Some (mk_control (qc_id q) (qc_default_value q))).
    { subst s'.
      unfold setting_control_by_name, current_camera_control_ID_by_name in *.
      unfold current_camera_control_by_name in *.
      cbn [add_control_setting_by_ID camera set_controls].
      rewrite Eq in *. cbn [option_map] in *.
      unfold setting_control_by_ID in *. cbn [controls set_controls].
      rewrite find_id_app, E. cbn. rewrite Z.eqb_refl. reflexivity. }
    repeat split; try discriminate.
    + unfold create_best_fit_control_setting_by_name. rewrite Hnew.
      reflexivity.
    + intros q' _ Hq' _. injection Hq' as <-. exact Hnew.
Qed.


Lemma remove_control_setting_then_lookup_witness :
  NoDup (map ctrl_id (controls Samples.shared_gain_state)) /\
  (let s' := remove_control_setting_by_ID 1 Samples.shared_gain_state in
   setting_control_by_ID s' 1 = None /\
   (forall other, other <> 1%Z ->
      setting_control_by_ID s' other
      = setting_control_by_ID Samples.shared_gain_state other) /\
   NoDup (map ctrl_id (controls s')) /\
   (setting_control_by_ID Samples.shared_gain_state 1 = None ->
    s' = Samples.shared_gain_state)).
Proof.
  assert (H : NoDup (map ctrl_id (controls Samples.shared_gain_state))).
  { cbn. constructor; [intros []|constructor]. }
  split; [exact H|].
  exact (@remove_control_setting_then_lookup 1 Samples.shared_gain_state H).
Defined.

End PendingSettings.

(** ** Smaller helpers *)

Section SmallHelpers.

Import CSDevs.

Lemma calcMCD_nonneg a b : (0 <= a)%Z -> (0 <= b)%Z -> calcMCD a b = Z.gcd a b.
Proof.
  functional induction (calcMCD a b); intros Ha Hb.
  - apply Z.eqb_eq in e. subst. rewrite Z.gcd_0_r, Z.abs_eq; lia.
  - apply Z.eqb_neq in e.
    rewrite IHz; [|lia|apply Z.mod_pos_bound; lia].
    rewrite (Z.gcd_comm b (a mod b)), Z.gcd_mod by lia. apply Z.gcd_comm.
Qed.

(** X13: for a positive step [b], [__calcMCD a b] is the greatest common
    divisor of [a] and [b], so it returns the step itself exactly when the
    value [a] is a multiple of the step. *)
Theorem calcMCD_is_gcd (a b : Z) :
  (0 < b)%Z ->
  calcMCD a b = Z.gcd a b /\ (calcMCD a b = b <-> (b | a)%Z).
Proof.
  intros Hb.
  assert (E : calcMCD a b = Z.gcd a b).
  { rewrite calcMCD_equation.
    destruct (Z.eqb_spec b 0); [lia|].
    rewrite calcMCD_nonneg; [|lia|apply Z.mod_pos_bound; lia].
    rewrite (Z.gcd_comm b (a mod b)), Z.gcd_mod by lia. apply Z.gcd_comm. }
  split; [exact E|]. rewrite E. split.
  - intros H. rewrite <- H. apply Z.gcd_divide_l.
  - intros H. rewrite Z.gcd_comm. apply Z.divide_gcd_iff; [lia|exact H].
Qed.

Lemma calcMCD_is_gcd_witness :
  calcMCD 640 10 = Z.gcd 640 10 /\ (calcMCD 640 10 = 10%Z <-> (10 | 640)%Z).
Proof. apply (@calcMCD_is_gcd 640 10). lia. Defined.

(** X14: decoding the text that [__bool_setting_text] writes gives the
    flag back; [__decode_bool_setting_text] returns [True] for the text
    "true" only, so a text survives decoding and re-encoding exactly when
    it is "true" or "false". *)
Theorem bool_setting_text_round_trip :
  (forall b, decode_bool_setting_text (bool_setting_text b) = b) /\
  (forall t, decode_bool_setting_text t = true <-> t = "true"%string) /\
  (forall t, bool_setting_text (decode_bool_setting_text t) = t <->
             t = "true"%string \/ t = "false"%string).
Proof.
  split; [|split].
  - intros []; reflexivity.
  - intros t. unfold decode_bool_setting_text. apply String.eqb_eq.
  - intros t. unfold decode_bool_setting_text, bool_setting_text.
    destruct (String.eqb_spec t "true") as [->|Hne].
    + tauto.
    + split; [auto|]. intros [H|H]; congruence.
Qed.

Local Open Scope R_scope.



Local Close Scope R_scope.

Lemma next_prime_loop_last (l : list Z) (m approx init : Z) :
  fold_left (fun usePeriod aPrime =>
               if Z.ltb approx aPrime then aPrime else usePeriod)
    (l ++ [m]) init
  = if Z.ltb approx m then m
    else fold_left (fun usePeriod aPrime =>
                      if Z.ltb approx aPrime then aPrime else usePeriod)
           l init.
Proof. rewrite fold_left_app. reflexivity. Qed.

Lemma next_prime_loop_none (l : list Z) (approx init : Z) :
  Forall (fun p => (p <= approx)%Z) l ->
  fold_left (fun usePeriod aPrime =>
               if Z.ltb approx aPrime then aPrime else usePeriod)
    l init = init.
Proof.
  intros H. revert init. induction H as [|p l Hp _ IH]; intros init;
    [reflexivity|].
  cbn. destruct (Z.ltb_spec approx p); [lia|]. apply IH.
Qed.

(** X16: [adjust_frame_tick_period] returns 113, the last entry of
    [TWO_MIN_PRIMES], for every capture period and direction: the search
    for the next larger prime has no [break], so the last prime above the
    approximation wins, which is 113; when no prime is above it the
    initial value, again 113, stays. *)
Theorem adjust_frame_tick_period_is_constant (capPeriod : Z)
        (upwards : bool) :
  adjust_frame_tick_period capPeriod upwards = 113%Z.
Proof.
  unfold adjust_frame_tick_period.
  change (last TWO_MIN_PRIMES 0%Z) with 113%Z.
  destruct (_ && _); [|reflexivity].
  set (approx := (capPeriod + _)%Z). clearbody approx.
  change TWO_MIN_PRIMES
    with ([2; 3; 5; 7; 11; 19; 23; 29; 31; 37; 41; 43; 47; 53; 59; 61;
           67; 71; 73; 79; 83; 89; 97; 101; 103; 107; 109] ++ [113])%Z.
  rewrite next_prime_loop_last.
  destruct (Z.ltb_spec approx 113); [reflexivity|].
  apply next_prime_loop_none.
  repeat constructor; lia.
Qed.

End SmallHelpers.

(** ** Caption, statistics and buffer count *)

Section CaptionFacts.

Import captureThread.

Variable Image : Type.
Variable pil : Imaging Image.
Variable env : Env Image.

(** X17: for every caption location, text size, inset and image size,
    the caption origin that [__get_caption_X] and [__get_caption_Y] return
    is not negative and not beyond the larger of the image size and the
    fallback position 4. *)
Theorem caption_origin_within_frame (q : Request)
        (wText hText wImage hImage : Z) :
  (0 <= get_caption_X q wText wImage <= Z.max wImage 4)%Z /\
  (0 <= get_caption_Y q hText hImage <= Z.max hImage 4)%Z.
Proof.
  unfold get_caption_X, get_caption_Y. split.
  - match goal with
    | |- context [if (Z.ltb ?h 0 || Z.ltb wImage ?h) then _ else _] =>
        destruct (Z.ltb_spec h 0); destruct (Z.ltb_spec wImage h); cbn; lia
    end.
  - match goal with
    | |- context [if (Z.ltb ?h 0 || Z.ltb hImage ?h) then _ else _] =>
        destruct (Z.ltb_spec h 0); destruct (Z.ltb_spec hImage h); cbn; lia
    end.
Qed.

Lemma string_app_assoc (a b c : string) :
  ((a ++ b) ++ c = a ++ (b ++ c))%string.
Proof. induction a as [|x a IH]; cbn; [reflexivity|now rewrite IH]. Qed.

Lemma string_app_nil_r (a : string) : (a ++ "" = a)%string.
Proof. induction a as [|x a IH]; cbn; [reflexivity|now rewrite IH]. Qed.

(** X18: the caption is the caption text, the date and the time, those
    that are present and in this order, joined by single spaces; with none
    of them it is empty. *)
Theorem caption_joins_present_fields (q : Request) :
  generate_caption_text env q
  = String.concat " "
      ((if String.eqb (captionText q) "" then [] else [captionText q])
         ++ (if captionDateStamp q then [strftime_date env] else [])
         ++ (if captionTimeStamp q
             then [if captionTwoFourHour q then strftime_HM env
                   else strftime_IM env]
             else [])).
Proof.
  unfold generate_caption_text.
  destruct (String.eqb_spec (captionText q) "") as [E|E].
  - rewrite E. cbn [negb orb].
    destruct (captionDateStamp q), (captionTimeStamp q); cbn;
      rewrite ?string_app_assoc, ?string_app_nil_r; reflexivity.
  - cbn [negb orb].
    destruct (captionDateStamp q), (captionTimeStamp q); cbn;
      rewrite ?string_app_assoc, ?string_app_nil_r; reflexivity.
Qed.

Local Open Scope R_scope.

Lemma fold_left_Rplus_bounds (l : list R) (a b acc : R) :
  (forall x, In x l -> a <= x <= b) ->
  acc + INR (List.length l) * a <= fold_left Rplus l acc
  <= acc + INR (List.length l) * b.
Proof.
  revert acc. induction l as [|x l IH]; intros acc H.
  - cbn. lra.
  - cbn [fold_left List.length]. rewrite S_INR.
    assert (Hx : a <= x <= b) by (apply H; left; reflexivity).
    assert (Hl : forall y, In y l -> a <= y <= b)
      by (intros y Hy; apply H; right; exact Hy).
    specialize (IH (acc + x) Hl). nra.
Qed.


Local Close Scope R_scope.

(** X20: after [set_capture_buffer_count] the buffer count is always
    between 1 and 512: a count in that range is stored as given, every
    other count is replaced by the default 16. *)
Theorem capture_buffer_count_always_valid (newCount : Z) (q : Request) :
  let q' := set_capture_buffer_count newCount q in
  (1 <= bufCount q' <= 512)%nat /\
  ((0 < newCount <= 512)%Z -> Z.of_nat (bufCount q') = newCount) /\
  (~ (0 < newCount <= 512)%Z -> bufCount q' = 16%nat).
Proof.
  unfold set_capture_buffer_count, limBufCount, defaultBufCount.
  destruct (Z.ltb_spec 0 newCount); destruct (Z.leb_spec newCount 512);
    cbn; repeat split; try lia.
Qed.


End CaptionFacts.

(** ** The settings handed to the worker *)

Section WorkerSettings.

Import captureThread CSDevsFrameTick.

Lemma find_setting_app (l l' : list (Z * Z)) (i : Z) :
  find (fun c => Z.eqb (fst c) i) (l ++ l')
  = match find (fun c => Z.eqb (fst c) i) l with
    | Some c => Some c
    | None => find (fun c => Z.eqb (fst c) i) l'
    end.
Proof.
  induction l as [|x l IH]; [reflexivity|]. cbn.
  destruct (Z.eqb (fst x) i); [reflexivity|exact IH].
Qed.

Lemma find_setting_none (l : list (Z * Z)) (i : Z) :
  ~ In i (map fst l) -> find (fun c => Z.eqb (fst c) i) l = None.
Proof.
  induction l as [|x l IH]; [reflexivity|]. cbn. intros Hn.
  destruct (Z.eqb_spec (fst x) i) as [E|E]; [tauto|].
  apply IH. tauto.
Qed.

Lemma remove_first_setting_other (l : list (Z * Z)) (i j : Z) :
  j <> i ->
  find (fun c => Z.eqb (fst c) j) (remove_first_setting i l)
  = find (fun c => Z.eqb (fst c) j) l.
Proof.
  intros Hne. induction l as [|x l IH]; [reflexivity|]. cbn.
  destruct (Z.eqb_spec (fst x) i) as [E|E].
  - destruct (Z.eqb_spec (fst x) j) as [E'|E']; [congruence|reflexivity].
  - cbn. rewrite IH. reflexivity.
Qed.

Lemma remove_first_setting_ids (l : list (Z * Z)) (i : Z) :
  forall j, In j (map fst (remove_first_setting i l)) -> In j (map fst l).
Proof.
  induction l as [|x l IH]; [auto|]. cbn. intros j.
  destruct (Z.eqb (fst x) i); cbn; [auto|].
  intros [H|H]; auto.
Qed.

Lemma remove_first_setting_nodup (l : list (Z * Z)) (i : Z) :
  NoDup (map fst l) ->
  NoDup (map fst (remove_first_setting i l)) /\
  ~ In i (map fst (remove_first_setting i l)).
Proof.
  induction l as [|x l IH]; cbn; intros Hnd.
  - split; [constructor|tauto].
  - inversion Hnd as [|? ? Hx Hl]; subst.
    destruct (Z.eqb_spec (fst x) i) as [E|E].
    + subst i. auto.
    + destruct (IH Hl) as [H1 H2]. cbn. split.
      * constructor; [|exact H1]. intros Hin. apply Hx.
        eapply remove_first_setting_ids; eauto.
      * intros [H|H]; [congruence|tauto].
Qed.

Lemma remove_first_setting_absent (l : list (Z * Z)) (i : Z) :
  ~ In i (map fst l) -> remove_first_setting i l = l.
Proof.
  induction l as [|x l IH]; [reflexivity|]. cbn. intros Hn.
  destruct (Z.eqb_spec (fst x) i) as [E|E]; [tauto|].
  rewrite IH; tauto.
Qed.

Lemma controls_after_remove_setting (ctrlID : Z) (q : Request) :
  controls (remove_control_setting_by_ID ctrlID q)
  = remove_first_setting ctrlID (controls q).
Proof.
  unfold remove_control_setting_by_ID, find_camera_control_setting_by_ID.
  destruct (find _ (controls q)) as [c|] eqn:E.
  - apply find_some in E. destruct E as [_ E]. apply Z.eqb_eq in E.
    rewrite E. reflexivity.
  - symmetry. apply remove_first_setting_absent. intros Hin.
    apply in_map_iff in Hin. destruct Hin as (c & Hc & Hin).
    apply (find_none _ _ E) in Hin. cbn in Hin.
    apply Z.eqb_neq in Hin. congruence.
Qed.

Lemma replace_setting_spec (ctrlID v : Z) (q : Request) :
  NoDup (map fst (controls q)) ->
  let q' := replace_control_setting_by_ID ctrlID (Some v) q in
  find_camera_control_setting_by_ID q' ctrlID = Some (ctrlID, v) /\
  (forall other, other <> ctrlID ->
     find_camera_control_setting_by_ID q' other
     = find_camera_control_setting_by_ID q other) /\
  NoDup (map fst (controls q')).
Proof.
  intros Hnd q'. subst q'.
  unfold replace_control_setting_by_ID, add_control_setting_by_ID,
    find_camera_control_setting_by_ID.
  cbn [controls set_request_controls]. rewrite controls_after_remove_setting.
  destruct (remove_first_setting_nodup (controls q) ctrlID Hnd)
    as [Hnd' Hout].
  repeat split.
  - rewrite find_setting_app, (find_setting_none _ _ Hout). cbn.
    rewrite Z.eqb_refl. reflexivity.
  - intros other Hne.
    rewrite find_setting_app, remove_first_setting_other by exact Hne.
    destruct (find _ (controls q)); [reflexivity|]. cbn.
    destruct (Z.eqb_spec ctrlID other); [congruence|reflexivity].
  - rewrite map_app. cbn.
    apply NoDup_app; [exact Hnd'|repeat constructor; auto|].
    intros x Hx [<-|[]]. tauto.
Qed.

Lemma hand_over_loop (pending : list CSDevs.v4l2_control) :
  forall q,
    NoDup (map CSDevs.ctrl_id pending) ->
    NoDup (map fst (controls q)) ->
    let q1 :=
      fold_left
        (fun q aCtrl =>
           replace_control_setting_by_ID (CSDevs.ctrl_id aCtrl)
             (Some (CSDevs.ctrl_value aCtrl)) q)
        pending q in
    NoDup (map fst (controls q1)) /\
    (forall c, In c pending ->
       find_camera_control_setting_by_ID q1 (CSDevs.ctrl_id c)
       = Some (CSDevs.ctrl_id c, CSDevs.ctrl_value c)) /\
    (forall id, ~ In id (map CSDevs.ctrl_id pending) ->
       find_camera_control_setting_by_ID q1 id
       = find_camera_control_setting_by_ID q id).
Proof.
  induction pending as [|c l IH]; intros q Hp Hq; cbn [fold_left].
  - repeat split; auto. intros c [].
  - inversion Hp as [|? ? Hc Hl]; subst.
    destruct (replace_setting_spec (CSDevs.ctrl_id c) (CSDevs.ctrl_value c)
                q Hq) as (F0 & O0 & N0).
    destruct (IH _ Hl N0) as (N1 & F1 & O1).
    repeat split; [exact N1| |].
    + intros c' [<-|Hin]; [|apply F1; exact Hin].
      rewrite O1 by exact Hc. exact F0.
    + intros id Hid. cbn in Hid.
      rewrite O1 by tauto. apply O0. intros ->. tauto.
Qed.

(** X21: when [frame_tick] hands a non-empty list of pending settings
    with unique IDs to a worker whose settings have unique IDs, the
    worker's IDs stay unique, every pending setting that is not a focus
    control is found in the worker with its pending value, and every
    setting of the worker whose ID is neither pending nor a focus control
    is still there unchanged: settings left from earlier cycles are not
    dropped. *)
Theorem frame_tick_hands_over_pending_settings
        (pending : list CSDevs.v4l2_control) (aCam4 aCam5 : option Z)
        (camAF : bool) (camFocus : option Z) (q : Request) :
  pending <> [] ->
  NoDup (map CSDevs.ctrl_id pending) ->
  NoDup (map fst (controls q)) ->
  let q' := frame_tick_controls pending aCam4 aCam5 camAF camFocus q in
  let focus id := aCam5 = Some id \/ (aCam4 = Some id /\ camFocus <> None) in
  NoDup (map fst (controls q')) /\
  (forall c, In c pending -> ~ focus (CSDevs.ctrl_id c) ->
     find_camera_control_setting_by_ID q' (CSDevs.ctrl_id c)
     = Some (CSDevs.ctrl_id c, CSDevs.ctrl_value c)) /\
  (forall id, ~ In id (map CSDevs.ctrl_id pending) -> ~ focus id ->
     find_camera_control_setting_by_ID q' id
     = find_camera_control_setting_by_ID q id).
Proof.
  intros Hne Hp Hq q' focus. subst q'. unfold frame_tick_controls.
  destruct pending as [|c0 l0]; [contradiction|].
  change (Nat.ltb 0 (List.length (c0 :: l0))) with true. cbv iota.
  destruct (hand_over_loop (c0 :: l0) q Hp Hq) as (N1 & F1 & O1).
  set (q1 := fold_left _ (c0 :: l0) q) in *.
  assert (H2 : exists q2,
             q2 = match aCam5 with
                  | Some id =>
                      replace_control_setting_by_ID id
                        (Some (if camAF then 1 else 0)%Z) q1
                  | None => q1
                  end /\
             NoDup (map fst (controls q2)) /\
             forall id, aCam5 <> Some id ->
               find_camera_control_setting_by_ID q2 id
               = find_camera_control_setting_by_ID q1 id).
  { eexists. split; [reflexivity|]. destruct aCam5 as [a|].
    - destruct (replace_setting_spec a (if camAF then 1 else 0)%Z q1 N1)
        as (_ & O & N).
      split; [exact N|]. intros id Hid. apply O. congruence.
    - auto. }
  destruct H2 as (q2 & E2 & N2 & O2). rewrite <- E2.
  assert (H3 : exists q3,
             q3 = match aCam4, camFocus with
                  | Some id, Some f =>
                      replace_control_setting_by_ID id (Some f) q2
                  | _, _ => q2
                  end /\
             NoDup (map fst (controls q3)) /\
             forall id, ~ (aCam4 = Some id /\ camFocus <> None) ->
               find_camera_control_setting_by_ID q3 id
               = find_camera_control_setting_by_ID q2 id).
  { eexists. split; [reflexivity|].
    destruct aCam4 as [a|]; [|auto]. destruct camFocus as [f|]; [|auto].
    destruct (replace_setting_spec a f q2 N2) as (_ & O & N).
    split; [exact N|]. intros id Hid. apply O. intros ->. apply Hid.
    split; [reflexivity|discriminate]. }
  destruct H3 as (q3 & E3 & N3 & O3). rewrite <- E3.
  unfold focus. repeat split; [exact N3| |].
  - intros c Hin Hf. rewrite O3, O2 by tauto. apply F1. exact Hin.
  - intros id Hid Hf. rewrite O3, O2 by tauto. apply O1. exact Hid.
Qed.

Lemma frame_tick_hands_over_pending_settings_witness :
  let q := set_request_controls [(1, 80); (7, 5)]%Z
             (CaptureSamples.sample_request 5) in
  let q' := frame_tick_controls [CSDevs.mk_control 1 92] (Some 10%Z)
              (Some 12%Z) true (Some 30%Z) q in
  find_camera_control_setting_by_ID q' 1 = Some (1, 92)%Z /\
  find_camera_control_setting_by_ID q' 7 = Some (7, 5)%Z.
Proof.
  cbv zeta.
  assert (Hne : [CSDevs.mk_control 1 92] <> []) by discriminate.
  assert (Hp : NoDup (map CSDevs.ctrl_id [CSDevs.mk_control 1 92])).
  { cbn. constructor; [intros []|constructor]. }
  assert (Hq : NoDup (map fst (controls
                 (set_request_controls [(1, 80); (7, 5)]%Z
                    (CaptureSamples.sample_request 5))))).
  { cbn. constructor; [intros [H|[]]; discriminate H|].
    constructor; [intros []|constructor]. }
  destruct (@frame_tick_hands_over_pending_settings
              [CSDevs.mk_control 1 92] (Some 10%Z) (Some 12%Z) true
              (Some 30%Z) _ Hne Hp Hq) as (_ & F & O).
  split.
  - apply (F (CSDevs.mk_control 1 92)); [left; reflexivity|].
    cbn. intros [H|[H _]]; discriminate H.
  - apply (O 7%Z).
    + cbn. intros [H|[]]; discriminate H.
    + intros [H|[H _]]; discriminate H.
Defined.

End WorkerSettings.

(** ** What the capture cycle leaves behind *)

Section Steadiness.

Import captureThread.

Variable Image : Type.
Variable pil : Imaging Image.
Variable env : Env Image.

Section Combinators.

Variable R : State Image -> State Image -> Prop.
Hypothesis HR : Steady R.

Lemma preserves_ret A (a : A) : preserves R (ret (Image:=Image) a).
Proof. intros s. apply steady_refl. Qed.

Lemma preserves_raise A e : preserves R (raise (Image:=Image) (A:=A) e).
Proof. intros s. apply steady_refl. Qed.

Lemma preserves_get : preserves R (get (Image:=Image)).
Proof. intros s. apply steady_refl. Qed.

Lemma preserves_bind A B (m : C Image A) (k : A -> C Image B) :
  preserves R m -> (forall a, preserves R (k a)) -> preserves R (bind m k).
Proof.
  intros Hm Hk s. unfold bind. specialize (Hm s).
  destruct (m s) as [[a|e] s1]; cbn in *; [|exact Hm].
  eapply steady_trans; [exact Hm|apply Hk].
Qed.

Lemma preserves_try_except A (m : C Image A) classes h :
  preserves R m -> (forall e, preserves R (h e)) ->
  preserves R (try_except m classes h).
Proof.
  intros Hm Hh s. unfold try_except. specialize (Hm s).
  destruct (m s) as [[a|e] s1]; cbn in *; [exact Hm|].
  destruct (existsb (exn_eqb e) classes); [|exact Hm].
  eapply steady_trans; [exact Hm|apply Hh].
Qed.

Lemma preserves_try_except_all A (m : C Image A) h :
  preserves R m -> (forall e, preserves R (h e)) ->
  preserves R (try_except_all m h).
Proof.
  intros Hm Hh s. unfold try_except_all. specialize (Hm s).
  destruct (m s) as [[a|e] s1]; cbn in *; [exact Hm|].
  eapply steady_trans; [exact Hm|apply Hh].
Qed.

Lemma preserves_modify (f : State Image -> State Image) :
  (forall s, R s (f s)) -> preserves R (modify f).
Proof. intros Hf s. apply Hf. Qed.

Lemma preserves_tick :
  (forall s, R s (set_clock (S (clock s)) s)) ->
  preserves R (tick (Image:=Image)).
Proof. intros Hf s. apply Hf. Qed.

Lemma preserves_eq A (m : C Image A) s r s1 :
  preserves R m -> m s = (r, s1) -> R s s1.
Proof. intros Hm E. specialize (Hm s). rewrite E in Hm. exact Hm. Qed.

End Combinators.

(** Take a piece of worker code apart, down to its writes. *)
Ltac steady_step :=
  match goal with
  | |- preserves _ (bind _ _) => apply (preserves_bind _); [|intros ?]
  | |- preserves _ (try_except _ _ _) =>
      apply (preserves_try_except _); [|intros ?]
  | |- preserves _ (try_except_all _ _) =>
      apply (preserves_try_except_all _); [|intros ?]
  | |- preserves _ (ret _) => apply (preserves_ret _)
  | |- preserves _ (raise _) => apply (preserves_raise _)
  | |- preserves _ (@get _) => apply (preserves_get _)
  | |- preserves _ (@tick _) => apply preserves_tick; intros ?
  | |- preserves _ (emit _) => unfold emit
  | |- preserves _ (modify _) => apply preserves_modify; intros ?
  | |- preserves _ (closed _) => unfold closed
  | |- preserves _ (do_ioctl _ _) => unfold do_ioctl
  | |- preserves _ (set_controls _) => unfold set_controls
  | |- preserves _ (request_capture_buffers _ _) =>
      unfold request_capture_buffers
  | |- preserves _ (release_capture_buffers _) =>
      unfold release_capture_buffers
  | |- preserves _ (stream_on _) => unfold stream_on
  | |- preserves _ (stream_off _) => unfold stream_off
  | |- preserves _ (dequeue_capture_frame _) => unfold dequeue_capture_frame
  | |- preserves _ (requeue_frame _ _) => unfold requeue_frame
  | |- preserves _ (load_image_from_buffer _ _) =>
      unfold load_image_from_buffer
  | |- preserves _ (compute_frame_statistics _) =>
      unfold compute_frame_statistics
  | |- preserves _ (save_frame _ _) => unfold save_frame
  | |- preserves _ (map_and_queue _ _) => unfold map_and_queue
  | |- preserves _ (@close_capture_buffers _) => unfold close_capture_buffers
  | |- preserves _ (if ?b then _ else _) => destruct b
  | |- preserves _ (match ?x with _ => _ end) => destruct x
  end.

#[local] Instance same_buffers_steady : Steady (@same_buffers Image).
Proof.
  split.
  - intros s. split; [reflexivity|]. exists []. rewrite app_nil_r. auto.
  - intros s1 s2 s3 [B1 (l1 & L1 & N1)] [B2 (l2 & L2 & N2)]. split.
    + congruence.
    + exists (l1 ++ l2). rewrite L2, L1, app_assoc, forallb_app, N1, N2. auto.
Qed.

#[local] Instance same_req_steady : Steady (@same_req Image).
Proof. split; unfold same_req; intros; congruence. Qed.

#[local] Instance between_frames_steady : Steady (@between_frames Image).
Proof.
  split.
  - intros s. repeat split. exists []. rewrite app_nil_r. auto.
  - intros s1 s2 s3 (B1 & Q1 & l1 & L1 & N1) (B2 & Q2 & l2 & L2 & N2).
    repeat split; try congruence.
    exists (l1 ++ l2). rewrite L2, L1, app_assoc, forallb_app, N1, N2. auto.
Qed.

#[local] Instance stays_tidy_steady : Steady (@stays_tidy Image).
Proof. split; unfold stays_tidy; auto. Qed.

(** A write that touches neither the buffer list nor the mapping events. *)
Ltac same_buffers_write :=
  split; [reflexivity|];
  first [ exists []; split; [rewrite app_nil_r; reflexivity|reflexivity]
        | eexists [_]; split; [reflexivity|reflexivity] ].

Ltac same_buffers_steps := repeat first [steady_step | same_buffers_write].


Lemma same_buffers_request n :
  preserves (@same_buffers Image) (request_capture_buffers env n).
Proof. same_buffers_steps. Qed.

Lemma same_buffers_release :
  preserves (@same_buffers Image) (release_capture_buffers env).
Proof. same_buffers_steps. Qed.

Lemma same_buffers_stream_on :
  preserves (@same_buffers Image) (stream_on env).
Proof. same_buffers_steps. Qed.

Lemma same_buffers_stream_off :
  preserves (@same_buffers Image) (stream_off env).
Proof. same_buffers_steps. Qed.

Lemma same_buffers_set_controls :
  preserves (@same_buffers Image) (set_controls env).
Proof. same_buffers_steps. Qed.

Lemma same_buffers_dequeue :
  preserves (@same_buffers Image) (dequeue_capture_frame env).
Proof. same_buffers_steps. Qed.

Lemma same_buffers_requeue b :
  preserves (@same_buffers Image) (requeue_frame env b).
Proof. same_buffers_steps. Qed.

Lemma same_buffers_load b :
  preserves (@same_buffers Image) (load_image_from_buffer env b).
Proof. same_buffers_steps. Qed.

Lemma same_buffers_save :
  preserves (@same_buffers Image) (save_frame pil env).
Proof. same_buffers_steps. Qed.

Lemma same_buffers_reach_loop n : forall c,
  preserves (@same_buffers Image) (reach_loop env n c).
Proof.
  induction n as [|n IH]; intros c; cbn [reach_loop].
  - same_buffers_steps.
  - repeat first [apply IH | steady_step | same_buffers_write].
Qed.

Lemma same_buffers_reach :
  preserves (@same_buffers Image) (reach_target_frame env).
Proof.
  unfold reach_target_frame.
  repeat first [apply same_buffers_reach_loop | steady_step].
Qed.


(** *** Mapped buffers *)

Lemma existsb_quiet (f : event Image -> bool) (l : list (event Image)) :
  (forall e, mapping_event e = false -> f e = false) ->
  forallb (fun e => negb (mapping_event e)) l = true ->
  existsb f l = false.
Proof.
  intros Hf. induction l as [|e l IH]; cbn; [reflexivity|].
  intros H. apply andb_true_iff in H. destruct H as [He Hl].
  apply negb_true_iff in He. rewrite (Hf e He). auto.
Qed.

Lemma still_mapped_quiet (l : list (event Image)) :
  forallb (fun e => negb (mapping_event e)) l = true -> still_mapped l = [].
Proof.
  induction l as [|e l IH]; cbn; [reflexivity|].
  intros H. apply andb_true_iff in H. destruct H as [He Hl].
  destruct e; cbn in He; try discriminate; auto.
Qed.

Lemma still_mapped_app_quiet (l l' : list (event Image)) :
  forallb (fun e => negb (mapping_event e)) l' = true ->
  still_mapped (l ++ l') = still_mapped l.
Proof.
  intros Hq. induction l as [|e l IH]; cbn.
  - apply still_mapped_quiet, Hq.
  - destruct e; cbn; auto.
    rewrite existsb_app, IH.
    rewrite (@existsb_quiet _ l')
      by (auto; intros e He; destruct e; cbn in *; congruence).
    rewrite orb_false_r. reflexivity.
Qed.

Lemma still_mapped_app_in id (l l' : list (event Image)) :
  In id (still_mapped (l ++ l')) ->
  (In id (still_mapped l) /\
   existsb (fun e => match e with
                     | EvClose _ id' => Nat.eqb id id'
                     | _ => false
                     end) l' = false) \/
  In id (still_mapped l').
Proof.
  induction l as [|e l IH]; cbn [app still_mapped]; [auto|].
  destruct e as [? ?|id0|?|?|?|?|? ?|? ?|?|? ?]; try exact IH.
  rewrite existsb_app.
  set (f0 := fun e : event Image => match e with
                                    | EvClose _ id' => Nat.eqb id0 id'
                                    | _ => false
                                    end).
  destruct (existsb f0 l) eqn:El; cbn [orb]; [exact IH|].
  destruct (existsb f0 l') eqn:El'.
  - intros H. destruct (IH H) as [[H1 H2]|H1]; [left|right]; auto.
    split; [right|]; auto.
  - intros [<-|H]; [left; split; [left|]; auto|].
    destruct (IH H) as [[H1 H2]|H1]; [left|right]; auto.
    split; [right|]; auto.
Qed.

Lemma still_mapped_closes (bs : list nat) :
  still_mapped (map (EvClose Image) bs) = [].
Proof. induction bs; cbn; auto. Qed.

Lemma closes_in id (bs : list nat) :
  In id bs ->
  existsb (fun e : event Image => match e with
                     | EvClose _ id' => Nat.eqb id id'
                     | _ => false
                     end) (map (EvClose Image) bs) = true.
Proof.
  intros H. apply existsb_exists. exists (EvClose Image id). split.
  - apply in_map, H.
  - apply Nat.eqb_refl.
Qed.

Lemma clean_tidy (s : State Image) : clean s -> tidy s.
Proof. intros [B M] id H. rewrite M in H. destruct H. Qed.

Lemma same_buffers_tidy (s s' : State Image) :
  same_buffers s s' -> tidy s -> tidy s'.
Proof.
  intros [B (l & L & Q)] T id. rewrite L, still_mapped_app_quiet, B by exact Q.
  apply T.
Qed.

Lemma same_buffers_clean (s s' : State Image) :
  same_buffers s s' -> clean s -> clean s'.
Proof.
  intros [B (l & L & Q)] [Bs M]. split; [congruence|].
  rewrite L, still_mapped_app_quiet by exact Q. exact M.
Qed.

Lemma close_capture_buffers_clean (s : State Image) r s' :
  close_capture_buffers s = (r, s') -> tidy s -> r = Ok tt /\ clean s'.
Proof.
  unfold close_capture_buffers, modify. intros H T. inversion H; subst.
  split; [reflexivity|]. split; [reflexivity|]. cbn.
  destruct (still_mapped (log s ++ map (EvClose Image) (buffers s)))
    as [|id rest] eqn:E; [reflexivity|].
  assert (Hin : In id (still_mapped
                         (log s ++ map (EvClose Image) (buffers s)))).
  { rewrite E. left. reflexivity. }
  apply still_mapped_app_in in Hin. destruct Hin as [[H1 H2]|H1].
  - rewrite (closes_in _ _ (T id H1)) in H2. discriminate.
  - rewrite still_mapped_closes in H1. destruct H1.
Qed.

Lemma preserves_weaken A (m : C Image A) :
  preserves (@same_buffers Image) m -> preserves (@stays_tidy Image) m.
Proof. intros H s. unfold stays_tidy. apply same_buffers_tidy, H. Qed.

Lemma tidy_close : preserves (@stays_tidy Image) (@close_capture_buffers Image).
Proof.
  intros s T.
  destruct (close_capture_buffers s) as [r s'] eqn:E.
  apply close_capture_buffers_clean in E; [|exact T].
  apply clean_tidy, E.
Qed.

Lemma tidy_map_and_queue ind :
  preserves (@stays_tidy Image) (map_and_queue env ind).
Proof.
  unfold map_and_queue.
  apply (preserves_bind _); [apply preserves_weaken; same_buffers_steps|].
  intros _.
  apply (preserves_bind _); [apply preserves_weaken; same_buffers_steps|].
  intros t. destruct (mmap_raises env t); [apply (preserves_raise _)|].
  intros s T.
  set (s2 := set_buffers (buffers s ++ [t])
               (set_log (log s ++ [EvMmap Image t]) s)).
  assert (T2 : tidy s2).
  { intros id H. cbn in H. apply still_mapped_app_in in H. cbn.
    apply in_or_app. destruct H as [[H _]|H]; [left; apply T, H|right].
    cbn in H. exact H. }
  change (tidy (snd (bind (do_ioctl env (VIDIOC_QBUF ind))
                       (fun _ => ret tt) s2))).
  revert T2. apply same_buffers_tidy.
  assert (P : preserves (@same_buffers Image)
                (bind (do_ioctl env (VIDIOC_QBUF ind)) (fun _ => ret tt))).
  { same_buffers_steps. }
  apply P.
Qed.

Lemma tidy_map_and_queue_from n : forall ind,
  preserves (@stays_tidy Image) (map_and_queue_from env ind n).
Proof.
  induction n as [|n IH]; intros ind; cbn [map_and_queue_from].
  - apply (preserves_ret _).
  - apply (preserves_bind _); [apply tidy_map_and_queue|intros _; apply IH].
Qed.

Lemma tidy_setup :
  preserves (@stays_tidy Image) (setup_capture_buffers env).
Proof.
  unfold setup_capture_buffers.
  repeat first
    [ apply tidy_map_and_queue_from
    | apply tidy_close
    | apply preserves_weaken; solve [same_buffers_steps]
    | steady_step ].
Qed.


Ltac same_req_steps :=
  repeat first [steady_step | unfold same_req; reflexivity].

Lemma same_req_map_and_queue_from n : forall ind,
  preserves (@same_req Image) (map_and_queue_from env ind n).
Proof.
  induction n as [|n IH]; intros ind; cbn [map_and_queue_from].
  - apply (preserves_ret _).
  - apply (preserves_bind _); [same_req_steps|intros _; apply IH].
Qed.

(** Take the first step of a sequence that ended in [(r, s')]. *)
Tactic Notation "bind_next" hyp(H) ident(a) ident(s1) ident(E) :=
  apply bind_eq in H;
  destruct H as [(a & s1 & E & H)|(? & E & ?)].

Lemma setup_without_grant s r s1 :
  setup_capture_buffers env s = (r, s1) -> req s1 = None ->
  same_buffers s s1.
Proof.
  unfold setup_capture_buffers. intros H Hn.
  bind_next H a sa Ea;
    [|exact (preserves_eq _ same_buffers_release Ea)].
  pose proof (preserves_eq _ same_buffers_release Ea) as Ra.
  bind_next H s0 sa' E0; [|discriminate E0].
  inversion E0; subst s0 sa'; clear E0.
  bind_next H b sb Eb.
  2:{ eapply steady_trans; [exact Ra|].
      exact (preserves_eq _ (same_buffers_request _) Eb). }
  pose proof (preserves_eq _ (same_buffers_request _) Eb) as Rb.
  bind_next H s0 sb' E0; [|discriminate E0].
  inversion E0; subst s0 sb'; clear E0.
  destruct (req sb) as [count|] eqn:Er.
  - exfalso.
    assert (P : preserves (@same_req Image)
                  (try_except
                     (bind (closed env) (fun c =>
                        if negb c then map_and_queue_from env 0 count
                        else raise OSError))
                     [TypeError; ValueError]
                     (fun _ => bind (@close_capture_buffers Image)
                                 (fun _ => modify (set_brokenRx true))))).
    { repeat first [apply same_req_map_and_queue_from | steady_step
                   | unfold same_req; reflexivity]. }
    pose proof (preserves_eq _ P H) as Rq. unfold same_req in Rq.
    congruence.
  - inversion H; subst. eapply steady_trans; eauto.
Qed.

Lemma tidy_empty (s : State Image) : tidy s -> buffers s = [] -> clean s.
Proof.
  intros T B. split; [exact B|].
  destruct (still_mapped (log s)) as [|id rest] eqn:E; [reflexivity|].
  assert (H : In id (buffers s)) by (apply T; rewrite E; left; reflexivity).
  rewrite B in H. destruct H.
Qed.

Lemma close_then_release_clean s r s' :
  bind (@close_capture_buffers Image)
    (fun _ => release_capture_buffers env) s = (r, s') ->
  tidy s -> clean s'.
Proof.
  intros H T. bind_next H a s1 E1.
  - apply close_capture_buffers_clean in E1; [|exact T].
    eapply same_buffers_clean; [|apply E1].
    exact (preserves_eq _ same_buffers_release H).
  - apply close_capture_buffers_clean in E1; [|exact T]. apply E1.
Qed.

Lemma run_body_clean s r s' :
  run_body pil env s = (r, s') -> clean s ->
  match r with Ok _ => clean s' | Raise _ => tidy s' end.
Proof.
  unfold run_body. intros H Hc.
  assert (Hgo : forall (A : Type) (m : C Image A) s1 s2 e,
             preserves (@same_buffers Image) m -> m s1 = (Raise e, s2) ->
             tidy s1 -> tidy s2).
  { intros A m s1 s2 e P E. apply same_buffers_tidy.
    exact (preserves_eq _ P E). }
  bind_next H a s1 E1.
  2:{ subst r. exact (preserves_eq _ tidy_setup E1 (clean_tidy Hc)). }
  pose proof (preserves_eq _ tidy_setup E1 (clean_tidy Hc)) as T1.
  bind_next H s0 s1' E0; [|discriminate E0].
  inversion E0; subst s0 s1'; clear E0.
  destruct (req s1) as [count|] eqn:Er.
  2:{ inversion H; subst. eapply same_buffers_clean; [|exact Hc].
      eapply setup_without_grant; eauto. }
  destruct (Nat.ltb 0 (List.length (buffers s1))) eqn:El.
  2:{ inversion H; subst. apply tidy_empty; [exact T1|].
      apply Nat.ltb_ge in El. destruct (buffers s'); [reflexivity|].
      cbn in El. lia. }
  bind_next H a2 s2 E2;
    [|subst r; exact (Hgo _ _ _ _ _ same_buffers_stream_on E2 T1)].
  pose proof (same_buffers_tidy (preserves_eq _ same_buffers_stream_on E2) T1)
    as T2.
  bind_next H z s3 E3;
    [|subst r; exact (Hgo _ _ _ _ _ same_buffers_reach E3 T2)].
  pose proof (same_buffers_tidy (preserves_eq _ same_buffers_reach E3) T2)
    as T3.
  match type of H with
  | bind ?m _ _ = _ =>
      assert (Pm : preserves (@same_buffers Image) m)
        by same_buffers_steps
  end.
  bind_next H a4 s4 E4; [|subst r; exact (Hgo _ _ _ _ _ Pm E4 T3)].
  pose proof (same_buffers_tidy (preserves_eq _ Pm E4) T3) as T4.
  bind_next H a5 s5 E5;
    [|subst r; exact (Hgo _ _ _ _ _ same_buffers_stream_off E5 T4)].
  pose proof (same_buffers_tidy (preserves_eq _ same_buffers_stream_off E5) T4)
    as T5.
  apply close_then_release_clean in H; [|exact T5].
  destruct r; [exact H|apply clean_tidy, H].
Qed.

(** X22: whatever the device, [select], [mmap] and the imaging library
    answer, a capture cycle that starts with no buffer mapped ends with no
    buffer mapped and an empty buffer list, on every path: normal end,
    failed request, failed mapping, failed streaming and exception. *)
Theorem run_closes_every_mapped_buffer (s : State Image) :
  buffers s = [] -> still_mapped (log s) = [] ->
  buffers (snd (run pil env s)) = [] /\
  still_mapped (log (snd (run pil env s))) = [].
Proof.
  intros B M. assert (Hc : clean s) by (split; assumption).
  change (clean (snd (run pil env s))).
  destruct (run pil env s) as [r s'] eqn:E. cbn [snd].
  unfold run in E.
  bind_next E s0 s1 E0; [|discriminate E0].
  inversion E0; subst s0 s1; clear E0.
  assert (Hin : forall r1 s1,
             match capDev s with
             | Some _ =>
                 if Z.ltb 0 (capFrame (request s)) then
                   try_except_all (run_body pil env)
                     (fun _ => bind (@close_capture_buffers Image)
                                 (fun _ => release_capture_buffers env))
                 else ret tt
             | None => ret tt
             end s = (r1, s1) -> clean s1).
  { intros r1 s1 H.
    destruct (capDev s); [|inversion H; subst; exact Hc].
    destruct (Z.ltb 0 (capFrame (request s)));
      [|inversion H; subst; exact Hc].
    unfold try_except_all in H.
    destruct (run_body pil env s) as [[a|e] sb] eqn:Eb;
      apply run_body_clean in Eb; try exact Hc.
    - inversion H; subst. exact Eb.
    - eapply close_then_release_clean; eauto. }
  bind_next E a1 s1 E1.
  - apply Hin in E1. unfold modify in E. inversion E; subst. exact E1.
  - eapply Hin; eauto.
Qed.


(** *** Frame selection against any device *)

Ltac between_frames_write :=
  split; [reflexivity|]; split; [reflexivity|];
  first [ exists []; split; [rewrite app_nil_r; reflexivity|reflexivity]
        | eexists [_]; split; [reflexivity|reflexivity] ].

Ltac between_frames_steps :=
  repeat first [steady_step | between_frames_write].

Lemma between_frames_closed :
  preserves (@between_frames Image) (closed env).
Proof. between_frames_steps. Qed.

Lemma between_frames_set_controls :
  preserves (@between_frames Image) (set_controls env).
Proof. between_frames_steps. Qed.

Lemma between_frames_tick :
  preserves (@between_frames Image) (tick (Image:=Image)).
Proof. between_frames_steps. Qed.

Lemma between_frames_dequeue :
  preserves (@between_frames Image) (dequeue_capture_frame env).
Proof. between_frames_steps. Qed.

Lemma between_frames_requeue b :
  preserves (@between_frames Image) (requeue_frame env b).
Proof. between_frames_steps. Qed.

Lemma waits_app (l1 l2 : list (event Image)) :
  waits (l1 ++ l2) = (waits l1 + waits l2)%nat.
Proof.
  induction l1 as [|e l1 IH]; [reflexivity|].
  destruct e; cbn; rewrite ?IH; reflexivity.
Qed.

Lemma between_frames_lists (l : list (event Image)) :
  forallb (fun e => negb (frame_event e)) l = true ->
  discarded l = [] /\ retained l = [] /\ waits l = 0%nat.
Proof.
  induction l as [|e l IH]; cbn; [auto|].
  intros H. apply andb_true_iff in H. destruct H as [He Hl].
  destruct e; cbn in He; try discriminate; auto.
Qed.

Lemma counters_step (c : Z) (k : nat) :
  c :: map (fun i => (c + 1 + Z.of_nat i)%Z) (seq 0 k) =
  map (fun i => (c + Z.of_nat i)%Z) (seq 0 (S k)).
Proof.
  cbn [seq map]. rewrite Z.add_0_r. f_equal.
  rewrite <- seq_shift, map_map. apply map_ext. intros i. lia.
Qed.

Lemma reach_loop_trace n : forall c s r s',
  reach_loop env n c s = (r, s') ->
  (c + Z.of_nat n = capFrame (request s) + 1)%Z ->
  exists l k,
    log s' = log s ++ l /\
    discarded l = map (fun i => (c + Z.of_nat i)%Z) (seq 0 k) /\
    (k <= pred n)%nat /\ (waits l <= S k)%nat /\
    match r with
    | Ok z =>
        (z = 0%Z /\ (c + Z.of_nat k)%Z = capFrame (request s) /\
         retained l = [capFrame (request s)] /\
         exists b, bufToSave s' = Some b) \/
        ((z = (-1)%Z \/ z = (-2)%Z \/ z = (-3)%Z) /\
         retained l = [] /\ bufToSave s' = bufToSave s)
    | Raise _ => retained l = [] /\ bufToSave s' = bufToSave s
    end.
Proof.
  induction n as [|n IH]; intros c s r s' H Hn.
  - inversion H; subst. exists [], 0%nat. rewrite app_nil_r. cbn.
    repeat split; auto; right; auto.
  - cbn [reach_loop] in H.
    assert (Hquiet : forall s1 (rr : result Z),
               between_frames s s1 ->
               match rr with
               | Ok z => z = (-1)%Z \/ z = (-2)%Z \/ z = (-3)%Z
               | Raise _ => True
               end ->
               exists l k,
                 log s1 = log s ++ l /\
                 discarded l = map (fun i => (c + Z.of_nat i)%Z) (seq 0 k) /\
                 (k <= pred (S n))%nat /\ (waits l <= S k)%nat /\
                 match rr with
                 | Ok z =>
                     (z = 0%Z /\ (c + Z.of_nat k)%Z = capFrame (request s) /\
                      retained l = [capFrame (request s)] /\
                      exists b, bufToSave s1 = Some b) \/
                     ((z = (-1)%Z \/ z = (-2)%Z \/ z = (-3)%Z) /\
                      retained l = [] /\ bufToSave s1 = bufToSave s)
                 | Raise _ => retained l = [] /\ bufToSave s1 = bufToSave s
                 end).
    { intros s1 rr (B & Q & l & L & N) Hr.
      destruct (between_frames_lists _ N) as (D0 & R0 & W0).
      exists l, 0%nat. rewrite D0, R0, W0. cbn.
      repeat split; auto; try lia.
      destruct rr; [right|]; auto. }
    bind_next H c0 s1 Ec.
    2:{ subst r. apply (Hquiet s' (Raise x));
          [exact (preserves_eq _ between_frames_closed Ec)|exact I]. }
    pose proof (preserves_eq _ between_frames_closed Ec) as R1.
    assert (Q1' : request s1 = request s) by apply R1.
    destruct c0.
    { inversion H; subst. apply (Hquiet s' (Ok (-3)%Z)); auto. }
    bind_next H s0 s1' E0; [|discriminate E0].
    inversion E0; subst s0 s1'; clear E0.
    bind_next H u2 s2 E2; [|discriminate E2].
    assert (R2 : between_frames s s2).
    { eapply steady_trans; [exact R1|]. inversion E2; subst.
      between_frames_write. }
    clear E2.
    match type of H with
    | bind ?m _ _ = _ =>
        assert (Pm : preserves (@between_frames Image) m)
          by between_frames_steps
    end.
    bind_next H u3 s3 E3.
    2:{ subst r. apply (Hquiet s' (Raise x)); [|exact I].
        eapply steady_trans; [exact R2|exact (preserves_eq _ Pm E3)]. }
    assert (R3 : between_frames s s3).
    { eapply steady_trans; [exact R2|exact (preserves_eq _ Pm E3)]. }
    clear Pm E3.
    bind_next H t s4 E4; [|discriminate E4].
    assert (R4 : between_frames s s4).
    { eapply steady_trans; [exact R3|].
      exact (preserves_eq _ between_frames_tick E4). }
    clear E4.
    destruct (select_ready env t) as [ready|e].
    2:{ inversion H; subst. apply (Hquiet s' (Raise e)); auto. }
    bind_next H u5 s5 E5; [|discriminate E5].
    destruct R4 as (B4 & Q4 & l4 & L4 & N4).
    destruct (between_frames_lists _ N4) as (D4 & T4 & W4).
    assert (L5 : log s5 = log s ++ l4 ++ [EvSelect Image ready]).
    { inversion E5; subst. cbn. rewrite L4, <- app_assoc. reflexivity. }
    assert (B5 : bufToSave s5 = bufToSave s) by (inversion E5; subst; auto).
    assert (Q5 : request s5 = request s) by (inversion E5; subst; auto).
    clear E5.
    destruct ready.
    2:{ inversion H; subst. exists (l4 ++ [EvSelect Image false]), 0%nat.
        rewrite discarded_app, retained_app, waits_app, D4, T4, W4. cbn.
        repeat split; auto; try lia; right; auto. }
    bind_next H buf s6 E6.
    2:{ subst r.
        destruct (preserves_eq _ between_frames_dequeue E6)
          as (B6 & Q6 & l6 & L6 & N6).
        destruct (between_frames_lists _ N6) as (D6 & T6 & W6).
        exists ((l4 ++ [EvSelect Image true]) ++ l6), 0%nat.
        rewrite L6, L5, <- !app_assoc.
        rewrite !discarded_app, !retained_app, !waits_app, D4, T4, W4,
          D6, T6, W6. cbn.
        repeat split; auto; try lia; congruence. }
    destruct (preserves_eq _ between_frames_dequeue E6)
      as (B6 & Q6 & l6 & L6 & N6).
    destruct (between_frames_lists _ N6) as (D6 & T6 & W6).
    clear E6.
    destruct buf as [b|].
    2:{ inversion H; subst.
        exists ((l4 ++ [EvSelect Image true]) ++ l6), 0%nat.
        rewrite L6, L5, <- !app_assoc.
        rewrite !discarded_app, !retained_app, !waits_app, D4, T4, W4,
          D6, T6, W6. cbn.
        repeat split; auto; try lia; right; repeat split; auto;
          congruence. }
    rewrite Q1' in H.
    destruct (Z.eqb_spec c (capFrame (request s))) as [Ec'|Ec'];
      cbn [negb] in H.
    { inversion H; subst s' r.
      exists (((l4 ++ [EvSelect Image true]) ++ l6)
                ++ [EvRetain Image c (buf_index b)]), 0%nat.
      cbn [log set_bufToSave set_log bufToSave].
      rewrite L6, L5, <- !app_assoc.
      rewrite !discarded_app, !retained_app, !waits_app, D4, T4, W4,
        D6, T6, W6. cbn.
      repeat split; auto; try lia; left; repeat split; eauto; try lia;
        congruence. }
    bind_next H u7 s7 E7; [|discriminate E7].
    assert (L7 : log s7 = log s ++ ((l4 ++ [EvSelect Image true]) ++ l6)
                                ++ [EvDiscard Image c (buf_index b)]).
    { inversion E7; subst. cbn. rewrite L6, L5, <- !app_assoc.
      reflexivity. }
    assert (B7 : bufToSave s7 = bufToSave s)
      by (inversion E7; subst; cbn; congruence).
    assert (Q7 : request s7 = request s)
      by (inversion E7; subst; cbn; congruence).
    clear E7.
    assert (Hn' : (1 <= n)%nat) by lia.
    bind_next H u8 s8 E8.
    2:{ subst r.
        destruct (preserves_eq _ (between_frames_requeue b) E8)
          as (B8 & Q8 & l8 & L8 & N8).
        destruct (between_frames_lists _ N8) as (D8 & T8 & W8).
        exists ((((l4 ++ [EvSelect Image true]) ++ l6)
                   ++ [EvDiscard Image c (buf_index b)]) ++ l8), 1%nat.
        rewrite L8, L7, <- !app_assoc.
        rewrite !discarded_app, !retained_app, !waits_app, D4, T4, W4,
          D6, T6, W6, D8, T8, W8. cbn.
        rewrite Z.add_0_r.
        repeat split; auto; try lia; congruence. }
    destruct (preserves_eq _ (between_frames_requeue b) E8)
      as (B8 & Q8 & l8 & L8 & N8).
    destruct (between_frames_lists _ N8) as (D8 & T8 & W8).
    clear E8.
    apply IH in H; [|rewrite Q8, Q7; lia].
    destruct H as (l9 & k & L9 & D9 & K9 & W9 & O9).
    exists (((((l4 ++ [EvSelect Image true]) ++ l6)
                ++ [EvDiscard Image c (buf_index b)]) ++ l8) ++ l9), (S k).
    rewrite L9, L8, L7, <- !app_assoc.
    rewrite !discarded_app, !retained_app, !waits_app, D4, T4, W4,
      D6, T6, W6, D8, T8, W8, D9. cbn [app discarded retained waits].
    rewrite <- counters_step.
    rewrite Q8, Q7 in O9.
    repeat split; auto; try lia.
    destruct r as [z|e].
    + destruct O9 as [(Z0 & C9 & R9 & b9 & S9)|(Z9 & R9 & S9)];
        [left|right]; repeat split; eauto; try lia; congruence.
    + destruct O9 as (R9 & S9). split; congruence.
Qed.


(** *** A frame that does not load *)

(** X24: when the retained buffer cannot be loaded, because its index is
    outside the buffer list or because decoding raises one of the five
    exceptions that [__load_image_from_buffer] handles, the load returns
    normally with no frame, and the [__save_frame] that follows does
    nothing at all: the statistics of the earlier cycle stay and nothing
    is written. *)
Theorem failed_load_skips_statistics_and_save (b : v4l2_buffer)
        (s : State Image) :
  nth_error (buffers s) (buf_index b) = None \/
  (exists e, image_open env (clock s) = Raise e /\
             In e [IndexError; OSError; TypeError; UnidentifiedImageError;
                   ValueError]) ->
  let s1 := snd (load_image_from_buffer env b s) in
  fst (load_image_from_buffer env b s) = Ok tt /\
  theFrame s1 = None /\ stats s1 = stats s /\
  save_frame pil env s1 = (Ok tt, s1).
Proof.
  intros H. cbv zeta.
  assert (Hsave : forall s1 : State Image,
             theFrame s1 = None -> save_frame pil env s1 = (Ok tt, s1)).
  { intros s1 Hf. unfold save_frame, bind, get. rewrite Hf. reflexivity. }
  unfold load_image_from_buffer, try_except, bind, get.
  destruct (nth_error (buffers s) (buf_index b)) as [m|] eqn:En.
  - destruct H as [H|(e & He & Hin)]; [discriminate|].
    unfold tick. rewrite He. unfold emit, modify, raise. cbn [fst snd].
    assert (Hc : existsb (exn_eqb e)
                   [IndexError; OSError; TypeError; UnidentifiedImageError;
                    ValueError] = true).
    { destruct Hin as [<-|[<-|[<-|[<-|[<-|[]]]]]]; reflexivity. }
    rewrite Hc. cbn [fst snd].
    split; [reflexivity|]. split; [reflexivity|]. split; [reflexivity|].
    apply Hsave. reflexivity.
  - unfold raise, modify. cbn [existsb exn_eqb orb fst snd].
    split; [reflexivity|]. split; [reflexivity|]. split; [reflexivity|].
    apply Hsave. reflexivity.
Qed.

End Steadiness.

(** ** Buffer setup on a cooperative device *)

Section CooperativeDevice.

Import captureThread.

Variable Image : Type.
Variable pil : Imaging Image.
Variable env : Env Image.

Hypothesis Hopen : forall t, dev_closed env t = false.
Hypothesis Hio : forall t r, exists n, ioctl env t r = Ok n.
Hypothesis Hmap : forall t, mmap_raises env t = None.

Lemma mapped_app (l1 l2 : list (event Image)) :
  mapped (l1 ++ l2) = mapped l1 ++ mapped l2.
Proof.
  induction l1 as [|e l1 IH]; [reflexivity|].
  destruct e; cbn; rewrite ?IH; reflexivity.
Qed.

Lemma queued_app (l1 l2 : list (event Image)) :
  queued (l1 ++ l2) = queued l1 ++ queued l2.
Proof.
  induction l1 as [|e l1 IH]; [reflexivity|].
  destruct e as [r ok| | | | | | | | |]; cbn; rewrite ?IH; try reflexivity.
  destruct r; try reflexivity. destruct ok; cbn; rewrite ?IH; reflexivity.
Qed.

Lemma request_capture_buffers_cooperative n s :
  exists g s1,
    ioctl env (S (clock s)) (VIDIOC_REQBUFS n) = Ok g /\
    request_capture_buffers env n s = (Ok tt, s1) /\
    req s1 = Some g /\ hw_buffers s1 = g /\ buffers s1 = buffers s /\
    grown s s1 [EvIoctl Image (VIDIOC_REQBUFS n) true].
Proof.
  destruct (Hio (S (clock s)) (VIDIOC_REQBUFS n)) as [g Hg].
  exists g. eexists. split; [exact Hg|].
  unfold request_capture_buffers, try_except, bind, closed, do_ioctl, tick,
    emit, modify, ret, bind.
  cbn. rewrite Hopen. cbn. rewrite Hg. cbn.
  repeat split.
Qed.

Lemma grown_trans s s1 s2 (l1 l2 : list (event Image)) :
  grown s s1 l1 -> grown s1 s2 l2 -> grown s s2 (l1 ++ l2).
Proof.
  intros (L1 & Q1 & B1 & D1) (L2 & Q2 & B2 & D2).
  repeat split; try congruence. rewrite L2, L1, app_assoc. reflexivity.
Qed.

Lemma release_capture_buffers_cooperative s :
  exists s1 l,
    release_capture_buffers env s = (Ok tt, s1) /\
    buffers s1 = buffers s /\ mapped l = [] /\ queued l = [] /\
    grown s s1 l.
Proof.
  destruct (request_capture_buffers_cooperative 0 s)
    as (g & s1 & _ & E & Rq & _ & B & G).
  unfold release_capture_buffers, bind, get. rewrite E, Rq.
  destruct (Nat.eqb g 0); unfold modify, ret; eexists; eexists;
    (split; [reflexivity|]); cbn; repeat split; try apply G; auto.
Qed.

Lemma map_and_queue_cooperative ind s :
  exists s1,
    map_and_queue env ind s = (Ok tt, s1) /\
    buffers s1 = buffers s ++ [S (clock s)] /\
    req s1 = req s /\ hw_buffers s1 = hw_buffers s /\
    grown s s1 [EvIoctl Image (VIDIOC_QUERYBUF ind) true;
                EvMmap Image (S (clock s));
                EvIoctl Image (VIDIOC_QBUF ind) true].
Proof.
  destruct (Hio (clock s) (VIDIOC_QUERYBUF ind)) as [n1 H1].
  destruct (Hio (S (S (clock s))) (VIDIOC_QBUF ind)) as [n2 H2].
  eexists.
  unfold map_and_queue, bind, do_ioctl, tick, emit, modify, ret, bind.
  cbn. rewrite H1. cbn. rewrite Hmap. cbn. rewrite H2. cbn.
  split; [reflexivity|]. cbn. repeat split.
  rewrite <- !app_assoc. reflexivity.
Qed.

Lemma map_and_queue_from_cooperative n : forall ind s,
  exists s1 l,
    map_and_queue_from env ind n s = (Ok tt, s1) /\
    buffers s1 = buffers s ++ mapped l /\
    List.length (mapped l) = n /\ queued l = seq ind n /\
    req s1 = req s /\ hw_buffers s1 = hw_buffers s /\
    grown s s1 l.
Proof.
  induction n as [|n IH]; intros ind s.
  - exists s, []. cbn. rewrite !app_nil_r. repeat split.
    symmetry. apply app_nil_r.
  - destruct (map_and_queue_cooperative ind s)
      as (s1 & E1 & B1 & R1 & W1 & G1).
    destruct (IH (S ind) s1) as (s2 & l2 & E2 & B2 & N2 & Q2 & R2 & W2 & G2).
    exists s2. eexists.
    cbn [map_and_queue_from]. unfold bind at 1. rewrite E1.
    split; [exact E2|].
    split; [|split; [|split; [|split; [|split;
      [|exact (grown_trans G1 G2)]]]]]; try congruence.
    + rewrite B2, B1, mapped_app, <- app_assoc. reflexivity.
    + rewrite mapped_app, length_app, N2. reflexivity.
    + rewrite queued_app, Q2. reflexivity.
Qed.

(** X25: on a device that stays open, answers every ioctl and maps every
    buffer, [__setup_capture_buffers] returns normally; the count it
    works with is the one the device granted for the [bufCount] buffers
    asked for; it maps exactly that many buffers, appends them to the
    buffer list in order and queues the slots 0, 1, ..., granted - 1 in
    order; the broken flag is untouched. *)
Theorem setup_maps_and_queues_the_granted_buffers (s : State Image) :
  exists granted t l,
    ioctl env t (VIDIOC_REQBUFS (bufCount (request s))) = Ok granted /\
    fst (setup_capture_buffers env s) = Ok tt /\
    let s' := snd (setup_capture_buffers env s) in
    req s' = Some granted /\ hw_buffers s' = granted /\
    log s' = log s ++ l /\
    buffers s' = buffers s ++ mapped l /\
    List.length (mapped l) = granted /\
    queued l = seq 0 granted /\
    brokenRx s' = brokenRx s.
Proof.
  destruct (release_capture_buffers_cooperative s)
    as (s1 & l1 & E1 & B1 & M1 & Q1 & G1).
  destruct (request_capture_buffers_cooperative (bufCount (request s1)) s1)
    as (g & s2 & Hg & E2 & R2 & W2 & B2 & G2).
  destruct (map_and_queue_from_cooperative g 0
              (set_clock (S (clock s2)) s2))
    as (s3 & l3 & E3 & B3 & N3 & Q3 & R3 & W3 & G3).
  assert (Q : request s1 = request s) by apply G1.
  rewrite Q in Hg.
  exists g, (S (clock s1)),
    ((l1 ++ [EvIoctl Image (VIDIOC_REQBUFS (bufCount (request s))) true])
       ++ l3).
  split; [exact Hg|].
  assert (E : setup_capture_buffers env s = (Ok tt, s3)).
  { unfold setup_capture_buffers, bind at 1. rewrite E1.
    unfold bind at 1, get at 1. unfold bind at 1. rewrite E2.
    unfold bind at 1, get at 1. rewrite R2.
    unfold try_except, bind at 1, closed, bind, tick, ret.
    rewrite Hopen. cbn [negb]. rewrite E3. reflexivity. }
  rewrite E. cbn [fst snd].
  assert (G : grown s s3
                ((l1 ++ [EvIoctl Image
                           (VIDIOC_REQBUFS (bufCount (request s))) true])
                   ++ l3)).
  { apply grown_trans with (s1 := s2).
    - rewrite <- Q. exact (grown_trans G1 G2).
    - destruct G3 as (L3 & Q3' & K3 & D3). repeat split; auto. }
  split; [reflexivity|].
  repeat split.
  - rewrite R3. exact R2.
  - rewrite W3. exact W2.
  - apply G.
  - rewrite B3. cbn [buffers set_clock]. rewrite B2, B1.
    rewrite !mapped_app, M1. reflexivity.
  - rewrite !mapped_app, M1. cbn. exact N3.
  - rewrite !queued_app, Q1. cbn. exact Q3.
  - apply G.
Qed.

End CooperativeDevice.

(** ** Runs of the capture cycle, continued *)

Section CaptureRunsMore.

Import captureThread.
Import CaptureSamples.

Lemma run_closes_every_mapped_buffer_witness :
  buffers (snd (run toy_pil mmap_failing_env (fresh_worker 5))) = [] /\
  still_mapped (log (snd (run toy_pil mmap_failing_env (fresh_worker 5))))
  = [].
Proof.
  apply (@run_closes_every_mapped_buffer bool toy_pil mmap_failing_env
           (fresh_worker 5)); reflexivity.
Defined.

Lemma failed_load_skips_statistics_and_save_witness :
  let s := streaming_worker 5 in
  let s1 := snd (load_image_from_buffer undecodable_env (mk_buffer 0) s) in
  fst (load_image_from_buffer undecodable_env (mk_buffer 0) s) = Ok tt /\
  theFrame s1 = None /\ stats s1 = stats s /\
  save_frame toy_pil undecodable_env s1 = (Ok tt, s1).
Proof.
  apply (@failed_load_skips_statistics_and_save bool toy_pil undecodable_env
           (mk_buffer 0) (streaming_worker 5)).
  right. exists UnidentifiedImageError. split; [reflexivity|].
  right. right. right. left. reflexivity.
Defined.

Lemma setup_maps_and_queues_the_granted_buffers_witness :
  exists granted t l,
    ioctl ready_env t
      (VIDIOC_REQBUFS (bufCount (request (fresh_worker 5)))) = Ok granted /\
    fst (setup_capture_buffers ready_env (fresh_worker 5)) = Ok tt /\
    let s' := snd (setup_capture_buffers ready_env (fresh_worker 5)) in
    req s' = Some granted /\ hw_buffers s' = granted /\
    log s' = log (fresh_worker 5) ++ l /\
    buffers s' = buffers (fresh_worker 5) ++ mapped l /\
    List.length (mapped l) = granted /\
    queued l = seq 0 granted /\
    brokenRx s' = brokenRx (fresh_worker 5).
Proof.
  apply (@setup_maps_and_queues_the_granted_buffers bool ready_env
           (fun _ => eq_refl) ready_env_ioctl (fun _ => eq_refl)
           (fresh_worker 5)).
Defined.

End CaptureRunsMore.
